(** * nookipedia-api: the request engine of [NookipediaApi]

    A shallow embedding of [src/index.ts] (class [NookipediaApi], method
    [request], and the [NookipediaError] hierarchy) together with the parts
    of the JavaScript platform the method calls: [String.prototype.replace],
    [URL], [URLSearchParams], [Headers] and the [fetch] transport.

    Strings are sequences of code units; the embedding covers code units
    below 256, so a [string] of this file is read as a Latin-1 JavaScript
    string.  Where the platform's behaviour leaves that fragment (IDNA,
    IPv4 and IPv6 hosts, credentials, [file:] and non-special schemes),
    and on the digits of a Number that is not an integer below [2^53],
    the platform model answers [OutsideModel] instead of guessing. *)

From Stdlib Require Import ZArith NArith String Ascii List Bool Lia DecimalString.
From Stdlib Require DecimalPos DecimalN DecimalZ.
Import ListNotations.

Set Warnings "-register-all".

Open Scope string_scope.
Open Scope list_scope.

(* ================================================================== *)
(** * Part I: definitions *)
(* ================================================================== *)

(** ** JavaScript strings *)

Module JsString.

Definition code (c : ascii) : N := N_of_ascii c.

Definition in_range (lo hi : N) (c : ascii) : bool :=
  (N.leb lo (code c) && N.leb (code c) hi)%bool.

Definition is_digit (c : ascii) : bool := in_range 48 57 c.
Definition is_upper (c : ascii) : bool := in_range 65 90 c.
Definition is_lower (c : ascii) : bool := in_range 97 122 c.
Definition is_alpha (c : ascii) : bool := (is_upper c || is_lower c)%bool.
Definition is_alnum (c : ascii) : bool := (is_alpha c || is_digit c)%bool.

Definition to_lower (c : ascii) : ascii :=
  if is_upper c then ascii_of_N (code c + 32) else c.

Fixpoint map (f : ascii -> ascii) (s : string) : string :=
  match s with
  | EmptyString => EmptyString
  | String c r => String (f c) (map f r)
  end.

Fixpoint forallb (p : ascii -> bool) (s : string) : bool :=
  match s with
  | EmptyString => true
  | String c r => (p c && forallb p r)%bool
  end.

Fixpoint existsb (p : ascii -> bool) (s : string) : bool :=
  match s with
  | EmptyString => false
  | String c r => (p c || existsb p r)%bool
  end.

Fixpoint flat_map (f : ascii -> string) (s : string) : string :=
  match s with
  | EmptyString => EmptyString
  | String c r => (f c ++ flat_map f r)%string
  end.

Fixpoint filter (p : ascii -> bool) (s : string) : string :=
  match s with
  | EmptyString => EmptyString
  | String c r => if p c then String c (filter p r) else filter p r
  end.

Fixpoint drop (n : nat) (s : string) : string :=
  match n, s with
  | O, _ => s
  | S _, EmptyString => EmptyString
  | S m, String _ r => drop m r
  end.

Definition lowercase (s : string) : string := map to_lower s.

(** [s.includes(c)] for a single code unit. *)
Definition includes_char (c : ascii) (s : string) : bool :=
  existsb (Ascii.eqb c) s.

(** [s.startsWith(pat)] *)
Fixpoint starts_with (pat s : string) : bool :=
  match pat with
  | EmptyString => true
  | String a pat' =>
      match s with
      | EmptyString => false
      | String b s' => if Ascii.eqb a b then starts_with pat' s' else false
      end
  end.

(** [split_first pat s]: the text before and after the first occurrence
    of [pat] in [s] (the position [StringIndexOf(s, pat, 0)] finds). *)
Fixpoint split_first (pat s : string) : option (string * string) :=
  if starts_with pat s then Some (EmptyString, drop (String.length pat) s)
  else
    match s with
    | EmptyString => None
    | String c r =>
        match split_first pat r with
        | Some (before, after) => Some (String c before, after)
        | None => None
        end
    end.

(** [s.includes(pat)] *)
Definition includes (pat s : string) : bool :=
  match split_first pat s with Some _ => true | None => false end.

(** [GetSubstitution] (ECMAScript, 22.1.3.19.1) as [replace] calls it for
    a string pattern: there are no captures, so of the replacement
    patterns only [$$], [$&], [$`] and [$'] are expanded; [$1], [$<] and a
    lone [$] stay as written. *)
Fixpoint GetSubstitution (matched before after template : string) : string :=
  match template with
  | EmptyString => EmptyString
  | String c1 r1 =>
      if Ascii.eqb c1 "$" then
        match r1 with
        | String c2 r2 =>
            if Ascii.eqb c2 "$" then
              String "$" (GetSubstitution matched before after r2)
            else if Ascii.eqb c2 "`" then
              (before ++ GetSubstitution matched before after r2)%string
            else if Ascii.eqb c2 "&" then
              (matched ++ GetSubstitution matched before after r2)%string
            else if Ascii.eqb c2 "'" then
              (after ++ GetSubstitution matched before after r2)%string
            else String c1 (GetSubstitution matched before after r1)
        | EmptyString => String c1 EmptyString
        end
      else String c1 (GetSubstitution matched before after r1)
  end.

(** [s.replace(pat, replaceValue)] with a string pattern and a string
    replacement: only the first occurrence is replaced. *)
Definition replace (s pat replaceValue : string) : string :=
  match split_first pat s with
  | None => s
  | Some (before, after) =>
      (before ++ GetSubstitution pat before after replaceValue ++ after)%string
  end.

End JsString.

(** ** Numbers *)

(** A Number is an IEEE 754 binary64 value.  [Finite negative m e] stands
    for the value [m * 2^e], negated when [negative] is set (so the two
    zeros are apart); the finite Numbers are the values that can be
    written with [m < 2^53] and [-1074 <= e <= 971]. *)
Inductive Number : Type :=
| NaN
| Infinity (negative : bool)
| Finite (negative : bool) (m : N) (e : Z).

(** An integer literal.  An integer below [2^53] in magnitude is a Number
    as it stands. *)
Definition Number_of_Z (n : Z) : Number := Finite (Z.ltb n 0) (Z.abs_N n) 0.
Coercion Number_of_Z : Z >-> Number.
Bind Scope Z_scope with Number.

(** The value of a finite Number, where it is an integer. *)
Definition integer_value (x : Number) : option Z :=
  match x with
  | Finite negative m e =>
      let sign := if negative then (-1)%Z else 1%Z in
      if (0 <=? e)%Z then Some (sign * (Z.of_N m * 2 ^ e))%Z
      else if (Z.of_N m mod 2 ^ (- e) =? 0)%Z
      then Some (sign * (Z.of_N m / 2 ^ (- e)))%Z
      else None
  | _ => None
  end.

(** ** JavaScript values, thrown values and completions *)

(** What [fetchResponse.json()] can resolve to, and what a mock transport
    can hand back in its place: primitive values, arrays, and plain
    objects with data properties, as [JSON.parse] builds them. *)
Inductive value : Type :=
| VUndefined
| VNull
| VBool (b : bool)
| VNumber (x : Number)
| VString (s : string)
| VArray (items : list value)
| VObject (props : list (string * value)).

(** [export type ErrorBody = { title?: string; details?: string }] is a
    compile-time type only: at run time a body is whatever was decoded. *)
Definition ErrorBody : Type := value.

(** The classes of [src/index.ts], lines 28-50, and [NookipediaError400],
    which the 1.3.0 and 1.6.0 revisions of the file declare. *)
Inductive ErrorClass : Type :=
| CNookipediaError
| CNookipediaError400
| CNookipediaError401
| CNookipediaError404
| CNookipediaError500.

(** An instance of [NookipediaError] or of one of its subclasses:
    [message] is what [e.message] reads, [body] and [code] are the public
    fields. *)
Record NookipediaError : Type := mkNookipediaError {
  class : ErrorClass;
  message : string;
  body : ErrorBody;
  code : option Z
}.

Inductive thrown : Type :=
| TypeError                       (* raised by the platform *)
| External (e : value)            (* raised by the transport or by [json()] *)
| Raised (e : NookipediaError).   (* [throw new NookipediaError...] *)

(** How an evaluation ends.  [OutsideModel] is not a JavaScript outcome: it
    marks inputs on which the platform model of this file is silent. *)
Inductive completion (A : Type) : Type :=
| Normal (a : A)
| Throw (e : thrown)
| OutsideModel.
Arguments Normal {A} a.
Arguments Throw {A} e.
Arguments OutsideModel {A}.

Definition cbind {A B : Type} (c : completion A) (k : A -> completion B)
  : completion B :=
  match c with
  | Normal a => k a
  | Throw e => Throw e
  | OutsideModel => OutsideModel
  end.

(** [Number::toString] (ECMAScript, 6.1.6.1.20) in radix 10.  An integer
    below [2^53] in magnitude has no shorter decimal that denotes it, and
    is written with all its digits; on the other finite Numbers, where the
    digits are the shortest that round to the value and an exponent may
    follow, this file is silent. *)
Definition Number_toString (x : Number) : completion string :=
  match x with
  | NaN => Normal "NaN"
  | Infinity false => Normal "Infinity"
  | Infinity true => Normal "-Infinity"
  | Finite _ _ _ =>
      match integer_value x with
      | Some n =>
          if (Z.abs n <? 2 ^ 53)%Z
          then Normal (NilZero.string_of_int (Z.to_int n))
          else OutsideModel
      | None => OutsideModel
      end
  end.

Definition has_own {A : Type} (key : string) (props : list (string * A)) : bool :=
  List.existsb (fun p => String.eqb (fst p) key) props.

(** [ToString] (ECMAScript, 7.1.17).  An array answers through
    [Array.prototype.join]: its elements are joined by commas, [undefined]
    and [null] counting as the empty string.  A plain object answers
    through [Object.prototype.toString] unless it has a property [toString]
    of its own: that property is data, not a function, and then so is a
    [valueOf] of its own, while the inherited [valueOf] returns the object,
    so that no primitive is found and a [TypeError] is thrown. *)
Fixpoint ToString (v : value) : completion string :=
  match v with
  | VUndefined => Normal "undefined"
  | VNull => Normal "null"
  | VBool true => Normal "true"
  | VBool false => Normal "false"
  | VNumber x => Number_toString x
  | VString s => Normal s
  | VArray items =>
      (fix join (l : list value) : completion string :=
         match l with
         | [] => Normal EmptyString
         | x :: rest =>
             cbind (match x with
                    | VUndefined | VNull => Normal EmptyString
                    | _ => ToString x
                    end) (fun s =>
             match rest with
             | [] => Normal s
             | _ => cbind (join rest) (fun t => Normal (s ++ "," ++ t)%string)
             end)
         end) items
  | VObject props =>
      if has_own "toString" props then Throw TypeError
      else Normal "[object Object]"
  end.

(** [body.title]: reading a property of [undefined] or [null] throws a
    [TypeError]; an object yields the own property or [undefined]; no
    primitive wrapper and no array has a [title]. *)
Fixpoint lookup {A : Type} (key : string) (props : list (string * A)) : option A :=
  match props with
  | [] => None
  | (k, v) :: rest => if String.eqb k key then Some v else lookup key rest
  end.

Definition get_title (body : value) : completion value :=
  match body with
  | VUndefined | VNull => Throw TypeError
  | VObject props =>
      match lookup "title" props with
      | Some v => Normal v
      | None => Normal VUndefined
      end
  | _ => Normal VUndefined
  end.

(** ** The error hierarchy ([src/index.ts], lines 28-50) *)

(** [Error(message)] (ECMAScript, 20.5.1.1): an argument other than
    [undefined] is converted with [ToString] and stored as the property
    [message] of the error; with [undefined] the error has no such
    property of its own, and [e.message] reads the empty string of
    [Error.prototype]. *)
Definition Error_message (argument : value) : completion string :=
  match argument with
  | VUndefined => Normal EmptyString
  | _ => ToString argument
  end.

(** [constructor(public body: ErrorBody, public code?: number)
       { super(body.title); }] *)
Definition new_NookipediaError (body : ErrorBody) (code : option Z)
  : completion NookipediaError :=
  cbind (get_title body) (fun title =>
  cbind (Error_message title) (fun message =>
  Normal {| class := CNookipediaError; message := message;
            body := body; code := code |})).

(** A subclass: [public code = N; constructor(public body) { super(body); }].
    The parent constructor runs with no [code]; afterwards the field
    initialiser and the parameter property assign [code] and [body]. *)
Definition new_subclass (cls : ErrorClass) (fixed : Z) (body : ErrorBody)
  : completion NookipediaError :=
  cbind (new_NookipediaError body None) (fun this =>
  Normal {| class := cls; message := message this;
            body := body; code := Some fixed |}).

Definition new_NookipediaError400 := new_subclass CNookipediaError400 400.
Definition new_NookipediaError401 := new_subclass CNookipediaError401 401.
Definition new_NookipediaError404 := new_subclass CNookipediaError404 404.
Definition new_NookipediaError500 := new_subclass CNookipediaError500 500.

(** ** Percent-encoding (URL Standard, section 1.3) *)

Module PercentEncode.
Import JsString.

Definition one_of (chars : string) (c : ascii) : bool := includes_char c chars.

Definition hex_digit (n : N) : ascii :=
  if N.ltb n 10 then ascii_of_N (48 + n) else ascii_of_N (55 + n).

(** [%HH], upper-case hexadecimal. *)
Definition percent_encode_byte (b : ascii) : string :=
  String "%" (String (hex_digit (code b / 16))
             (String (hex_digit (code b mod 16)) EmptyString)).

(** UTF-8 of one code unit below 256. *)
Definition utf8_encode_unit (c : ascii) : string :=
  if N.ltb (code c) 128 then String c EmptyString
  else String (ascii_of_N (192 + code c / 64))
         (String (ascii_of_N (128 + code c mod 64)) EmptyString).

Definition c0_control_set (c : ascii) : bool :=
  (N.leb (code c) 31 || N.ltb 126 (code c))%bool.
Definition fragment_set (c : ascii) : bool :=
  (c0_control_set c || one_of (String "034" " <>`") c)%bool.
Definition query_set (c : ascii) : bool :=
  (c0_control_set c || one_of (String "034" " #<>") c)%bool.
Definition special_query_set (c : ascii) : bool :=
  (query_set c || one_of "'" c)%bool.
(** The path percent-encode set, as the platform the library runs on
    has it: [^], which a later revision of the standard adds to the set,
    is left as it is in a path. *)
Definition path_set (c : ascii) : bool :=
  (query_set c || one_of "?`{}" c)%bool.
Definition userinfo_set (c : ascii) : bool :=
  (path_set c || one_of "/:;=@[\]^|" c)%bool.
Definition component_set (c : ascii) : bool :=
  (userinfo_set c || one_of "$%&+," c)%bool.
Definition urlencoded_set (c : ascii) : bool :=
  (component_set c || one_of "!'()~" c)%bool.

Definition utf8_percent_encode (set : ascii -> bool) (c : ascii) : string :=
  if set c then flat_map percent_encode_byte (utf8_encode_unit c)
  else String c EmptyString.

Definition hex_value (c : ascii) : option N :=
  if is_digit c then Some (code c - 48)%N
  else if in_range 65 70 c then Some (code c - 55)%N
  else if in_range 97 102 c then Some (code c - 87)%N
  else None.

Fixpoint percent_decode (s : string) : string :=
  match s with
  | EmptyString => EmptyString
  | String c r =>
      if Ascii.eqb c "%" then
        match r with
        | String h (String l r2) =>
            match hex_value h, hex_value l with
            | Some a, Some b =>
                String (ascii_of_N (16 * a + b)) (percent_decode r2)
            | _, _ => String c (percent_decode r)
            end
        | _ => String c (percent_decode r)
        end
      else String c (percent_decode r)
  end.

(** UTF-8 decoding, defined where the result stays below 256; [None]
    where the decoded text has a code point this file does not cover. *)
Fixpoint utf8_decode (bytes : string) : option string :=
  match bytes with
  | EmptyString => Some EmptyString
  | String b r =>
      if N.ltb (code b) 128 then option_map (String b) (utf8_decode r)
      else if (N.eqb (code b) 194 || N.eqb (code b) 195)%bool then
        match r with
        | String b2 r2 =>
            if in_range 128 191 b2 then
              option_map
                (String (ascii_of_N ((code b - 192) * 64 + (code b2 - 128))))
                (utf8_decode r2)
            else None
        | EmptyString => None
        end
      else None
  end.

End PercentEncode.

(** ** [URLSearchParams] (URL Standard, sections 5 and 6) *)

Module URLSearchParams.
Import JsString PercentEncode.

(** The list of name-value pairs of the object. *)
Definition t : Type := list (string * string).

Definition has_name (name : string) (p : string * string) : bool :=
  String.eqb (fst p) name.

(** [append(name, value)] *)
Definition append (l : t) (name value : string) : t := l ++ [(name, value)].

(** [set(name, value)]: the first pair named [name] takes [value] and
    the other pairs of that name are removed; with no such pair,
    [(name, value)] is appended. *)
Fixpoint set (l : t) (name value : string) : t :=
  match l with
  | [] => [(name, value)]
  | p :: rest =>
      if has_name name p
      then (name, value) :: List.filter (fun q => negb (has_name name q)) rest
      else p :: set rest name value
  end.

(** The [application/x-www-form-urlencoded] byte serializer: alphanumerics
    and [*-._] stay, a space becomes [+], every other byte is [%HH]. *)
Definition serialize_unit (c : ascii) : string :=
  if Ascii.eqb c " " then "+" else utf8_percent_encode urlencoded_set c.

Definition serialize_string (s : string) : string := flat_map serialize_unit s.

Definition serialize_pair (p : string * string) : string :=
  (serialize_string (fst p) ++ "=" ++ serialize_string (snd p))%string.

(** [toString()]: the pairs joined by [&]. *)
Fixpoint serialize (l : t) : string :=
  match l with
  | [] => EmptyString
  | [p] => serialize_pair p
  | p :: rest => (serialize_pair p ++ "&" ++ serialize rest)%string
  end.

Fixpoint split_on (sep : ascii) (s : string) : list string :=
  match s with
  | EmptyString => [EmptyString]
  | String c r =>
      if Ascii.eqb c sep then EmptyString :: split_on sep r
      else
        match split_on sep r with
        | h :: tl => String c h :: tl
        | [] => [String c EmptyString]
        end
  end.

Definition plus_to_space (c : ascii) : ascii := if Ascii.eqb c "+" then " "%char else c.

Definition decode_component (bytes : string) : option string :=
  utf8_decode (percent_decode (JsString.map plus_to_space bytes)).

Definition parse_sequence (bytes : string) : option (string * string) :=
  let (name, value) :=
    match split_first "=" bytes with
    | Some (n, v) => (n, v)
    | None => (bytes, EmptyString)
    end in
  match decode_component name, decode_component value with
  | Some n, Some v => Some (n, v)
  | _, _ => None
  end.

Fixpoint parse_sequences (seqs : list string) : option t :=
  match seqs with
  | [] => Some []
  | bytes :: rest =>
      match bytes with
      | EmptyString => parse_sequences rest
      | _ =>
          match parse_sequence bytes, parse_sequences rest with
          | Some p, Some l => Some (p :: l)
          | _, _ => None
          end
      end
  end.

(** The urlencoded string parser, as run on a URL's query. *)
Definition parse (input : string) : option t :=
  parse_sequences (split_on "&" (flat_map utf8_encode_unit input)).

End URLSearchParams.

(** ** [URL] (URL Standard, section 4: the basic URL parser)

    The model covers the special schemes other than [file:], without
    credentials, with an ASCII domain as host that needs no IDNA
    processing and is not an IPv4 or IPv6 address.  Elsewhere it answers
    [OutsideModel]; [Throw TypeError] stands for the parser's failure, as
    the [URL] constructor reports it. *)

Module URL.
Import JsString PercentEncode.

Record t : Type := mk {
  scheme : string;
  host : string;
  port : option N;
  path : list string;
  query : option string;
  fragment : option string
}.

Definition default_port (scheme : string) : option N :=
  if String.eqb scheme "ftp" then Some 21%N
  else if String.eqb scheme "http" then Some 80%N
  else if String.eqb scheme "https" then Some 443%N
  else if String.eqb scheme "ws" then Some 80%N
  else if String.eqb scheme "wss" then Some 443%N
  else None.

Definition is_special (scheme : string) : bool :=
  (String.eqb scheme "file" ||
   match default_port scheme with Some _ => true | None => false end)%bool.

(** *** Input clean-up *)

Definition is_c0_or_space (c : ascii) : bool := N.leb (code c) 32.
Definition is_tab_or_newline (c : ascii) : bool :=
  (N.eqb (code c) 9 || N.eqb (code c) 10 || N.eqb (code c) 13)%bool.

Fixpoint strip_leading (s : string) : string :=
  match s with
  | String c r => if is_c0_or_space c then strip_leading r else s
  | EmptyString => EmptyString
  end.

Fixpoint strip_trailing (s : string) : string :=
  match s with
  | EmptyString => EmptyString
  | String c r =>
      match strip_trailing r with
      | EmptyString => if is_c0_or_space c then EmptyString else String c EmptyString
      | r' => String c r'
      end
  end.

Definition preprocess (input : string) : string :=
  filter (fun c => negb (is_tab_or_newline c))
         (strip_trailing (strip_leading input)).

(** The longest prefix whose code units satisfy [p], and what follows. *)
Fixpoint span (p : ascii -> bool) (s : string) : string * string :=
  match s with
  | EmptyString => (EmptyString, EmptyString)
  | String c r =>
      if p c then let (a, b) := span p r in (String c a, b)
      else (EmptyString, s)
  end.

(** *** Scheme start state and scheme state *)

Definition is_scheme_char (c : ascii) : bool := (is_alnum c || one_of "+-." c)%bool.

Fixpoint scan_scheme_rest (s : string) : option (string * string) :=
  match s with
  | EmptyString => None
  | String c r =>
      if Ascii.eqb c ":" then Some (EmptyString, r)
      else if is_scheme_char c then
        match scan_scheme_rest r with
        | Some (a, b) => Some (String (to_lower c) a, b)
        | None => None
        end
      else None
  end.

Definition scan_scheme (s : string) : option (string * string) :=
  match s with
  | String c r =>
      if is_alpha c then
        match scan_scheme_rest r with
        | Some (a, b) => Some (String (to_lower c) a, b)
        | None => None
        end
      else None
  | EmptyString => None
  end.

(** *** Host parsing *)

Definition forbidden_host (c : ascii) : bool :=
  (N.eqb (code c) 0 || is_tab_or_newline c || one_of " #/:<>?@[\]^|" c)%bool.

Definition forbidden_domain (c : ascii) : bool :=
  (forbidden_host c || N.leb (code c) 31 || one_of "%" c || N.eqb (code c) 127)%bool.

Definition last_label (domain : string) : string :=
  match rev (URLSearchParams.split_on "." domain) with
  | EmptyString :: l :: _ => l
  | l :: _ => l
  | [] => EmptyString
  end.

Definition starts_with_digit (s : string) : bool :=
  match s with String c _ => is_digit c | EmptyString => false end.

(** The host parser on the host of a special URL.  An ASCII domain with
    no label beginning with [xn--] is lower-cased; a forbidden domain
    code point is a failure. *)
Definition host_parse (input : string) : completion string :=
  if existsb (fun c => (N.leb 128 (code c) || Ascii.eqb c "%")%bool) input
  then OutsideModel
  else
    let domain := lowercase input in
    if includes "xn--" domain then OutsideModel
    else if existsb forbidden_domain domain then Throw TypeError
    else if starts_with_digit (last_label domain) then OutsideModel
    else Normal domain.

(** *** Port state *)

Definition decimal (digits : string) : N :=
  fold_left (fun acc c => (10 * acc + (code c - 48))%N)
            (list_ascii_of_string digits) 0%N.

Definition port_parse (scheme digits : string) : completion (option N) :=
  if forallb is_digit digits then
    match digits with
    | EmptyString => Normal None
    | _ =>
        let n := decimal digits in
        if N.ltb 65535 n then Throw TypeError
        else
          match default_port scheme with
          | Some d => if N.eqb d n then Normal None else Normal (Some n)
          | None => Normal (Some n)
          end
    end
  else Throw TypeError.

(** *** Path state, query state, fragment state *)

Definition is_slash (c : ascii) : bool := (Ascii.eqb c "/" || Ascii.eqb c "\")%bool.

Definition is_single_dot (buffer : string) : bool :=
  let b := lowercase buffer in (String.eqb b "." || String.eqb b "%2e")%bool.

Definition is_double_dot (buffer : string) : bool :=
  let b := lowercase buffer in
  (String.eqb b ".." || String.eqb b ".%2e" ||
   String.eqb b "%2e." || String.eqb b "%2e%2e")%bool.

Definition shorten (path : list string) : list string := removelast path.

(** What the path state does with [buffer] when it meets the end of a
    segment; [at_slash] says whether the delimiter is a slash. *)
Definition push_segment (buffer : string) (at_slash : bool)
    (path : list string) : list string :=
  if is_double_dot buffer then
    if at_slash then shorten path else shorten path ++ [EmptyString]
  else if is_single_dot buffer then
    if at_slash then path else path ++ [EmptyString]
  else path ++ [buffer].

Inductive tail : Type :=
| TEnd
| TQuery (rest : string)
| TFragment (rest : string).

Fixpoint path_state (input buffer : string) (path : list string)
  : list string * tail :=
  match input with
  | EmptyString => (push_segment buffer false path, TEnd)
  | String c r =>
      if is_slash c then path_state r EmptyString (push_segment buffer true path)
      else if Ascii.eqb c "?" then (push_segment buffer false path, TQuery r)
      else if Ascii.eqb c "#" then (push_segment buffer false path, TFragment r)
      else path_state r (buffer ++ utf8_percent_encode path_set c)%string path
  end.

Definition fragment_state (input : string) : string :=
  flat_map (utf8_percent_encode fragment_set) input.

Definition query_state (input : string) : string * option string :=
  let (q, r) := span (fun c => negb (Ascii.eqb c "#")) input in
  (flat_map (utf8_percent_encode special_query_set) q,
   match r with
   | String _ f => Some (fragment_state f)
   | EmptyString => None
   end).

(** Scheme, host and port are known; [p] is the path so far and [tl] what
    the path state stopped at. *)
Definition finish (scheme host : string) (port : option N)
    (p : list string * tail) : t :=
  match snd p with
  | TEnd => mk scheme host port (fst p) None None
  | TQuery r =>
      let (q, f) := query_state r in mk scheme host port (fst p) (Some q) f
  | TFragment r =>
      mk scheme host port (fst p) None (Some (fragment_state r))
  end.

(** *** Authority, host and path start states *)

Definition is_authority_end (c : ascii) : bool := (is_slash c || one_of "?#" c)%bool.

Definition authority_state (scheme input : string) : completion t :=
  let (authority, rest) := span (fun c => negb (is_authority_end c)) input in
  if (includes_char "@" authority || includes_char "[" authority)%bool
  then OutsideModel
  else
    let (hostname, digits) :=
      match split_first ":" authority with
      | Some (h, d) => (h, Some d)
      | None => (authority, None)
      end in
    match hostname with
    | EmptyString => Throw TypeError
    | _ =>
        cbind (host_parse hostname) (fun host =>
        cbind (match digits with
               | Some d => port_parse scheme d
               | None => Normal None
               end) (fun port =>
        let after_slash :=
          match rest with
          | String c r => if is_slash c then r else rest
          | EmptyString => EmptyString
          end in
        Normal (finish scheme host port (path_state after_slash EmptyString []))))
    end.

(** Special authority slashes state and special authority ignore
    slashes state: every leading slash is skipped. *)
Definition special_authority (scheme input : string) : completion t :=
  authority_state scheme (snd (span is_slash input)).

(** *** Relative state and relative slash state (the base is special) *)

Definition relative_state (base : t) (input : string) : completion t :=
  match input with
  | EmptyString =>
      Normal (mk (scheme base) (host base) (port base) (path base) (query base) None)
  | String c r =>
      if is_slash c then
        match r with
        | String c2 r2 =>
            if is_slash c2 then special_authority (scheme base) r2
            else Normal (finish (scheme base) (host base) (port base)
                                (path_state r EmptyString []))
        | EmptyString =>
            Normal (finish (scheme base) (host base) (port base)
                           (path_state r EmptyString []))
        end
      else if Ascii.eqb c "?" then
        let (q, f) := query_state r in
        Normal (mk (scheme base) (host base) (port base) (path base) (Some q) f)
      else if Ascii.eqb c "#" then
        Normal (mk (scheme base) (host base) (port base) (path base) (query base)
                   (Some (fragment_state r)))
      else
        Normal (finish (scheme base) (host base) (port base)
                       (path_state input EmptyString (shorten (path base))))
  end.

(** *** The basic URL parser *)

Definition parse (input : string) (base : option t) : completion t :=
  let s := preprocess input in
  match scan_scheme s with
  | Some (sch, rest) =>
      if String.eqb sch "file" then OutsideModel
      else if is_special sch then
        match base with
        | Some b =>
            if String.eqb (scheme b) sch then
              (* special relative or authority state *)
              match rest with
              | String "/" (String "/" r) => special_authority sch r
              | _ => relative_state b rest
              end
            else special_authority sch rest
        | None => special_authority sch rest
        end
      else OutsideModel
  | None =>
      (* no scheme state *)
      match base with
      | None => Throw TypeError
      | Some b => relative_state b s
      end
  end.

(** [new URL(url, base)] with a base. *)
Definition new (url base : string) : completion t :=
  cbind (parse base None) (fun parsedBase => parse url (Some parsedBase)).

(** *** The URL serializer: [url.href] *)

Definition serialize_port (port : option N) : string :=
  match port with
  | Some p => (":" ++ NilZero.string_of_uint (N.to_uint p))%string
  | None => EmptyString
  end.

Definition serialize_path (path : list string) : string :=
  fold_right (fun seg acc => ("/" ++ seg ++ acc)%string) EmptyString path.

Definition href (u : t) : string :=
  (scheme u ++ "://" ++ host u ++ serialize_port (port u)
   ++ serialize_path (path u)
   ++ match query u with Some q => "?" ++ q | None => EmptyString end
   ++ match fragment u with Some f => "#" ++ f | None => EmptyString end)%string.

(** The list [url.searchParams] starts from. *)
Definition searchParams (u : t) : option URLSearchParams.t :=
  URLSearchParams.parse
    match query u with Some q => q | None => EmptyString end.

(** The update steps of [url.searchParams]: the URL's query becomes the
    serialization of the list, or null when the list is empty. *)
Definition update (u : t) (l : URLSearchParams.t) : t :=
  mk (scheme u) (host u) (port u) (path u)
     match l with [] => None | _ => Some (URLSearchParams.serialize l) end
     (fragment u).

End URL.

(** ** Path resolver ([src/index.ts], lines 80-85) *)

(** The template literal [`{${key}}`]. *)
Definition placeholder (key : string) : string := ("{" ++ key ++ "}")%string.

(** [finalPath = finalPath.replace(`{${key}}`, value)], once per entry of
    [Object.entries(replacePath ?? {})], in the order of the entries. *)
Definition resolve_path (path : string)
    (replacePath : option (list (string * string))) : string :=
  let entries := match replacePath with Some o => o | None => [] end in
  fold_left
    (fun finalPath '(key, value) =>
       JsString.replace finalPath (placeholder key) value)
    entries path.


(** The keys of an object are distinct. *)
Definition mem (x : string) (l : list string) : bool := List.existsb (String.eqb x) l.

Fixpoint distinct (l : list string) : bool :=
  match l with
  | [] => true
  | x :: rest => (negb (mem x rest) && distinct rest)%bool
  end.

(** ** Path templates

    A path template in the sense of the endpoint catalogue: literal text
    and placeholders [{name}], the braces occurring in placeholders only. *)

Module Template.

Inductive piece : Type :=
| Lit (text : string)
| Hole (name : string).

Definition is_brace (c : ascii) : bool := (Ascii.eqb c "{" || Ascii.eqb c "}")%bool.

Definition brace_free (s : string) : bool := negb (JsString.existsb is_brace s).

Definition dollar_free (s : string) : bool := negb (JsString.includes_char "$" s).

(** A replacement value that [replace] inserts as it is and that brings
    no brace. *)
Definition plain (value : string) : bool := (brace_free value && dollar_free value)%bool.

Definition render_piece (p : piece) : string :=
  match p with
  | Lit text => text
  | Hole name => placeholder name
  end.

(** The template as the string the catalogue holds. *)
Fixpoint render (t : list piece) : string :=
  match t with
  | [] => EmptyString
  | p :: rest => (render_piece p ++ render rest)%string
  end.

Fixpoint holes (t : list piece) : list string :=
  match t with
  | [] => []
  | Lit _ :: rest => holes rest
  | Hole name :: rest => name :: holes rest
  end.

Definition piece_ok (p : piece) : bool :=
  match p with
  | Lit text => brace_free text
  | Hole name => brace_free name
  end.

(** Braces occur in placeholders only, and no placeholder occurs twice. *)
Definition well_formed (t : list piece) : bool :=
  (List.forallb piece_ok t && distinct (holes t))%bool.

(** The mapping names exactly the placeholders of the template. *)
Definition covers (entries : list (string * string)) (t : list piece) : bool :=
  (List.forallb (fun n => mem n (List.map fst entries)) (holes t)
   && List.forallb (fun k => mem k (holes t)) (List.map fst entries))%bool.

(** The template with every placeholder replaced by the value the mapping
    gives its name. *)
Definition fill_piece (entries : list (string * string)) (p : piece) : string :=
  match p with
  | Lit text => text
  | Hole name =>
      match lookup name entries with
      | Some value => value
      | None => placeholder name
      end
  end.

Fixpoint fill (entries : list (string * string)) (t : list piece) : string :=
  match t with
  | [] => EmptyString
  | p :: rest => (fill_piece entries p ++ fill entries rest)%string
  end.

Definition subst_piece (key value : string) (p : piece) : piece :=
  match p with
  | Hole name => if String.eqb name key then Lit value else p
  | Lit _ => p
  end.

Definition subst (t : list piece) (entry : string * string) : list piece :=
  List.map (subst_piece (fst entry) (snd entry)) t.

End Template.

(** ** [Headers] (Fetch Standard, sections 2.2.2 and 5.1) *)

Module Headers.
Import JsString PercentEncode.

(** The header list behind a [Headers] object, guard "none". *)
Definition t : Type := list (string * string).

Definition is_token_char (c : ascii) : bool :=
  (is_alnum c || one_of "!#$%&'*+-.^_`|~" c)%bool.

Definition valid_name (name : string) : bool :=
  match name with
  | EmptyString => false
  | _ => forallb is_token_char name
  end.

Definition is_http_whitespace (c : ascii) : bool :=
  (URL.is_tab_or_newline c || Ascii.eqb c " ")%bool.

Fixpoint strip_leading (s : string) : string :=
  match s with
  | String c r => if is_http_whitespace c then strip_leading r else s
  | EmptyString => EmptyString
  end.

Fixpoint strip_trailing (s : string) : string :=
  match s with
  | EmptyString => EmptyString
  | String c r =>
      match strip_trailing r with
      | EmptyString => if is_http_whitespace c then EmptyString else String c EmptyString
      | r' => String c r'
      end
  end.

(** "Normalize" (Fetch Standard, 2.2.2): leading and trailing HTTP
    whitespace bytes (tab, LF, CR, space) are removed.  [append] and [set]
    of [Headers] normalize the value before they validate it. *)
Definition normalize (value : string) : string :=
  strip_trailing (strip_leading value).

Definition valid_value (value : string) : bool :=
  negb (existsb (fun c => (N.eqb (code c) 0 || N.eqb (code c) 10
                           || N.eqb (code c) 13)%bool) value).

(** Header names match byte-case-insensitively. *)
Definition name_eqb (a b : string) : bool :=
  String.eqb (lowercase a) (lowercase b).

Definition named (name : string) (h : string * string) : bool :=
  name_eqb (fst h) name.

Definition contains (l : t) (name : string) : bool := List.existsb (named name) l.

(** "Append" of a header list: the name takes the spelling of the first
    header of that name already in the list. *)
Definition list_append (l : t) (name value : string) : t :=
  match List.find (named name) l with
  | Some (first, _) => l ++ [(first, value)]
  | None => l ++ [(name, value)]
  end.

(** "Set" of a header list. *)
Fixpoint list_set (l : t) (name value : string) : t :=
  match l with
  | [] => [(name, value)]
  | h :: rest =>
      if named name h
      then (fst h, value) :: List.filter (fun q => negb (named name q)) rest
      else h :: list_set rest name value
  end.

Fixpoint join (values : list string) : string :=
  match values with
  | [] => EmptyString
  | [v] => v
  | v :: rest => (v ++ ", " ++ join rest)%string
  end.

Definition combined (values : list string) : option string :=
  match values with
  | [] => None
  | _ => Some (join values)
  end.

(** "Get" of a header list: the values of the headers named [name],
    joined by a comma and a space; null when there is none. *)
Definition list_get (l : t) (name : string) : option string :=
  combined (List.map snd (List.filter (named name) l)).

(** [headers.append(name, value)] *)
Definition append (l : t) (name value : string) : completion t :=
  let v := normalize value in
  if (valid_name name && valid_value v)%bool then Normal (list_append l name v)
  else Throw TypeError.

(** [headers.set(name, value)] *)
Definition set (l : t) (name value : string) : completion t :=
  let v := normalize value in
  if (valid_name name && valid_value v)%bool then Normal (list_set l name v)
  else Throw TypeError.

(** [headers.get(name)] *)
Definition get (l : t) (name : string) : completion (option string) :=
  if valid_name name then Normal (list_get l name) else Throw TypeError.

(** "Fill": each pair of the init is appended in turn. *)
Fixpoint fill (l : t) (init : list (string * string)) : completion t :=
  match init with
  | [] => Normal l
  | (name, value) :: rest => cbind (append l name value) (fun l' => fill l' rest)
  end.

(** [new Headers(init)]; a [HeadersInit] is read as the sequence of its
    name-value pairs, and [undefined] gives the empty list. *)
Definition new (init : option (list (string * string))) : completion t :=
  match init with
  | Some pairs => fill [] pairs
  | None => Normal []
  end.

End Headers.

(** ** The client, the transport and the world *)

(** [class NookipediaApi { constructor(public apiKey: string,
      public apiUrl = 'https://api.nookipedia.com/') {} }] *)
Record NookipediaApi : Type := mkNookipediaApi {
  apiKey : string;
  apiUrl : string
}.

Definition new_NookipediaApi (apiKey : string) (apiUrl : option string)
  : NookipediaApi :=
  {| apiKey := apiKey;
     apiUrl := match apiUrl with
               | Some u => u
               | None => "https://api.nookipedia.com/"
               end |}.

(** [RequestInit] as the caller passes it: the headers, and every other
    member, which the engine hands on without looking at it. *)
Record RequestInit : Type := mkRequestInit {
  init_headers : option (list (string * string));
  init_other : list (string * value)
}.

(** The second argument of [fetch]: [{ ...fetchOptions, headers }]. *)
Record FetchInit : Type := mkFetchInit {
  headers : Headers.t;
  other : list (string * value)
}.

(** A settled promise. *)
Inductive settled (A : Type) : Type :=
| Fulfilled (a : A)
| Rejected (reason : value).
Arguments Fulfilled {A} a.
Arguments Rejected {A} reason.

(** What the engine reads of a response: [ok], [status] (a mock may leave
    it out) and the outcome of [json()]. *)
Record Response : Type := mkResponse {
  ok : bool;
  status : option Z;
  json : settled value
}.

Definition Transport : Type := string -> FetchInit -> settled Response.

(** The client object and the calls made to the transport so far. *)
Record World : Type := mkWorld {
  this : NookipediaApi;
  calls : list (string * FetchInit)
}.

(** A small state and exception monad over the world. *)
Definition M (A : Type) : Type := World -> completion A * World.

Definition ret {A : Type} (a : A) : M A := fun w => (Normal a, w).

Definition bind {A B : Type} (m : M A) (k : A -> M B) : M B :=
  fun w =>
    match m w with
    | (Normal a, w') => k a w'
    | (Throw e, w') => (Throw e, w')
    | (OutsideModel, w') => (OutsideModel, w')
    end.

Definition throw {A : Type} (e : thrown) : M A := fun w => (Throw e, w).

Definition lift {A : Type} (c : completion A) : M A := fun w => (c, w).

Notation "x <- m ;; k" := (bind m (fun x => k))
  (at level 61, m at next level, right associativity).

Definition this_apiKey : M string := fun w => (Normal (apiKey (this w)), w).
Definition this_apiUrl : M string := fun w => (Normal (apiUrl (this w)), w).

(** [await p] *)
Definition await {A : Type} (p : settled A) : M A :=
  match p with
  | Fulfilled a => ret a
  | Rejected reason => throw (External reason)
  end.

(** [await fetch(url, init)]: the call is recorded, then awaited. *)
Definition await_fetch (fetch : Transport) (url : string) (init : FetchInit)
  : M Response :=
  fun w =>
    await (fetch url init)
          {| this := this w; calls := calls w ++ [(url, init)] |}.

(** ** Query encoder ([src/index.ts], lines 87-102) *)

Inductive Scalar : Type :=
| SString (s : string)
| SNumber (x : Number).

(** [val.toString()]: [String.prototype.toString] gives the string itself,
    [Number.prototype.toString] the decimal representation of the
    Number. *)
Definition toString (v : Scalar) : completion string :=
  match v with
  | SString s => Normal s
  | SNumber x => Number_toString x
  end.

(** The strings of the elements of an array, one by one. *)
Definition strings_of (vs : list Scalar) (ss : list string) : Prop :=
  Forall2 (fun v s => toString v = Normal s) vs ss.

(** [string | number | string[] | number[]], told apart by
    [Array.isArray]. *)
Inductive QueryValue : Type :=
| One (v : Scalar)
| Many (vs : list Scalar).

(** The [URL] object: the URL record and the list of its
    [searchParams]; [None] where the list leaves the model. *)
Record URLObject : Type := mkURLObject {
  record : URL.t;
  params : option URLSearchParams.t
}.

(** [new URL(finalPath, this.apiUrl)] *)
Definition new_URL (url base : string) : completion URLObject :=
  cbind (URL.new url base) (fun u =>
  Normal {| record := u; params := URL.searchParams u |}).

Definition with_params (url : URLObject)
    (f : URLSearchParams.t -> URLSearchParams.t) : completion URLObject :=
  match params url with
  | Some l =>
      Normal {| record := URL.update (record url) (f l); params := Some (f l) |}
  | None => OutsideModel
  end.

(** [url.searchParams.append(key, value)] *)
Definition searchParams_append (url : URLObject) (key value : string) :=
  with_params url (fun l => URLSearchParams.append l key value).

(** [url.searchParams.set(key, value)] *)
Definition searchParams_set (url : URLObject) (key value : string) :=
  with_params url (fun l => URLSearchParams.set l key value).

Fixpoint forEach {A S : Type} (f : S -> A -> completion S) (items : list A)
    (s : S) : completion S :=
  match items with
  | [] => Normal s
  | x :: rest => cbind (f s x) (forEach f rest)
  end.

(** The callback of lines 93-101. *)
Definition encode_entry (url : URLObject) (entry : string * QueryValue)
  : completion URLObject :=
  let (key, value) := entry in
  match value with
  | Many vs =>
      forEach (fun u val =>
                 cbind (toString val) (fun s => searchParams_append u key s))
              vs url
  | One v => cbind (toString v) (fun s => searchParams_set url key s)
  end.

(** [if (query) { Object.entries(query).forEach(...) }] *)
Definition encode_query (url : URLObject)
    (query : option (list (string * QueryValue))) : completion URLObject :=
  match query with
  | Some entries => forEach encode_entry entries url
  | None => Normal url
  end.

(** ** [NookipediaApi.request] ([src/index.ts], lines 64-127) *)

Record Args : Type := mkArgs {
  path : string;
  replacePath : option (list (string * string));
  query : option (list (string * QueryValue));
  fetchOptions : option RequestInit
}.

(** Lines 79-109: the URL and the options handed to [fetch].  [version] is
    the constant [NOOKIPEDIA_API_VERSION] of the revision. *)
Definition outbound (version : string) (args : Args) : M (string * FetchInit) :=
  let finalPath := resolve_path (path args) (replacePath args) in
  apiUrl <- this_apiUrl ;;
  url <- lift (new_URL finalPath apiUrl) ;;
  url <- lift (encode_query url (query args)) ;;
  headers <- lift (Headers.new
                     match fetchOptions args with
                     | Some o => init_headers o
                     | None => None
                     end) ;;
  headers <- lift (Headers.set headers "Accept-Version" version) ;;
  apiKey <- this_apiKey ;;
  headers <- lift (Headers.set headers "X-API-KEY" apiKey) ;;
  ret (URL.href (record url),
       {| headers := headers;
          other := match fetchOptions args with
                   | Some o => init_other o
                   | None => []
                   end |}).

(** [fetchResponse.status === n] *)
Definition status_is (r : Response) (n : Z) : bool :=
  match status r with
  | Some s => Z.eqb s n
  | None => false
  end.

(** [throw new C(...)] *)
Definition throw_new {A : Type} (e : completion NookipediaError) : M A :=
  err <- lift e ;; throw (Raised err).

Definition fallback_body : ErrorBody :=
  VObject [("title", VString "Failed to fetch Nookipedia API")].

Definition NOOKIPEDIA_API_VERSION : string := "1.0.0".

(** Lines 111-126: what becomes of a decoded response. *)
Definition classify (r : Response) (body : value) : M value :=
  if ok r then ret body
  else if status_is r 401 then throw_new (new_NookipediaError401 body)
  else if status_is r 404 then throw_new (new_NookipediaError404 body)
  else if status_is r 500 then throw_new (new_NookipediaError500 body)
  else throw_new (new_NookipediaError fallback_body (status r)).

(** [async request(args)] of [src/index.ts]. *)
Definition request (fetch : Transport) (args : Args) : M value :=
  o <- outbound NOOKIPEDIA_API_VERSION args ;;
  fetchResponse <- await_fetch fetch (fst o) (snd o) ;;
  body <- await (json fetchResponse) ;;
  classify fetchResponse body.

(** ** The 1.6.0 revision of the file ([src/unnamed/part_002])

    It declares [NookipediaError400] (lines 42-47) and adds [case 400] to
    the switch of [request] (lines 129-143); the lines before the switch
    are those of [src/index.ts]. *)
Module Rev_1_6_0.

Definition NOOKIPEDIA_API_VERSION : string := "1.6.0".

Definition classify (r : Response) (body : value) : M value :=
  if ok r then ret body
  else if status_is r 400 then throw_new (new_NookipediaError400 body)
  else if status_is r 401 then throw_new (new_NookipediaError401 body)
  else if status_is r 404 then throw_new (new_NookipediaError404 body)
  else if status_is r 500 then throw_new (new_NookipediaError500 body)
  else throw_new (new_NookipediaError fallback_body (status r)).

Definition request (fetch : Transport) (args : Args) : M value :=
  o <- outbound NOOKIPEDIA_API_VERSION args ;;
  fetchResponse <- await_fetch fetch (fst o) (snd o) ;;
  body <- await (json fetchResponse) ;;
  classify fetchResponse body.

End Rev_1_6_0.

(** ** The 1.3.0 revision of the file (the second part of
    [src/index.test.ts], from line 134 on)

    It has [NookipediaError400] (lines 166-171) and [case 400] (lines
    253-267) as the 1.6.0 revision has them. *)
Module Rev_1_3_0.

Definition NOOKIPEDIA_API_VERSION : string := "1.3.0".

Definition classify (r : Response) (body : value) : M value :=
  if ok r then ret body
  else if status_is r 400 then throw_new (new_NookipediaError400 body)
  else if status_is r 401 then throw_new (new_NookipediaError401 body)
  else if status_is r 404 then throw_new (new_NookipediaError404 body)
  else if status_is r 500 then throw_new (new_NookipediaError500 body)
  else throw_new (new_NookipediaError fallback_body (status r)).

Definition request (fetch : Transport) (args : Args) : M value :=
  o <- outbound NOOKIPEDIA_API_VERSION args ;;
  fetchResponse <- await_fetch fetch (fst o) (snd o) ;;
  body <- await (json fetchResponse) ;;
  classify fetchResponse body.

End Rev_1_3_0.

(** The world after the transport was called with [o]. *)
Definition called (w : World) (o : string * FetchInit) : World :=
  {| this := this w; calls := calls w ++ [(fst o, snd o)] |}.

(** The statuses with a class of their own, per revision. *)
Definition typed_statuses : list (Z * ErrorClass) :=
  [(401%Z, CNookipediaError401); (404%Z, CNookipediaError404);
   (500%Z, CNookipediaError500)].

Definition typed_statuses_1_6_0 : list (Z * ErrorClass) :=
  (400%Z, CNookipediaError400) :: typed_statuses.

Definition typed_statuses_1_3_0 : list (Z * ErrorClass) := typed_statuses_1_6_0.

(** ** The wrappers used below ([src/index.ts], lines 129-134 and 170-176) *)

(** What of [OmitOptions] and [Options] the engine reads. *)
Record Options : Type := mkOptions {
  opt_query : option (list (string * QueryValue));
  opt_fetchOptions : option RequestInit
}.

(** [this.request({ path: '/nh/bugs', ...options })] *)
Definition getAllBugs (fetch : Transport) (options : option Options) : M value :=
  request fetch
    {| path := "/nh/bugs";
       replacePath := None;
       query := match options with Some o => opt_query o | None => None end;
       fetchOptions :=
         match options with Some o => opt_fetchOptions o | None => None end |}.

(** [this.request({ path: '/nh/bugs/{bug}', replacePath: { bug }, ...options })] *)
Definition getBug (fetch : Transport) (bug : string) (options : option Options)
  : M value :=
  request fetch
    {| path := "/nh/bugs/{bug}";
       replacePath := Some [("bug", bug)];
       query := match options with Some o => opt_query o | None => None end;
       fetchOptions :=
         match options with Some o => opt_fetchOptions o | None => None end |}.

(** [fetchOptions?.headers], as the pairs the caller supplied. *)
Definition caller_headers (args : Args) : list (string * string) :=
  match fetchOptions args with
  | Some o => match init_headers o with Some pairs => pairs | None => [] end
  | None => []
  end.

(** The list of [url.searchParams] holds the pairs of [block] as
    neighbours, and the URL's query is the serialization of the list. *)
Definition holds_block (url : URLObject) (block : URLSearchParams.t) : Prop :=
  exists l1 l2,
    params url = Some (l1 ++ block ++ l2) /\
    URL.query (record url) = Some (URLSearchParams.serialize (l1 ++ block ++ l2)).

(** The code units the urlencoded serializer leaves as they are. *)
Definition url_safe (s : string) : bool :=
  JsString.forallb
    (fun c => (JsString.is_alnum c || PercentEncode.one_of "*-._" c)%bool) s.

(** [getAllRecipes({ query: { material: [a, b] } })] in the manner of the
    1.6.0 revision ([RecipeOptionOverride]), as a call of [request]. *)
Definition recipesByMaterial (a b : string) : Args :=
  {| path := "/nh/recipes"; replacePath := None;
     query := Some ([] ++ ("material", Many [SString a; SString b]) :: []);
     fetchOptions := None |}.

(** ** Fixtures in the style of [src/index.test.ts] *)

(** [jest.fn(() => Promise.resolve(response))] *)
Definition mockFetch (response : Response) : Transport :=
  fun _ _ => Fulfilled response.

(** A world with a client just constructed and no call made yet. *)
Definition fresh (apiKey : string) (apiUrl : option string) : World :=
  {| this := new_NookipediaApi apiKey apiUrl; calls := [] |}.

(** [nookipedia.getAllBugs()] as a call of [request]. *)
Definition allBugs : Args :=
  {| path := "/nh/bugs"; replacePath := None; query := None;
     fetchOptions := None |}.

Definition respond (ok : bool) (status : option Z) (json : settled value)
  : Response :=
  {| ok := ok; status := status; json := json |}.

(** [getAllBugs({ fetchOptions: { headers: new Headers({ Test: testValue }) } })],
    the call of the test 'properly merges headers'. *)
Definition allBugsWithTestHeader (testValue : string) : Args :=
  {| path := "/nh/bugs"; replacePath := None; query := None;
     fetchOptions := Some {| init_headers := Some [("Test", testValue)];
                             init_other := [] |} |}.

(** The default response of the test file's mock:
    [{ ok: true, json: () => Promise.resolve({}) }]. *)
Definition okEmpty : Response :=
  {| ok := true; status := None; json := Fulfilled (VObject []) |}.

(** [client.apiKey = key] *)
Definition assign_apiKey (key : string) (w : World) : World :=
  {| this := {| apiKey := key; apiUrl := apiUrl (this w) |}; calls := calls w |}.

Definition title_a : value := VObject [("title", VString "a")].

(** ** The other wrappers of [src/index.ts] (lines 136-280) *)

(** [options?.query] and [options?.fetchOptions] *)
Definition query_of (options : option Options)
  : option (list (string * QueryValue)) :=
  match options with Some o => opt_query o | None => None end.

Definition fetchOptions_of (options : option Options) : option RequestInit :=
  match options with Some o => opt_fetchOptions o | None => None end.

(** [{ ...q }]: spreading [undefined] gives no property. *)
Definition spread {A : Type} (q : option (list (string * A))) : list (string * A) :=
  match q with Some entries => entries | None => [] end.

(** [{ ...o, key: v }] on the entries of [o], for a key that is not an
    array index: the property keeps its place where [o] has it and comes
    last where it has not. *)
Fixpoint assign {A : Type} (o : list (string * A)) (key : string) (v : A)
  : list (string * A) :=
  match o with
  | [] => [(key, v)]
  | (k, x) :: rest =>
      if String.eqb k key then (k, v) :: rest else (k, x) :: assign rest key v
  end.

(** The four list wrappers of a resource, by its path: lines 129-168 for
    ['/nh/bugs'], 178-217 for ['/nh/fish'], 227-269 for ['/nh/sea']. *)
Definition list_all (path : string) (fetch : Transport)
    (options : option Options) : M value :=
  request fetch
    {| path := path; replacePath := None;
       query := query_of options;
       fetchOptions := fetchOptions_of options |}.

(** [query: { ...options?.query, month }] *)
Definition list_by_month (path : string) (fetch : Transport) (month : string)
    (options : option Options) : M value :=
  request fetch
    {| path := path; replacePath := None;
       query := Some (assign (spread (query_of options)) "month"
                             (One (SString month)));
       fetchOptions := fetchOptions_of options |}.

(** [query: { ...options?.query, excludedetails: 'true' }] *)
Definition list_names (path : string) (fetch : Transport)
    (options : option Options) : M value :=
  request fetch
    {| path := path; replacePath := None;
       query := Some (assign (spread (query_of options)) "excludedetails"
                             (One (SString "true")));
       fetchOptions := fetchOptions_of options |}.

(** [query: { ...options?.query, excludedetails: 'true', month }] *)
Definition list_names_by_month (path : string) (fetch : Transport)
    (month : string) (options : option Options) : M value :=
  request fetch
    {| path := path; replacePath := None;
       query := Some (assign (assign (spread (query_of options)) "excludedetails"
                                     (One (SString "true")))
                             "month" (One (SString month)));
       fetchOptions := fetchOptions_of options |}.

(** [this.request({ path, replacePath: { [key]: name }, ...options })],
    the shape of lines 170-176, 219-225 and 271-280. *)
Definition single (path key : string) (fetch : Transport) (name : string)
    (options : option Options) : M value :=
  request fetch
    {| path := path; replacePath := Some [(key, name)];
       query := query_of options;
       fetchOptions := fetchOptions_of options |}.

Definition getAllBugsByMonth := list_by_month "/nh/bugs".
Definition getAllBugNames := list_names "/nh/bugs".
Definition getAllBugNamesByMonth := list_names_by_month "/nh/bugs".

Definition getAllFish := list_all "/nh/fish".
Definition getAllFishByMonth := list_by_month "/nh/fish".
Definition getAllFishNames := list_names "/nh/fish".
Definition getAllFishNamesByMonth := list_names_by_month "/nh/fish".
Definition getFish := single "/nh/fish/{fish}" "fish".

Definition getAllSeaCreatures := list_all "/nh/sea".
Definition getAllSeaCreaturesByMonth := list_by_month "/nh/sea".
Definition getAllSeaCreatureNames := list_names "/nh/sea".
Definition getAllSeaCreatureNamesByMonth := list_names_by_month "/nh/sea".
Definition getSeaCreature := single "/nh/sea/{sea_creature}" "sea_creature".

(** ** The first revision of the file ([src/unnamed/part_001], lines 1-111)

    Its [request] builds the same outbound request and ends in
    [return fetchResponse.json()]: it has no error classes. *)
Module Rev_initial.

Definition NOOKIPEDIA_API_VERSION : string := "1.0.0".

Definition request (fetch : Transport) (args : Args) : M value :=
  o <- outbound NOOKIPEDIA_API_VERSION args ;;
  fetchResponse <- await_fetch fetch (fst o) (snd o) ;;
  await (json fetchResponse).

End Rev_initial.

(** ** Notions used in the further properties *)

(** The URL object [request] holds when it calls the transport: lines
    80-102. *)
Definition built_url (args : Args) (w : World) : completion URLObject :=
  cbind (new_URL (resolve_path (path args) (replacePath args)) (apiUrl (this w)))
        (fun url => encode_query url (query args)).

(** [new URL(url).searchParams.getAll(name)] is the one value [value]:
    the string [url] parses, and the pairs decoded from the query of the
    parsed URL hold exactly one pair named [name], with value [value]. *)
Definition sends_single (url name value : string) : Prop :=
  exists (u : URL.t) (l : URLSearchParams.t),
    URL.parse url None = Normal u /\
    URL.searchParams u = Some l /\
    filter (URLSearchParams.has_name name) l = [(name, value)].

(** The URL records the parser gives and the serializer reads back: a
    special scheme other than [file], a host the host parser leaves as it
    is, a port that is not the default one of the scheme, a path of at
    least one segment, none of which is a dot segment, and nothing left
    to percent-encode in the path, the query and the fragment. *)
Definition canonical_host (h : string) : bool :=
  match URL.host_parse h with
  | Normal h' => (String.eqb h' h && negb (String.eqb h EmptyString))%bool
  | _ => false
  end.

Definition canonical_port (scheme : string) (port : option N) : bool :=
  match port with
  | Some p =>
      (N.leb p 65535
       && negb match URL.default_port scheme with
               | Some d => N.eqb d p
               | None => false
               end)%bool
  | None => true
  end.

Definition path_unit (c : ascii) : bool :=
  negb (URL.is_slash c || PercentEncode.path_set c)%bool.
Definition query_unit (c : ascii) : bool := negb (PercentEncode.special_query_set c).
Definition fragment_unit (c : ascii) : bool := negb (PercentEncode.fragment_set c).

Definition canonical_segment (s : string) : bool :=
  (JsString.forallb path_unit s
   && negb (URL.is_single_dot s || URL.is_double_dot s))%bool.

Definition canonical (u : URL.t) : bool :=
  (URL.is_special (URL.scheme u) && negb (String.eqb (URL.scheme u) "file")
   && canonical_host (URL.host u)
   && canonical_port (URL.scheme u) (URL.port u)
   && match URL.path u with [] => false | _ => true end
   && forallb canonical_segment (URL.path u)
   && match URL.query u with
      | Some q => JsString.forallb query_unit q
      | None => true
      end
   && match URL.fragment u with
      | Some f => JsString.forallb fragment_unit f
      | None => true
      end)%bool.

(** A code unit that the parser's clean-up of its input leaves alone. *)
Definition visible (c : ascii) : bool := negb (URL.is_c0_or_space c).

(** What the path state makes of a segment. *)
Definition encode_segment (s : string) : string :=
  JsString.flat_map (PercentEncode.utf8_percent_encode PercentEncode.path_set) s.

(** A code unit that neither ends a path segment, nor is removed by the
    URL parser, nor is special to the path resolver; [^], on whose
    encoding in a path the platforms differ, is left out as well. *)
Definition segment_char (c : ascii) : bool :=
  negb (URL.is_slash c || PercentEncode.one_of "?#{}$^" c
        || URL.is_tab_or_newline c)%bool.

(** The last code unit, if there is one, is above the space. *)
Fixpoint ends_visible (s : string) : bool :=
  match s with
  | EmptyString => true
  | String c r =>
      match r with
      | EmptyString => negb (URL.is_c0_or_space c)
      | _ => ends_visible r
      end
  end.

(** A value that goes into the path as one segment of its own. *)
Definition path_segment (value : string) : bool :=
  (JsString.forallb segment_char value && ends_visible value
   && negb (URL.is_single_dot (encode_segment value)
            || URL.is_double_dot (encode_segment value)))%bool.

(** The entry contributes nothing: its value is the empty list. *)
Definition is_empty_list (entry : string * QueryValue) : bool :=
  match snd entry with
  | Many [] => true
  | _ => false
  end.

(** The class [request] of [src/index.ts] picks for a response that is
    not ok. *)
Definition class_of (r : Response) : ErrorClass :=
  if status_is r 401 then CNookipediaError401
  else if status_is r 404 then CNookipediaError404
  else if status_is r 500 then CNookipediaError500
  else CNookipediaError.

(** A completion that throws throws a [TypeError]. *)
Definition only_TypeError {A : Type} (c : completion A) : Prop :=
  forall e, c = Throw e -> e = TypeError.

Create HintDb type_error.

Ltac type_error :=
  repeat match goal with
         | |- only_TypeError (if ?c then _ else _) => destruct c
         | |- only_TypeError (let (_, _) := ?p in _) => destruct p
         | |- only_TypeError (match ?x with _ => _ end) => destruct x
         end;
  auto with type_error.

Ltac by_units impl facts H :=
  let c := fresh "c" in
  let Hc := fresh "Hc" in
  refine (impl _ _ _ _ H); intros c Hc;
  decompose [and] (facts c Hc);
  repeat match goal with E : _ = _ |- _ => rewrite E end; reflexivity.

Ltac run_step :=
  match goal with
  | |- context [match ?c with Normal _ => _ | Throw _ => _ | OutsideModel => _ end] =>
      destruct c eqn:?; simpl
  | |- context [let (_, _) := ?p in _] => destruct p eqn:?; simpl
  end.

(* ================================================================== *)
(** * Part II: properties *)
(* ================================================================== *)

(** ** The tests of [src/index.test.ts], run on the embedding *)

(** 'adds API key header' and 'adds version header' *)
Example test_adds_headers :
  calls (snd (getAllBugs (mockFetch okEmpty) None (fresh "apiKey" None)))
  = [("https://api.nookipedia.com/nh/bugs",
      {| headers := [("Accept-Version", NOOKIPEDIA_API_VERSION);
                     ("X-API-KEY", "apiKey")];
         other := [] |})].
Proof. reflexivity. Qed.

(** 'properly merges headers' and 'passes other fetch options' *)
Example test_merges_headers_and_options :
  calls (snd (getAllBugs (mockFetch okEmpty)
                (Some {| opt_query := None;
                         opt_fetchOptions :=
                           Some {| init_headers := Some [("Test", "testValue")];
                                   init_other := [("method", VString "POST")] |} |})
                (fresh "apiKey" None)))
  = [("https://api.nookipedia.com/nh/bugs",
      {| headers := [("Test", "testValue"); ("Accept-Version", "1.0.0");
                     ("X-API-KEY", "apiKey")];
         other := [("method", VString "POST")] |})].
Proof. reflexivity. Qed.

(** 'properly builds search params' *)
Example test_builds_search_params :
  map fst
    (calls (snd (getAllBugs (mockFetch okEmpty)
                   (Some {| opt_query :=
                              Some [("month", One (SString "jan"));
                                    ("excludedetails", One (SString "true"));
                                    ("thumbsize", One (SNumber 20))];
                            opt_fetchOptions := None |})
                   (fresh "" None))))
  = ["https://api.nookipedia.com/nh/bugs?month=jan&excludedetails=true&thumbsize=20"].
Proof. reflexivity. Qed.

(** 'url is valid with or without trailing slash' *)
Example test_trailing_slash :
  map fst (calls (snd (getAllBugs (mockFetch okEmpty) None
                         (fresh "" (Some "https://api.nookipedia.com")))))
  = map fst (calls (snd (getAllBugs (mockFetch okEmpty) None
                           (fresh "" (Some "https://api.nookipedia.com/"))))).
Proof. reflexivity. Qed.

(** 'properly replaces path' *)
Example test_replaces_path :
  map fst (calls (snd (getBug (mockFetch okEmpty) "coolBug" None (fresh "" None))))
  = ["https://api.nookipedia.com/nh/bugs/coolBug"].
Proof. reflexivity. Qed.

(** 'throws NookipediaError when response is not ok' *)
Example test_throws_generic :
  fst (getAllBugs (mockFetch (respond false None (Fulfilled (VObject []))))
                  None (fresh "" None))
  = Throw (Raised {| class := CNookipediaError;
                     message := "Failed to fetch Nookipedia API";
                     body := fallback_body;
                     code := None |}).
Proof. reflexivity. Qed.

(** 'throws specific NookipediaError when status is supported' *)
Example test_throws_specific :
  fst (getAllBugs (mockFetch (respond false (Some 401%Z) (Fulfilled (VObject []))))
                  None (fresh "" None))
  = Throw (Raised {| class := CNookipediaError401;
                     message := EmptyString;
                     body := VObject [];
                     code := Some 401%Z |}).
Proof. reflexivity. Qed.

(** ** The platform model on sample values *)

(** [String(x)] and [x.toString()] as a JavaScript console shows them. *)
Example test_ToString :
  ToString (VNumber 5) = Normal "5" /\
  ToString (VNumber (-12)) = Normal "-12" /\
  ToString (VNumber (Finite true 0 0)) = Normal "0" /\
  ToString (VNumber (Finite false 6 (-1))) = Normal "3" /\
  ToString (VNumber NaN) = Normal "NaN" /\
  ToString (VNumber (Infinity true)) = Normal "-Infinity" /\
  ToString VNull = Normal "null" /\
  ToString (VBool true) = Normal "true" /\
  ToString (VArray [VNumber 1; VNull; VString "a"; VArray [VBool false]])
  = Normal "1,,a,false" /\
  ToString (VObject [("title", VString "a")]) = Normal "[object Object]" /\
  ToString (VObject [("toString", VNumber 1)]) = Throw TypeError /\
  toString (SNumber 9007199254740991) = Normal "9007199254740991" /\
  toString (SNumber 0) = Normal "0".
Proof. repeat split; reflexivity. Qed.

(** [new Error(title).message] *)
Example test_Error_message :
  Error_message (VNumber 5) = Normal "5" /\
  Error_message VNull = Normal "null" /\
  Error_message VUndefined = Normal EmptyString /\
  Error_message (VString "title") = Normal "title".
Proof. repeat split; reflexivity. Qed.

(** What the URL parser encodes in a path, and what it leaves. *)
Example test_path_encoding :
  map fst (calls (snd (getBug (mockFetch okEmpty) "a^b c" None (fresh "" None))))
  = ["https://api.nookipedia.com/nh/bugs/a^b%20c"].
Proof. reflexivity. Qed.

(** ** Running the engine *)

(** Nothing before the transport call writes to the world. *)
Lemma outbound_world (version : string) (args : Args) (w : World) :
  snd (outbound version args w) = w.
Proof.
  unfold outbound, bind, lift, ret, this_apiUrl, this_apiKey; simpl.
  repeat run_step; reflexivity.
Qed.

Lemma outbound_eta (version : string) (args : Args) (w : World) :
  outbound version args w = (fst (outbound version args w), w).
Proof.
  rewrite <- (outbound_world version args w) at 3.
  destruct (outbound version args w); reflexivity.
Qed.

Lemma request_unfold (fetch : Transport) (args : Args) (w : World) :
  request fetch args w =
  match fst (outbound NOOKIPEDIA_API_VERSION args w) with
  | Normal o =>
      match fetch (fst o) (snd o) with
      | Fulfilled r =>
          match json r with
          | Fulfilled body => classify r body (called w o)
          | Rejected e => (Throw (External e), called w o)
          end
      | Rejected e => (Throw (External e), called w o)
      end
  | Throw e => (Throw e, w)
  | OutsideModel => (OutsideModel, w)
  end.
Proof.
  unfold request, bind at 1.
  rewrite (outbound_eta NOOKIPEDIA_API_VERSION args w); simpl.
  destruct (fst (outbound NOOKIPEDIA_API_VERSION args w)) as [o | e |]; try reflexivity.
  unfold bind, await_fetch, called; simpl.
  destruct (fetch (fst o) (snd o)) as [r | e]; simpl; try reflexivity.
  destruct (json r); reflexivity.
Qed.

Lemma request_1_6_0_unfold (fetch : Transport) (args : Args) (w : World) :
  Rev_1_6_0.request fetch args w =
  match fst (outbound Rev_1_6_0.NOOKIPEDIA_API_VERSION args w) with
  | Normal o =>
      match fetch (fst o) (snd o) with
      | Fulfilled r =>
          match json r with
          | Fulfilled body => Rev_1_6_0.classify r body (called w o)
          | Rejected e => (Throw (External e), called w o)
          end
      | Rejected e => (Throw (External e), called w o)
      end
  | Throw e => (Throw e, w)
  | OutsideModel => (OutsideModel, w)
  end.
Proof.
  unfold Rev_1_6_0.request, bind at 1.
  rewrite (outbound_eta Rev_1_6_0.NOOKIPEDIA_API_VERSION args w); simpl.
  destruct (fst (outbound Rev_1_6_0.NOOKIPEDIA_API_VERSION args w)) as [o | e |];
    try reflexivity.
  unfold bind, await_fetch, called; simpl.
  destruct (fetch (fst o) (snd o)) as [r | e]; simpl; try reflexivity.
  destruct (json r); reflexivity.
Qed.

Lemma request_1_3_0_unfold (fetch : Transport) (args : Args) (w : World) :
  Rev_1_3_0.request fetch args w =
  match fst (outbound Rev_1_3_0.NOOKIPEDIA_API_VERSION args w) with
  | Normal o =>
      match fetch (fst o) (snd o) with
      | Fulfilled r =>
          match json r with
          | Fulfilled body => Rev_1_3_0.classify r body (called w o)
          | Rejected e => (Throw (External e), called w o)
          end
      | Rejected e => (Throw (External e), called w o)
      end
  | Throw e => (Throw e, w)
  | OutsideModel => (OutsideModel, w)
  end.
Proof.
  unfold Rev_1_3_0.request, bind at 1.
  rewrite (outbound_eta Rev_1_3_0.NOOKIPEDIA_API_VERSION args w); simpl.
  destruct (fst (outbound Rev_1_3_0.NOOKIPEDIA_API_VERSION args w)) as [o | e |];
    try reflexivity.
  unfold bind, await_fetch, called; simpl.
  destruct (fetch (fst o) (snd o)) as [r | e]; simpl; try reflexivity.
  destruct (json r); reflexivity.
Qed.

Lemma throw_new_world {A : Type} (e : completion NookipediaError) (w : World) :
  snd (@throw_new A e w) = w.
Proof. unfold throw_new, bind, lift, throw. destruct e; reflexivity. Qed.

Lemma classify_world (r : Response) (body : value) (w : World) :
  snd (classify r body w) = w.
Proof.
  unfold classify.
  repeat match goal with |- context [if ?b then _ else _] => destruct b end;
    auto using throw_new_world.
Qed.

Lemma classify_1_6_0_world (r : Response) (body : value) (w : World) :
  snd (Rev_1_6_0.classify r body w) = w.
Proof.
  unfold Rev_1_6_0.classify.
  repeat match goal with |- context [if ?b then _ else _] => destruct b end;
    auto using throw_new_world.
Qed.

(** Constructing a subclass succeeds on a body whose [title] can be read
    and made the message of an [Error], and then sets the fixed code. *)
Lemma new_subclass_ok (cls : ErrorClass) (fixed : Z) (b : ErrorBody)
    (title : value) (m : string) :
  get_title b = Normal title ->
  Error_message title = Normal m ->
  new_subclass cls fixed b =
    Normal {| class := cls; message := m; body := b; code := Some fixed |}.
Proof.
  intros Ht Hm. unfold new_subclass, new_NookipediaError.
  rewrite Ht. simpl. rewrite Hm. reflexivity.
Qed.

Lemma throw_new_subclass (cls : ErrorClass) (fixed : Z) (b : ErrorBody)
    (title : value) (m : string) (w : World) :
  get_title b = Normal title ->
  Error_message title = Normal m ->
  fst (@throw_new value (new_subclass cls fixed b) w)
  = Throw (Raised {| class := cls; message := m; body := b; code := Some fixed |}).
Proof.
  intros Ht Hm.
  unfold throw_new, bind, lift, throw.
  rewrite (new_subclass_ok cls fixed b title m Ht Hm). reflexivity.
Qed.

Lemma status_is_eq (r : Response) (n : Z) :
  status_is r n = true <-> status r = Some n.
Proof.
  unfold status_is. destruct (status r) as [s |].
  - rewrite Z.eqb_eq. split; congruence.
  - split; discriminate.
Qed.

Lemma status_is_neq (r : Response) (n : Z) :
  status r <> Some n -> status_is r n = false.
Proof.
  intro H. destruct (status_is r n) eqn:E; auto.
  apply status_is_eq in E. contradiction.
Qed.

(** ** Outcome classification *)

(** C3, amended. Whenever the transport answers a call of [request] with
    a response whose [ok] is true and whose body decodes, the call
    resolves to the value [json()] decoded, as it is, and throws
    nothing. *)
Theorem request_ok_returns_body :
  forall (fetch : Transport) (args : Args) (w : World)
         (url : string) (init : FetchInit) (r : Response) (b : value),
    fst (outbound NOOKIPEDIA_API_VERSION args w) = Normal (url, init) ->
    fetch url init = Fulfilled r ->
    ok r = true ->
    json r = Fulfilled b ->
    fst (request fetch args w) = Normal b.
Proof.
  intros fetch args w url init r b Hout Hfetch Hok Hjson.
  rewrite request_unfold, Hout. simpl. rewrite Hfetch, Hjson.
  unfold classify. rewrite Hok. reflexivity.
Qed.

Lemma request_ok_returns_body_witness :
  fst (request (mockFetch (respond true None
                             (Fulfilled (VObject [("foo", VNumber 1)]))))
               allBugs (fresh "apiKey" None))
  = Normal (VObject [("foo", VNumber 1)]).
Proof.
  apply (request_ok_returns_body
           (mockFetch (respond true None (Fulfilled (VObject [("foo", VNumber 1)]))))
           allBugs (fresh "apiKey" None)
           "https://api.nookipedia.com/nh/bugs"
           {| headers := [("Accept-Version", "1.0.0"); ("X-API-KEY", "apiKey")];
              other := [] |}
           (respond true None (Fulfilled (VObject [("foo", VNumber 1)]))));
    reflexivity.
Defined.

(** C3 as stated fails on a response whose body does not decode: with
    [ok] true and [json()] rejecting, the call rejects with the decoder's
    reason and resolves to nothing. *)
Lemma request_ok_returns_body_counterexample :
  ok (respond true (Some 200%Z) (Rejected (VString "SyntaxError"))) = true
  /\
  fst (request (mockFetch (respond true (Some 200%Z)
                             (Rejected (VString "SyntaxError"))))
               allBugs (fresh "apiKey" None))
  = Throw (External (VString "SyntaxError"))
  /\
  ~ (exists v,
       fst (request (mockFetch (respond true (Some 200%Z)
                                  (Rejected (VString "SyntaxError"))))
                    allBugs (fresh "apiKey" None))
       = Normal v).
Proof.
  split; [reflexivity |].
  split; [reflexivity | intros [v H]; discriminate H].
Qed.

(** C10. The body is decoded before [ok] and [status] are looked at: when
    [json()] rejects, the call rejects with that very reason, whatever the
    status, and with no [NookipediaError]. *)
Theorem request_json_failure_propagates :
  forall (fetch : Transport) (args : Args) (w : World)
         (url : string) (init : FetchInit) (r : Response) (reason : value),
    fst (outbound NOOKIPEDIA_API_VERSION args w) = Normal (url, init) ->
    fetch url init = Fulfilled r ->
    json r = Rejected reason ->
    fst (request fetch args w) = Throw (External reason) /\
    forall e : NookipediaError, fst (request fetch args w) <> Throw (Raised e).
Proof.
  intros fetch args w url init r reason Hout Hfetch Hjson.
  rewrite request_unfold, Hout. simpl. rewrite Hfetch, Hjson. simpl.
  split; [reflexivity | discriminate].
Qed.

Lemma request_json_failure_propagates_witness :
  fst (request (mockFetch (respond false (Some 401%Z)
                             (Rejected (VString "SyntaxError"))))
               allBugs (fresh "apiKey" None))
  = Throw (External (VString "SyntaxError")).
Proof.
  apply (request_json_failure_propagates
           (mockFetch (respond false (Some 401%Z) (Rejected (VString "SyntaxError"))))
           allBugs (fresh "apiKey" None)
           "https://api.nookipedia.com/nh/bugs"
           {| headers := [("Accept-Version", "1.0.0"); ("X-API-KEY", "apiKey")];
              other := [] |}
           (respond false (Some 401%Z) (Rejected (VString "SyntaxError"))));
    reflexivity.
Defined.

Lemma classify_typed (r : Response) (b title : value) (m : string) (w : World)
    (n : Z) (cls : ErrorClass) :
  ok r = false ->
  get_title b = Normal title -> Error_message title = Normal m ->
  status r = Some n -> In (n, cls) typed_statuses ->
  fst (classify r b w)
  = Throw (Raised {| class := cls; message := m; body := b; code := Some n |}).
Proof.
  intros Hok Ht Hm Hs Hin. unfold classify. rewrite Hok.
  unfold status_is. rewrite Hs.
  simpl in Hin.
  destruct Hin as [H | [H | [H | []]]]; inversion H; subst; simpl;
    now apply throw_new_subclass with (title := title).
Qed.

Lemma classify_1_6_0_typed (r : Response) (b title : value) (m : string)
    (w : World) (n : Z) (cls : ErrorClass) :
  ok r = false ->
  get_title b = Normal title -> Error_message title = Normal m ->
  status r = Some n -> In (n, cls) typed_statuses_1_6_0 ->
  fst (Rev_1_6_0.classify r b w)
  = Throw (Raised {| class := cls; message := m; body := b; code := Some n |}).
Proof.
  intros Hok Ht Hm Hs Hin. unfold Rev_1_6_0.classify. rewrite Hok.
  unfold status_is. rewrite Hs.
  simpl in Hin.
  destruct Hin as [H | [H | [H | [H | []]]]]; inversion H; subst; simpl;
    now apply throw_new_subclass with (title := title).
Qed.

Lemma classify_1_3_0_typed (r : Response) (b title : value) (m : string)
    (w : World) (n : Z) (cls : ErrorClass) :
  ok r = false ->
  get_title b = Normal title -> Error_message title = Normal m ->
  status r = Some n -> In (n, cls) typed_statuses_1_3_0 ->
  fst (Rev_1_3_0.classify r b w)
  = Throw (Raised {| class := cls; message := m; body := b; code := Some n |}).
Proof.
  intros Hok Ht Hm Hs Hin. unfold Rev_1_3_0.classify. rewrite Hok.
  unfold status_is. rewrite Hs.
  simpl in Hin.
  destruct Hin as [H | [H | [H | [H | []]]]]; inversion H; subst; simpl;
    now apply throw_new_subclass with (title := title).
Qed.

(** C1, amended. When the transport answers with a response that is not
    ok, whose status is 401, 404 or 500, and whose body decodes to a value
    whose [title] can be read (the body is neither [null] nor [undefined])
    and made the message of an error (the title is [undefined] or converts
    to a string), the call rejects with the error class of that status,
    carrying the decoded body as it is, the fixed code, and the title as
    message.  Status 400 is treated so in the 1.3.0 and 1.6.0 revisions,
    which declare [NookipediaError400]; in [src/index.ts] it is not among
    the typed statuses. *)
Theorem request_typed_error :
  (forall (fetch : Transport) (args : Args) (w : World)
          (url : string) (init : FetchInit) (r : Response) (b title : value)
          (m : string) (n : Z) (cls : ErrorClass),
      fst (outbound NOOKIPEDIA_API_VERSION args w) = Normal (url, init) ->
      fetch url init = Fulfilled r ->
      ok r = false ->
      json r = Fulfilled b ->
      get_title b = Normal title ->
      Error_message title = Normal m ->
      status r = Some n ->
      In (n, cls) typed_statuses ->
      fst (request fetch args w)
      = Throw (Raised {| class := cls; message := m; body := b; code := Some n |}))
  /\
  (forall (fetch : Transport) (args : Args) (w : World)
          (url : string) (init : FetchInit) (r : Response) (b title : value)
          (m : string) (n : Z) (cls : ErrorClass),
      fst (outbound Rev_1_3_0.NOOKIPEDIA_API_VERSION args w) = Normal (url, init) ->
      fetch url init = Fulfilled r ->
      ok r = false ->
      json r = Fulfilled b ->
      get_title b = Normal title ->
      Error_message title = Normal m ->
      status r = Some n ->
      In (n, cls) typed_statuses_1_3_0 ->
      fst (Rev_1_3_0.request fetch args w)
      = Throw (Raised {| class := cls; message := m; body := b; code := Some n |}))
  /\
  (forall (fetch : Transport) (args : Args) (w : World)
          (url : string) (init : FetchInit) (r : Response) (b title : value)
          (m : string) (n : Z) (cls : ErrorClass),
      fst (outbound Rev_1_6_0.NOOKIPEDIA_API_VERSION args w) = Normal (url, init) ->
      fetch url init = Fulfilled r ->
      ok r = false ->
      json r = Fulfilled b ->
      get_title b = Normal title ->
      Error_message title = Normal m ->
      status r = Some n ->
      In (n, cls) typed_statuses_1_6_0 ->
      fst (Rev_1_6_0.request fetch args w)
      = Throw (Raised {| class := cls; message := m; body := b; code := Some n |}))
  /\
  (forall (props : list (string * value)) (s : string),
      lookup "title" props = Some (VString s) ->
      get_title (VObject props) = Normal (VString s) /\
      Error_message (VString s) = Normal s)
  /\
  (forall props : list (string * value),
      lookup "title" props = None ->
      get_title (VObject props) = Normal VUndefined /\
      Error_message VUndefined = Normal EmptyString).
Proof.
  split; [| split; [| split; [| split]]].
  - intros fetch args w url init r b title m n cls
           Hout Hfetch Hok Hjson Ht Hm Hs Hin.
    rewrite request_unfold, Hout. simpl. rewrite Hfetch, Hjson.
    now apply classify_typed with (title := title).
  - intros fetch args w url init r b title m n cls
           Hout Hfetch Hok Hjson Ht Hm Hs Hin.
    rewrite request_1_3_0_unfold, Hout. simpl. rewrite Hfetch, Hjson.
    now apply classify_1_3_0_typed with (title := title).
  - intros fetch args w url init r b title m n cls
           Hout Hfetch Hok Hjson Ht Hm Hs Hin.
    rewrite request_1_6_0_unfold, Hout. simpl. rewrite Hfetch, Hjson.
    now apply classify_1_6_0_typed with (title := title).
  - intros props s H. unfold get_title. rewrite H. split; reflexivity.
  - intros props H. unfold get_title. rewrite H. split; reflexivity.
Qed.

Lemma request_typed_error_witness :
  fst (request (mockFetch (respond false (Some 401%Z) (Fulfilled title_a)))
               allBugs (fresh "apiKey" None))
  = Throw (Raised {| class := CNookipediaError401; message := "a";
                     body := title_a; code := Some 401%Z |})
  /\
  fst (Rev_1_3_0.request (mockFetch (respond false (Some 400%Z) (Fulfilled title_a)))
                         allBugs (fresh "apiKey" None))
  = Throw (Raised {| class := CNookipediaError400; message := "a";
                     body := title_a; code := Some 400%Z |})
  /\
  fst (Rev_1_6_0.request (mockFetch (respond false (Some 400%Z) (Fulfilled title_a)))
                         allBugs (fresh "apiKey" None))
  = Throw (Raised {| class := CNookipediaError400; message := "a";
                     body := title_a; code := Some 400%Z |}).
Proof.
  split; [| split].
  - apply (proj1 request_typed_error
             (mockFetch (respond false (Some 401%Z) (Fulfilled title_a)))
             allBugs (fresh "apiKey" None)
             "https://api.nookipedia.com/nh/bugs"
             {| headers := [("Accept-Version", "1.0.0"); ("X-API-KEY", "apiKey")];
                other := [] |}
             (respond false (Some 401%Z) (Fulfilled title_a)) title_a
             (VString "a") "a" 401%Z CNookipediaError401);
      try reflexivity.
    simpl. auto.
  - apply (proj1 (proj2 request_typed_error)
             (mockFetch (respond false (Some 400%Z) (Fulfilled title_a)))
             allBugs (fresh "apiKey" None)
             "https://api.nookipedia.com/nh/bugs"
             {| headers := [("Accept-Version", "1.3.0"); ("X-API-KEY", "apiKey")];
                other := [] |}
             (respond false (Some 400%Z) (Fulfilled title_a)) title_a
             (VString "a") "a" 400%Z CNookipediaError400);
      try reflexivity.
    simpl. auto.
  - apply (proj1 (proj2 (proj2 request_typed_error))
             (mockFetch (respond false (Some 400%Z) (Fulfilled title_a)))
             allBugs (fresh "apiKey" None)
             "https://api.nookipedia.com/nh/bugs"
             {| headers := [("Accept-Version", "1.6.0"); ("X-API-KEY", "apiKey")];
                other := [] |}
             (respond false (Some 400%Z) (Fulfilled title_a)) title_a
             (VString "a") "a" 400%Z CNookipediaError400);
      try reflexivity.
    simpl. auto.
Defined.

(** C1 as stated fails three times.  In [src/index.ts] a response with
    status 400 is rejected with the generic [NookipediaError], not with a
    class of its own.  In every revision a body that decodes to [null]
    makes the constructor's [body.title] throw a [TypeError]; and so does,
    in [Error], a title that cannot be converted to a string, as the
    object [{toString: 1}]: no typed error is raised then. *)
Lemma request_typed_error_counterexample :
  fst (request (mockFetch (respond false (Some 400%Z) (Fulfilled title_a)))
               allBugs (fresh "apiKey" None))
  = Throw (Raised {| class := CNookipediaError;
                     message := "Failed to fetch Nookipedia API";
                     body := fallback_body;
                     code := Some 400%Z |})
  /\
  fst (Rev_1_6_0.request (mockFetch (respond false (Some 401%Z) (Fulfilled VNull)))
                         allBugs (fresh "apiKey" None))
  = Throw TypeError
  /\
  fst (request (mockFetch (respond false (Some 401%Z) (Fulfilled VNull)))
               allBugs (fresh "apiKey" None))
  = Throw TypeError
  /\
  fst (request (mockFetch
                  (respond false (Some 401%Z)
                     (Fulfilled (VObject [("title",
                                           VObject [("toString", VNumber 1)])]))))
               allBugs (fresh "apiKey" None))
  = Throw TypeError.
Proof. repeat split; reflexivity. Qed.

Lemma classify_generic (r : Response) (b : value) (w : World) :
  ok r = false ->
  status r <> Some 401%Z -> status r <> Some 404%Z -> status r <> Some 500%Z ->
  fst (classify r b w)
  = Throw (Raised {| class := CNookipediaError;
                     message := "Failed to fetch Nookipedia API";
                     body := fallback_body;
                     code := status r |}).
Proof.
  intros Hok H1 H2 H3. unfold classify.
  rewrite Hok, !status_is_neq by assumption. reflexivity.
Qed.

Lemma classify_1_6_0_generic (r : Response) (b : value) (w : World) :
  ok r = false ->
  status r <> Some 400%Z ->
  status r <> Some 401%Z -> status r <> Some 404%Z -> status r <> Some 500%Z ->
  fst (Rev_1_6_0.classify r b w)
  = Throw (Raised {| class := CNookipediaError;
                     message := "Failed to fetch Nookipedia API";
                     body := fallback_body;
                     code := status r |}).
Proof.
  intros Hok H0 H1 H2 H3. unfold Rev_1_6_0.classify.
  rewrite Hok, !status_is_neq by assumption. reflexivity.
Qed.

(** C2, amended. When the transport answers with a response that is not
    ok, whose body decodes as JSON and whose status is none of the typed
    ones of the revision, the call rejects with the generic
    [NookipediaError]: its body is the fallback title and its code is the
    status the transport reported, [undefined] included. *)
Theorem request_generic_error :
  (forall (fetch : Transport) (args : Args) (w : World)
          (url : string) (init : FetchInit) (r : Response) (b : value),
      fst (outbound NOOKIPEDIA_API_VERSION args w) = Normal (url, init) ->
      fetch url init = Fulfilled r ->
      ok r = false ->
      json r = Fulfilled b ->
      status r <> Some 401%Z -> status r <> Some 404%Z -> status r <> Some 500%Z ->
      fst (request fetch args w)
      = Throw (Raised {| class := CNookipediaError;
                         message := "Failed to fetch Nookipedia API";
                         body := fallback_body;
                         code := status r |}))
  /\
  (forall (fetch : Transport) (args : Args) (w : World)
          (url : string) (init : FetchInit) (r : Response) (b : value),
      fst (outbound Rev_1_6_0.NOOKIPEDIA_API_VERSION args w) = Normal (url, init) ->
      fetch url init = Fulfilled r ->
      ok r = false ->
      json r = Fulfilled b ->
      status r <> Some 400%Z ->
      status r <> Some 401%Z -> status r <> Some 404%Z -> status r <> Some 500%Z ->
      fst (Rev_1_6_0.request fetch args w)
      = Throw (Raised {| class := CNookipediaError;
                         message := "Failed to fetch Nookipedia API";
                         body := fallback_body;
                         code := status r |})).
Proof.
  split.
  - intros fetch args w url init r b Hout Hfetch Hok Hjson H1 H2 H3.
    rewrite request_unfold, Hout. simpl. rewrite Hfetch, Hjson.
    now apply classify_generic.
  - intros fetch args w url init r b Hout Hfetch Hok Hjson H0 H1 H2 H3.
    rewrite request_1_6_0_unfold, Hout. simpl. rewrite Hfetch, Hjson.
    now apply classify_1_6_0_generic.
Qed.

Lemma request_generic_error_witness :
  fst (request (mockFetch (respond false (Some 999%Z) (Fulfilled (VObject []))))
               allBugs (fresh "apiKey" None))
  = Throw (Raised {| class := CNookipediaError;
                     message := "Failed to fetch Nookipedia API";
                     body := fallback_body;
                     code := Some 999%Z |})
  /\
  fst (Rev_1_6_0.request (mockFetch (respond false None (Fulfilled (VObject []))))
                         allBugs (fresh "apiKey" None))
  = Throw (Raised {| class := CNookipediaError;
                     message := "Failed to fetch Nookipedia API";
                     body := fallback_body;
                     code := None |}).
Proof.
  split.
  - apply (proj1 request_generic_error
             (mockFetch (respond false (Some 999%Z) (Fulfilled (VObject []))))
             allBugs (fresh "apiKey" None)
             "https://api.nookipedia.com/nh/bugs"
             {| headers := [("Accept-Version", "1.0.0"); ("X-API-KEY", "apiKey")];
                other := [] |}
             (respond false (Some 999%Z) (Fulfilled (VObject []))) (VObject []));
      try reflexivity; simpl; discriminate.
  - apply (proj2 request_generic_error
             (mockFetch (respond false None (Fulfilled (VObject []))))
             allBugs (fresh "apiKey" None)
             "https://api.nookipedia.com/nh/bugs"
             {| headers := [("Accept-Version", "1.6.0"); ("X-API-KEY", "apiKey")];
                other := [] |}
             (respond false None (Fulfilled (VObject []))) (VObject []));
      try reflexivity; simpl; discriminate.
Defined.

(** C2 as stated fails on a response whose body does not decode: with
    status 999 and [json()] rejecting, the call rejects with the decoder's
    reason and not with the generic [NookipediaError]. *)
Lemma request_generic_error_counterexample :
  fst (request (mockFetch (respond false (Some 999%Z)
                             (Rejected (VString "SyntaxError"))))
               allBugs (fresh "apiKey" None))
  = Throw (External (VString "SyntaxError"))
  /\
  ~ (exists e,
       fst (request (mockFetch (respond false (Some 999%Z)
                                  (Rejected (VString "SyntaxError"))))
                    allBugs (fresh "apiKey" None))
       = Throw (Raised e)).
Proof.
  split; [reflexivity | intros [e H]; discriminate H].
Qed.

(** ** The error hierarchy *)

(** The code a class fixes; the generic class fixes none. *)
Lemma new_subclass_code (cls : ErrorClass) (fixed : Z) (b : ErrorBody)
    (e : NookipediaError) :
  new_subclass cls fixed b = Normal e -> class e = cls /\ code e = Some fixed.
Proof.
  unfold new_subclass, cbind.
  destruct (new_NookipediaError b None); intro H; inversion H; subst.
  split; reflexivity.
Qed.

Lemma new_NookipediaError_code (b : ErrorBody) (c : option Z) (e : NookipediaError) :
  new_NookipediaError b c = Normal e -> class e = CNookipediaError /\ code e = c.
Proof.
  unfold new_NookipediaError, cbind.
  destruct (get_title b) as [title | |]; try discriminate.
  destruct (Error_message title); intro H; inversion H; subst.
  split; reflexivity.
Qed.

(** C8. A constructed [NookipediaError401], [NookipediaError404] or
    [NookipediaError500] (and, in the 1.6.0 revision, [NookipediaError400])
    has the code of its class whatever body it was given; the generic
    [NookipediaError] has the code it was given, which may be any number
    or absent. *)
Theorem error_code_invariant :
  (forall (b : ErrorBody) (e : NookipediaError),
      new_NookipediaError401 b = Normal e -> code e = Some 401%Z) /\
  (forall (b : ErrorBody) (e : NookipediaError),
      new_NookipediaError404 b = Normal e -> code e = Some 404%Z) /\
  (forall (b : ErrorBody) (e : NookipediaError),
      new_NookipediaError500 b = Normal e -> code e = Some 500%Z) /\
  (forall (b : ErrorBody) (e : NookipediaError),
      new_NookipediaError400 b = Normal e -> code e = Some 400%Z) /\
  (forall (b : ErrorBody) (c : option Z) (e : NookipediaError),
      new_NookipediaError b c = Normal e -> code e = c) /\
  (forall c : option Z,
      exists e, new_NookipediaError fallback_body c = Normal e /\ code e = c).
Proof.
  repeat split.
  - intros b e H. now apply new_subclass_code in H.
  - intros b e H. now apply new_subclass_code in H.
  - intros b e H. now apply new_subclass_code in H.
  - intros b e H. now apply new_subclass_code in H.
  - intros b c e H. now apply new_NookipediaError_code in H.
  - intro c. eexists. split; reflexivity.
Qed.

Lemma error_code_invariant_witness :
  code {| class := CNookipediaError401; message := "a";
          body := title_a; code := Some 401%Z |} = Some 401%Z
  /\
  code {| class := CNookipediaError; message := "a";
          body := title_a; code := None |} = None.
Proof.
  split.
  - apply (proj1 error_code_invariant title_a). reflexivity.
  - apply (proj1 (proj2 (proj2 (proj2 (proj2 error_code_invariant))))
             title_a None).
    reflexivity.
Defined.

(** ** The client's fields *)

Lemma request_world (fetch : Transport) (args : Args) (w : World) :
  this (snd (request fetch args w)) = this w.
Proof.
  rewrite request_unfold.
  destruct (fst (outbound NOOKIPEDIA_API_VERSION args w)) as [o | e |];
    try reflexivity.
  destruct (fetch (fst o) (snd o)) as [r | e]; try reflexivity.
  destruct (json r); try reflexivity.
  rewrite classify_world. reflexivity.
Qed.

(** The outbound request is a function of the client's fields as they are
    when the call is made. *)
Lemma outbound_reads_this (version : string) (args : Args) (w w' : World) :
  this w = this w' ->
  fst (outbound version args w) = fst (outbound version args w').
Proof.
  intro H.
  unfold outbound, bind, lift, ret, this_apiUrl, this_apiKey; simpl.
  rewrite H.
  repeat run_step; reflexivity.
Qed.

(** ** Header composition *)

Section HeaderLists.
Import Headers.

Lemma name_eqb_refl (a : string) : name_eqb a a = true.
Proof. unfold name_eqb. apply String.eqb_refl. Qed.

Lemma name_eqb_sym (a b : string) : name_eqb a b = name_eqb b a.
Proof. unfold name_eqb. apply String.eqb_sym. Qed.

Lemma named_other (name n : string) (h : string * string) :
  name_eqb n name = false -> named name h = true -> named n h = false.
Proof.
  unfold named, name_eqb. intros Hneq Hh.
  apply String.eqb_eq in Hh.
  destruct (String.eqb (JsString.lowercase (fst h)) (JsString.lowercase n)) eqn:E; auto.
  apply String.eqb_eq in E. rewrite <- E, Hh, String.eqb_refl in Hneq. discriminate.
Qed.

Lemma filter_other_names (name n : string) (l : t) :
  name_eqb n name = false ->
  filter (named n) (filter (fun q => negb (named name q)) l) = filter (named n) l.
Proof.
  intro Hneq. induction l as [| h rest IH]; simpl; auto.
  destruct (named name h) eqn:E; simpl.
  - rewrite (named_other name n h Hneq E). exact IH.
  - destruct (named n h); rewrite IH; reflexivity.
Qed.

Lemma filter_same_name (name : string) (l : t) :
  filter (named name) (filter (fun q => negb (named name q)) l) = [].
Proof.
  induction l as [| h rest IH]; simpl; auto.
  destruct (named name h) eqn:E; simpl; auto.
  rewrite E. exact IH.
Qed.

(** [set] leaves the headers of every other name as they are. *)
Lemma list_set_other (l : t) (name value n : string) :
  name_eqb n name = false ->
  filter (named n) (list_set l name value) = filter (named n) l.
Proof.
  intro Hneq. induction l as [| h rest IH]; simpl.
  - unfold named at 1; simpl. rewrite name_eqb_sym, Hneq. reflexivity.
  - destruct (named name h) eqn:E; simpl.
    + assert (Hh : named n h = false) by exact (named_other name n h Hneq E).
      unfold named at 1; simpl. fold (named n h). rewrite Hh.
      apply filter_other_names; assumption.
    + destruct (named n h); rewrite IH; reflexivity.
Qed.

(** After [set] there is one header of that name, with the value set. *)
Lemma list_set_same (l : t) (name value : string) :
  map snd (filter (named name) (list_set l name value)) = [value].
Proof.
  induction l as [| h rest IH]; simpl.
  - unfold named at 1; simpl. rewrite name_eqb_refl. reflexivity.
  - destruct (named name h) eqn:E; simpl.
    + unfold named at 1; simpl. fold (named name h). rewrite E. simpl.
      rewrite filter_same_name. reflexivity.
    + rewrite E. exact IH.
Qed.

Lemma list_get_set_same (l : t) (name value : string) :
  list_get (list_set l name value) name = Some value.
Proof. unfold list_get. rewrite list_set_same. reflexivity. Qed.

Lemma list_get_set_other (l : t) (name value n : string) :
  name_eqb n name = false ->
  list_get (list_set l name value) n = list_get l n.
Proof. intro H. unfold list_get. rewrite list_set_other by exact H. reflexivity. Qed.

Lemma named_list_append (l : t) (name value n : string) :
  filter (named n) (list_append l name value)
  = filter (named n) l ++ filter (named n) [(name, value)]
  \/ exists first,
       name_eqb first name = true /\
       filter (named n) (list_append l name value)
       = filter (named n) l ++ filter (named n) [(first, value)].
Proof.
  unfold list_append.
  destruct (find (named name) l) as [[first v] |] eqn:E.
  - right. exists first. split.
    + apply find_some in E. exact (proj2 E).
    + apply filter_app.
  - left. apply filter_app.
Qed.

(** The values [fill] adds under a name are the normalized values of the
    pairs of that name, in order. *)
Lemma list_append_values (l : t) (name value n : string) :
  map snd (filter (named n) (list_append l name value))
  = map snd (filter (named n) l)
    ++ map snd (filter (named n) [(name, value)]).
Proof.
  destruct (named_list_append l name value n) as [H | [first [Hf H]]];
    rewrite H, map_app; auto.
  f_equal. simpl. unfold named; simpl.
  assert (Hsame : name_eqb first n = name_eqb name n).
  { unfold name_eqb in *. apply String.eqb_eq in Hf. rewrite Hf. reflexivity. }
  rewrite Hsame. destruct (name_eqb name n); reflexivity.
Qed.

Lemma fill_values (pairs : list (string * string)) :
  forall (l H : t) (n : string),
    fill l pairs = Normal H ->
    map snd (filter (named n) H)
    = map snd (filter (named n) l)
      ++ map (fun p => normalize (snd p)) (filter (named n) pairs).
Proof.
  induction pairs as [| [name value] rest IH]; intros l H n Hfill; simpl in *.
  - inversion Hfill; subst. now rewrite app_nil_r.
  - unfold append in Hfill.
    destruct (valid_name name && valid_value (normalize value))%bool; simpl in Hfill;
      try discriminate.
    rewrite (IH _ _ n Hfill), list_append_values, <- app_assoc. f_equal.
    simpl. unfold named at 1 3; simpl.
    destruct (name_eqb name n); reflexivity.
Qed.

End HeaderLists.

(** What [outbound] returns, step by step. *)
Lemma outbound_inv (version : string) (args : Args) (w : World)
    (url : string) (init : FetchInit) :
  fst (outbound version args w) = Normal (url, init) ->
  exists (u0 u : URLObject) (H0 : Headers.t),
    new_URL (resolve_path (path args) (replacePath args)) (apiUrl (this w))
      = Normal u0 /\
    encode_query u0 (query args) = Normal u /\
    url = URL.href (record u) /\
    Headers.new match fetchOptions args with
                | Some o => init_headers o
                | None => None
                end = Normal H0 /\
    headers init
    = Headers.list_set
        (Headers.list_set H0 "Accept-Version" (Headers.normalize version))
        "X-API-KEY" (Headers.normalize (apiKey (this w))) /\
    other init = match fetchOptions args with
                 | Some o => init_other o
                 | None => []
                 end.
Proof.
  unfold outbound, bind, lift, ret, this_apiUrl, this_apiKey; simpl.
  destruct (new_URL _ _) as [u0 | |] eqn:Eurl; simpl; try discriminate.
  destruct (encode_query u0 (query args)) as [u | |] eqn:Eq; simpl; try discriminate.
  destruct (Headers.new _) as [H0 | |] eqn:Eh; simpl; try discriminate.
  unfold Headers.set.
  destruct (Headers.valid_name "Accept-Version" &&
            Headers.valid_value (Headers.normalize version))%bool; simpl;
    try discriminate.
  destruct (Headers.valid_value (Headers.normalize (apiKey (this w)))); simpl;
    try discriminate.
  intro H. inversion H; subst. exists u0, u, H0. simpl.
  repeat split; assumption || reflexivity.
Qed.

Lemma request_calls (fetch : Transport) (args : Args) (w : World)
    (o : string * FetchInit) :
  fst (outbound NOOKIPEDIA_API_VERSION args w) = Normal o ->
  calls (snd (request fetch args w)) = calls w ++ [o].
Proof.
  intro H. rewrite request_unfold, H.
  destruct o as [url init]; simpl.
  destruct (fetch url init) as [r | e]; try reflexivity.
  destruct (json r); try reflexivity.
  rewrite classify_world. reflexivity.
Qed.

Lemma new_headers_values (args : Args) (H0 : Headers.t) (n : string) :
  Headers.new match fetchOptions args with
              | Some o => init_headers o
              | None => None
              end = Normal H0 ->
  Headers.list_get H0 n
  = Headers.combined
      (map (fun p => Headers.normalize (snd p))
           (filter (Headers.named n) (caller_headers args))).
Proof.
  unfold Headers.new, caller_headers, Headers.list_get.
  destruct (fetchOptions args) as [o |]; [destruct (init_headers o) as [pairs |] |].
  - intro H. rewrite (fill_values pairs [] H0 n H). reflexivity.
  - intro H. inversion H; subst. reflexivity.
  - intro H. inversion H; subst. reflexivity.
Qed.

(** C4, amended. The headers of the outbound request of every call have
    [Accept-Version] equal to [NOOKIPEDIA_API_VERSION] and [X-API-KEY]
    equal to the client's [apiKey] as [Headers.set] stores it, that is
    with leading and trailing HTTP whitespace removed, whatever the caller
    supplied under those two names; under every other name (names compare
    case-insensitively) they hold what the caller supplied, as [Headers]
    stores it: the values of that name, whitespace-trimmed, joined in
    order. *)
Theorem outbound_headers_composed :
  forall (fetch : Transport) (args : Args) (w : World)
         (url : string) (init : FetchInit),
    fst (outbound NOOKIPEDIA_API_VERSION args w) = Normal (url, init) ->
    calls (snd (request fetch args w)) = calls w ++ [(url, init)] /\
    Headers.list_get (headers init) "Accept-Version" = Some NOOKIPEDIA_API_VERSION /\
    Headers.list_get (headers init) "X-API-KEY"
      = Some (Headers.normalize (apiKey (this w))) /\
    (Headers.normalize (apiKey (this w)) = apiKey (this w) ->
     Headers.list_get (headers init) "X-API-KEY" = Some (apiKey (this w))) /\
    (forall name : string,
        Headers.name_eqb name "Accept-Version" = false ->
        Headers.name_eqb name "X-API-KEY" = false ->
        Headers.list_get (headers init) name
        = Headers.combined
            (map (fun p => Headers.normalize (snd p))
                 (filter (Headers.named name) (caller_headers args)))) /\
    (forall name spelling value : string,
        Headers.name_eqb name "Accept-Version" = false ->
        Headers.name_eqb name "X-API-KEY" = false ->
        filter (Headers.named name) (caller_headers args) = [(spelling, value)] ->
        Headers.normalize value = value ->
        Headers.list_get (headers init) name = Some value).
Proof.
  intros fetch args w url init Hout.
  destruct (outbound_inv _ _ _ _ _ Hout) as (u0 & u & H0 & _ & _ & _ & Hnew & Hh & _).
  assert (Hkey : Headers.list_get (headers init) "X-API-KEY"
                 = Some (Headers.normalize (apiKey (this w)))).
  { rewrite Hh. apply list_get_set_same. }
  assert (Hrest : forall name : string,
             Headers.name_eqb name "Accept-Version" = false ->
             Headers.name_eqb name "X-API-KEY" = false ->
             Headers.list_get (headers init) name
             = Headers.combined
                 (map (fun p => Headers.normalize (snd p))
                      (filter (Headers.named name) (caller_headers args)))).
  { intros name Hv Hk.
    rewrite Hh, !list_get_set_other by assumption.
    now apply new_headers_values. }
  split; [| split; [| split; [| split; [| split]]]].
  - now apply request_calls.
  - rewrite Hh, list_get_set_other by reflexivity.
    rewrite list_get_set_same. reflexivity.
  - exact Hkey.
  - intro Hnorm. rewrite Hkey, Hnorm. reflexivity.
  - exact Hrest.
  - intros name spelling value Hv Hk Hone Hnorm.
    rewrite (Hrest name Hv Hk), Hone. simpl. rewrite Hnorm. reflexivity.
Qed.

Lemma outbound_headers_composed_witness :
  calls (snd (request (mockFetch okEmpty) (allBugsWithTestHeader "testValue")
                      (fresh "apiKey" None)))
  = [("https://api.nookipedia.com/nh/bugs",
      {| headers := [("Test", "testValue"); ("Accept-Version", "1.0.0");
                     ("X-API-KEY", "apiKey")];
         other := [] |})]
  /\
  Headers.list_get [("Test", "testValue"); ("Accept-Version", "1.0.0");
                    ("X-API-KEY", "apiKey")] "Test" = Some "testValue".
Proof.
  pose proof (outbound_headers_composed
                (mockFetch okEmpty) (allBugsWithTestHeader "testValue")
                (fresh "apiKey" None)
                "https://api.nookipedia.com/nh/bugs"
                {| headers := [("Test", "testValue"); ("Accept-Version", "1.0.0");
                               ("X-API-KEY", "apiKey")];
                   other := [] |}
                eq_refl) as (Hcalls & _ & _ & _ & _ & Hone).
  split.
  - exact Hcalls.
  - apply (Hone "Test" "Test" "testValue"); reflexivity.
Defined.

(** C4 as stated fails where [Headers] normalizes a value: a client whose
    [apiKey] is [" k"] sends [X-API-KEY: k], and a caller's
    [Test: " testValue "] goes out as [Test: testValue]. *)
Lemma outbound_headers_counterexample :
  calls (snd (request (mockFetch okEmpty) (allBugsWithTestHeader " testValue ")
                      (fresh " k" None)))
  = [("https://api.nookipedia.com/nh/bugs",
      {| headers := [("Test", "testValue"); ("Accept-Version", "1.0.0");
                     ("X-API-KEY", "k")];
         other := [] |})]
  /\
  Headers.list_get [("Test", "testValue"); ("Accept-Version", "1.0.0");
                    ("X-API-KEY", "k")] "X-API-KEY"
  <> Some (apiKey (this (fresh " k" None)))
  /\
  Headers.list_get [("Test", "testValue"); ("Accept-Version", "1.0.0");
                    ("X-API-KEY", "k")] "Test"
  <> Some " testValue ".
Proof.
  split; [reflexivity | split; discriminate].
Qed.

(** ** The client's fields, continued *)

(** C9. A call of [request] leaves [apiKey] and [apiUrl] as they were; the
    key it sends is the one in the field when the call is made; and after
    [client.apiKey = key] the next call behaves as a call on a client that
    holds [key]: nothing derived from the old key is kept. *)
Theorem request_reads_client_fields :
  (forall (fetch : Transport) (args : Args) (w : World),
      this (snd (request fetch args w)) = this w) /\
  (forall (args : Args) (w : World) (url : string) (init : FetchInit),
      fst (outbound NOOKIPEDIA_API_VERSION args w) = Normal (url, init) ->
      Headers.list_get (headers init) "X-API-KEY"
      = Some (Headers.normalize (apiKey (this w)))) /\
  (forall (fetch1 fetch2 : Transport) (args1 args2 : Args) (w : World)
          (key : string),
      let w1 := snd (request fetch1 args1 w) in
      this (assign_apiKey key w1) = {| apiKey := key; apiUrl := apiUrl (this w) |} /\
      fst (request fetch2 args2 (assign_apiKey key w1))
      = fst (request fetch2 args2
               {| this := {| apiKey := key; apiUrl := apiUrl (this w) |};
                  calls := [] |})).
Proof.
  split; [| split].
  - exact request_world.
  - intros args w url init Hout.
    destruct (outbound_inv _ _ _ _ _ Hout) as (u0 & u & H0 & _ & _ & _ & _ & Hh & _).
    rewrite Hh. apply list_get_set_same.
  - intros fetch1 fetch2 args1 args2 w key w1.
    assert (Hthis : this (assign_apiKey key w1)
                    = {| apiKey := key; apiUrl := apiUrl (this w) |}).
    { unfold assign_apiKey, w1; simpl. rewrite request_world. reflexivity. }
    split; [exact Hthis |].
    rewrite !request_unfold.
    rewrite (outbound_reads_this NOOKIPEDIA_API_VERSION args2
               (assign_apiKey key w1)
               {| this := {| apiKey := key; apiUrl := apiUrl (this w) |};
                  calls := [] |}) by exact Hthis.
    destruct (fst (outbound NOOKIPEDIA_API_VERSION args2 _)) as [o | e |];
      try reflexivity.
    destruct (fetch2 (fst o) (snd o)) as [r | e]; try reflexivity.
    destruct (json r) as [b | e]; try reflexivity.
    unfold classify, throw_new, bind, lift, throw, ret.
    repeat match goal with
           | |- context [if ?c then _ else _] => destruct c
           | |- context [match ?c with Normal _ => _ | Throw _ => _ | OutsideModel => _ end] =>
               destruct c
           end; reflexivity.
Qed.

Lemma request_reads_client_fields_witness :
  Headers.list_get [("Accept-Version", "1.0.0"); ("X-API-KEY", "second")] "X-API-KEY"
  = Some (Headers.normalize
            (apiKey (this (assign_apiKey "second"
                             (snd (request (mockFetch okEmpty) allBugs
                                           (fresh "first" None))))))).
Proof.
  apply (proj1 (proj2 request_reads_client_fields)
           allBugs
           (assign_apiKey "second"
              (snd (request (mockFetch okEmpty) allBugs (fresh "first" None))))
           "https://api.nookipedia.com/nh/bugs"
           {| headers := [("Accept-Version", "1.0.0"); ("X-API-KEY", "second")];
              other := [] |}).
  reflexivity.
Defined.

(** ** Path resolution *)

Section PathResolution.
Import JsString Template.
#[local] Arguments Ascii.eqb : simpl never.

Lemma sapp_assoc (a b c : string) : ((a ++ b) ++ c = a ++ (b ++ c))%string.
Proof. induction a as [| x a IH]; simpl; [| rewrite IH]; reflexivity. Qed.

Lemma sapp_nil_r (a : string) : (a ++ "" = a)%string.
Proof. induction a as [| x a IH]; simpl; [| rewrite IH]; reflexivity. Qed.

Lemma existsb_cons (p : ascii -> bool) (c : ascii) (s : string) :
  existsb p (String c s) = (p c || existsb p s)%bool.
Proof. reflexivity. Qed.

Lemma existsb_app (p : ascii -> bool) (a b : string) :
  existsb p (a ++ b) = (existsb p a || existsb p b)%bool.
Proof.
  induction a as [| x a IH]; simpl; auto.
  rewrite IH. apply orb_assoc.
Qed.

Lemma brace_free_app (a b : string) :
  brace_free (a ++ b) = (brace_free a && brace_free b)%bool.
Proof. unfold brace_free. rewrite existsb_app. apply negb_orb. Qed.

Lemma starts_with_app (a b : string) : starts_with a (a ++ b) = true.
Proof.
  induction a as [| x a IH]; simpl; auto.
  rewrite Ascii.eqb_refl. exact IH.
Qed.

Lemma drop_length_app (a b : string) : drop (String.length a) (a ++ b) = b.
Proof. induction a as [| x a IH]; simpl; auto. Qed.

(** A value without [$] is substituted as it is. *)
Lemma GetSubstitution_dollar_free (matched before after template : string) :
  dollar_free template = true ->
  GetSubstitution matched before after template = template.
Proof.
  unfold dollar_free, includes_char.
  induction template as [| c r IH]; auto.
  rewrite existsb_cons, negb_orb, andb_true_iff, negb_true_iff. intros [Hc Hr].
  rewrite Ascii.eqb_sym in Hc. simpl. rewrite Hc, IH; auto.
Qed.

Lemma replace_dollar_free (s pat value : string) :
  dollar_free value = true ->
  replace s pat value
  = match split_first pat s with
    | Some (before, after) => (before ++ value ++ after)%string
    | None => s
    end.
Proof.
  intro H. unfold replace.
  destruct (split_first pat s) as [[b a] |]; auto.
  now rewrite GetSubstitution_dollar_free.
Qed.

Lemma split_first_cons (pat : string) (c : ascii) (s : string) :
  split_first pat (String c s)
  = if starts_with pat (String c s)
    then Some (EmptyString, drop (String.length pat) (String c s))
    else match split_first pat s with
         | Some (before, after) => Some (String c before, after)
         | None => None
         end.
Proof. reflexivity. Qed.

(** The search for a placeholder walks over text without an opening
    brace. *)
Lemma split_first_skip (x s rest : string) :
  existsb (Ascii.eqb "{") s = false ->
  split_first (String "{" x) (s ++ rest)
  = match split_first (String "{" x) rest with
    | Some (before, after) => Some ((s ++ before)%string, after)
    | None => None
    end.
Proof.
  induction s as [| c s IH].
  - intros _. simpl append.
    destruct (split_first (String "{" x) rest) as [[b a] |]; reflexivity.
  - intro H. change (existsb (Ascii.eqb "{") (String c s))
      with (Ascii.eqb "{" c || existsb (Ascii.eqb "{") s)%bool in H.
    apply orb_false_iff in H. destruct H as [Hc Hs].
    change (String c s ++ rest)%string with (String c (s ++ rest)).
    rewrite split_first_cons.
    change (starts_with (String "{" x) (String c (s ++ rest)))
      with (if Ascii.eqb "{" c then starts_with x (s ++ rest) else false).
    rewrite Hc, (IH Hs).
    destruct (split_first (String "{" x) rest) as [[b a] |]; reflexivity.
Qed.

Lemma no_brace_no_open (s : string) :
  brace_free s = true -> existsb (Ascii.eqb "{") s = false.
Proof.
  unfold brace_free, is_brace. rewrite negb_true_iff.
  induction s as [| c s IH]; simpl; auto.
  rewrite !orb_false_iff. intros [[Hc _] Hs].
  split; [rewrite Ascii.eqb_sym; exact Hc | auto].
Qed.

Lemma no_brace_no_close (s : string) :
  brace_free s = true -> existsb (Ascii.eqb "}") s = false.
Proof.
  unfold brace_free, is_brace. rewrite negb_true_iff.
  induction s as [| c s IH]; simpl; auto.
  rewrite !orb_false_iff. intros [[_ Hc] Hs].
  split; [rewrite Ascii.eqb_sym; exact Hc | auto].
Qed.

Lemma starts_with_cons (a : ascii) (p : string) (b : ascii) (s : string) :
  starts_with (String a p) (String b s)
  = if Ascii.eqb a b then starts_with p s else false.
Proof. reflexivity. Qed.

(** Two names without braces of which one, closed, begins the other,
    closed, are the same name. *)
Lemma closed_name_prefix (k : string) :
  forall m rest : string,
    existsb (Ascii.eqb "}") k = false ->
    existsb (Ascii.eqb "}") m = false ->
    starts_with (k ++ "}") (m ++ "}" ++ rest) = true ->
    k = m.
Proof.
  induction k as [| a k IH]; intros m rest Hk Hm Hp.
  - destruct m as [| b m]; auto.
    rewrite existsb_cons in Hm. apply orb_false_iff in Hm. destruct Hm as [Hb _].
    change (starts_with ("" ++ "}") (String b m ++ "}" ++ rest))
      with (if Ascii.eqb "}" b then true else false) in Hp.
    rewrite Hb in Hp. discriminate.
  - rewrite existsb_cons in Hk. apply orb_false_iff in Hk. destruct Hk as [Ha Hk].
    destruct m as [| b m].
    + change (starts_with (String a k ++ "}") ("" ++ "}" ++ rest))
        with (if Ascii.eqb a "}" then starts_with (k ++ "}") rest else false) in Hp.
      rewrite Ascii.eqb_sym, Ha in Hp. discriminate.
    + rewrite existsb_cons in Hm. apply orb_false_iff in Hm. destruct Hm as [_ Hm].
      change (starts_with (String a k ++ "}") (String b m ++ "}" ++ rest))
        with (if Ascii.eqb a b then starts_with (k ++ "}") (m ++ "}" ++ rest)
              else false) in Hp.
      destruct (Ascii.eqb a b) eqn:E; [| discriminate].
      apply Ascii.eqb_eq in E. subst b. f_equal. exact (IH m rest Hk Hm Hp).
Qed.

Lemma split_first_piece (key : string) (p : piece) (rest : string) :
  brace_free key = true ->
  piece_ok p = true ->
  p <> Hole key ->
  split_first (placeholder key) (render_piece p ++ rest)
  = match split_first (placeholder key) rest with
    | Some (before, after) => Some ((render_piece p ++ before)%string, after)
    | None => None
    end.
Proof.
  intros Hkey Hok Hne. destruct p as [text | name].
  - apply split_first_skip. now apply no_brace_no_open.
  - change (piece_ok (Hole name)) with (brace_free name) in Hok.
    change (placeholder key) with (String "{" (key ++ "}")).
    change (render_piece (Hole name) ++ rest)%string
      with (String "{" ((name ++ "}") ++ rest)).
    rewrite split_first_cons, starts_with_cons, Ascii.eqb_refl.
    destruct (starts_with (key ++ "}") ((name ++ "}") ++ rest)) eqn:Ep.
    + exfalso. apply Hne. f_equal. symmetry.
      rewrite sapp_assoc in Ep.
      apply (closed_name_prefix key name rest); auto using no_brace_no_close.
    + assert (Hskip : existsb (Ascii.eqb "{") (name ++ "}") = false).
      { rewrite existsb_app, (no_brace_no_open name Hok). reflexivity. }
      rewrite (split_first_skip (key ++ "}") (name ++ "}") rest Hskip).
      destruct (split_first (String "{" (key ++ "}")) rest) as [[b a] |]; reflexivity.
Qed.

Lemma subst_absent (key value : string) (t : list piece) :
  mem key (holes t) = false ->
  List.map (subst_piece key value) t = t.
Proof.
  induction t as [| [text | name] t IH]; simpl; intro H; auto.
  - rewrite IH; auto.
  - apply orb_false_iff in H. destruct H as [Hn Ht].
    rewrite String.eqb_sym, Hn, IH; auto.
Qed.

(** One step of the loop of lines 81-85 on a well-formed template. *)
Lemma replace_render (key value : string) (t : list piece) :
  brace_free key = true ->
  dollar_free value = true ->
  well_formed t = true ->
  replace (render t) (placeholder key) value = render (subst t (key, value)).
Proof.
  intros Hkey Hval. unfold well_formed, subst. simpl fst; simpl snd.
  rewrite replace_dollar_free by exact Hval.
  induction t as [| p t IH]; intro Hwf.
  - reflexivity.
  - apply andb_true_iff in Hwf. destruct Hwf as [Hoks Hdist].
    change (List.forallb piece_ok (p :: t)) with (piece_ok p && List.forallb piece_ok t)%bool in Hoks.
    apply andb_true_iff in Hoks. destruct Hoks as [Hok Hoks].
    change (render (p :: t)) with (render_piece p ++ render t)%string.
    change (List.map (subst_piece key value) (p :: t))
      with (subst_piece key value p :: List.map (subst_piece key value) t).
    change (render (subst_piece key value p :: List.map (subst_piece key value) t))
      with (render_piece (subst_piece key value p)
            ++ render (List.map (subst_piece key value) t))%string.
    destruct p as [text | name].
    + change (holes (Lit text :: t)) with (holes t) in Hdist.
      rewrite (split_first_piece key (Lit text) (render t) Hkey Hok) by discriminate.
      assert (IH' := IH (proj2 (andb_true_iff _ _) (conj Hoks Hdist))).
      change (subst_piece key value (Lit text)) with (Lit text).
      rewrite <- IH'.
      destruct (split_first (placeholder key) (render t)) as [[b a] |].
      * now rewrite sapp_assoc.
      * reflexivity.
    + change (holes (Hole name :: t)) with (name :: holes t) in Hdist.
      change (distinct (name :: holes t))
        with (negb (mem name (holes t)) && distinct (holes t))%bool in Hdist.
      apply andb_true_iff in Hdist. destruct Hdist as [Hnew Hdist].
      apply negb_true_iff in Hnew.
      change (subst_piece key value (Hole name))
        with (if String.eqb name key then Lit value else Hole name).
      destruct (String.eqb name key) eqn:E.
      * apply String.eqb_eq in E. subst name.
        change (render_piece (Hole key)) with (placeholder key).
        assert (Hs : split_first (placeholder key) (placeholder key ++ render t)
                     = Some (EmptyString, render t)).
        { unfold placeholder at 2.
          change (("{" ++ key ++ "}") ++ render t)%string
            with (String "{" ((key ++ "}") ++ render t)).
          rewrite split_first_cons.
          change (String "{" ((key ++ "}") ++ render t))
            with (placeholder key ++ render t)%string.
          now rewrite starts_with_app, drop_length_app. }
        rewrite Hs, subst_absent by exact Hnew. reflexivity.
      * assert (Hne : Hole name <> Hole key).
        { intro H. inversion H. subst. rewrite String.eqb_refl in E. discriminate. }
        rewrite (split_first_piece key (Hole name) (render t) Hkey Hok Hne).
        assert (IH' := IH (proj2 (andb_true_iff _ _) (conj Hoks Hdist))).
        rewrite <- IH'.
        destruct (split_first (placeholder key) (render t)) as [[b a] |].
        -- now rewrite sapp_assoc.
        -- reflexivity.
Qed.

Lemma holes_subst (key value : string) (t : list piece) :
  holes (subst t (key, value))
  = List.filter (fun n => negb (String.eqb n key)) (holes t).
Proof.
  unfold subst. simpl fst; simpl snd.
  induction t as [| [text | name] t IH]; simpl; auto.
  destruct (String.eqb name key) eqn:E; simpl; [| rewrite IH]; auto.
Qed.

Lemma mem_filter (x : string) (p : string -> bool) (l : list string) :
  mem x l = false -> mem x (List.filter p l) = false.
Proof.
  unfold mem. induction l as [| y l IH]; simpl; auto.
  rewrite orb_false_iff. intros [Hy Hl].
  destruct (p y); simpl; [rewrite Hy |]; auto.
Qed.

Lemma distinct_filter (p : string -> bool) (l : list string) :
  distinct l = true -> distinct (List.filter p l) = true.
Proof.
  induction l as [| y l IH]; simpl; auto.
  rewrite andb_true_iff, negb_true_iff. intros [Hy Hl].
  destruct (p y); simpl; auto.
  rewrite (mem_filter y p l Hy). simpl. auto.
Qed.

Lemma well_formed_subst (key value : string) (t : list piece) :
  brace_free value = true ->
  well_formed t = true ->
  well_formed (subst t (key, value)) = true.
Proof.
  intro Hv. unfold well_formed. rewrite !andb_true_iff. intros [Hok Hd].
  split.
  - unfold subst. simpl fst; simpl snd. clear Hd.
    induction t as [| [text | name] t IH]; simpl in *; auto.
    + apply andb_true_iff in Hok. destruct Hok as [H1 H2].
      rewrite H1. auto.
    + apply andb_true_iff in Hok. destruct Hok as [H1 H2].
      destruct (String.eqb name key); simpl; [rewrite Hv | rewrite H1]; auto.
  - rewrite holes_subst. now apply distinct_filter.
Qed.

(** The whole loop, on a well-formed template. *)
Lemma resolve_render (entries : list (string * string)) :
  forall t : list piece,
    well_formed t = true ->
    List.forallb (fun e => brace_free (fst e)) entries = true ->
    List.forallb (fun e => plain (snd e)) entries = true ->
    resolve_path (render t) (Some entries) = render (fold_left subst entries t).
Proof.
  unfold resolve_path.
  induction entries as [| [key value] entries IH]; intros t Hwf Hkeys Hvals; simpl.
  - reflexivity.
  - simpl in Hkeys, Hvals.
    apply andb_true_iff in Hkeys. destruct Hkeys as [Hkey Hkeys].
    apply andb_true_iff in Hvals. destruct Hvals as [Hval Hvals].
    unfold plain in Hval. apply andb_true_iff in Hval. destruct Hval as [Hb Hd].
    rewrite (replace_render key value t Hkey Hd Hwf).
    apply IH; auto using well_formed_subst.
Qed.

Lemma fill_piece_cons (key value : string) (rest : list (string * string)) (p : piece) :
  fill_piece ((key, value) :: rest) p = fill_piece rest (subst_piece key value p).
Proof.
  destruct p as [text | name]; simpl; auto.
  rewrite (String.eqb_sym key name).
  destruct (String.eqb name key); reflexivity.
Qed.

Lemma render_fold_subst (entries : list (string * string)) :
  forall t : list piece, render (fold_left subst entries t) = fill entries t.
Proof.
  induction entries as [| [key value] entries IH]; intro t; simpl.
  - induction t as [| [text | name] t IHt]; simpl; rewrite ?IHt; reflexivity.
  - rewrite IH. unfold subst. simpl fst; simpl snd.
    induction t as [| p t IHt]; simpl; auto.
    rewrite IHt, fill_piece_cons. reflexivity.
Qed.

Lemma lookup_mem (name : string) (entries : list (string * string)) :
  mem name (List.map fst entries) = true ->
  exists value, lookup name entries = Some value /\ In value (List.map snd entries).
Proof.
  unfold mem. induction entries as [| [k v] entries IH]; simpl; [discriminate |].
  rewrite (String.eqb_sym name k).
  destruct (String.eqb k name); simpl.
  - intros _. exists v. auto.
  - intro H. destruct (IH H) as [value [H1 H2]]. exists value. auto.
Qed.

Lemma fill_brace_free (entries : list (string * string)) (t : list piece) :
  List.forallb piece_ok t = true ->
  List.forallb (fun n => mem n (List.map fst entries)) (holes t) = true ->
  List.forallb (fun e => plain (snd e)) entries = true ->
  brace_free (fill entries t) = true.
Proof.
  intros Hok Hcov Hvals.
  induction t as [| p t IH]; auto.
  simpl in Hok. apply andb_true_iff in Hok. destruct Hok as [Hp Hok].
  change (fill entries (p :: t)) with (fill_piece entries p ++ fill entries t)%string.
  rewrite brace_free_app, andb_true_iff.
  destruct p as [text | name]; simpl in Hcov.
  - split; auto.
  - apply andb_true_iff in Hcov. destruct Hcov as [Hn Hcov].
    split; auto.
    destruct (lookup_mem name entries Hn) as [value [Hl Hin]].
    simpl. rewrite Hl.
    rewrite forallb_forall in Hvals.
    apply in_map_iff in Hin. destruct Hin as [e [He Hin]]. subst value.
    specialize (Hvals e Hin). unfold plain in Hvals.
    apply andb_true_iff in Hvals. tauto.
Qed.

Lemma keys_brace_free (entries : list (string * string)) (t : list piece) :
  List.forallb piece_ok t = true ->
  List.forallb (fun k => mem k (holes t)) (List.map fst entries) = true ->
  List.forallb (fun e => brace_free (fst e)) entries = true.
Proof.
  intros Hok Hkeys.
  rewrite forallb_forall in *. intros e He.
  assert (Hm : mem (fst e) (holes t) = true).
  { apply Hkeys. now apply in_map. }
  clear - Hok Hm. unfold mem in Hm.
  apply existsb_exists in Hm. destruct Hm as [n [Hin Heq]].
  apply String.eqb_eq in Heq. subst n.
  induction t as [| [text | name] t IH]; simpl in Hin; try contradiction.
  - apply IH; auto. intros x Hx. apply Hok. now right.
  - destruct Hin as [E | Hin].
    + subst name. apply (Hok (Hole (fst e))). now left.
    + apply IH; auto. intros x Hx. apply Hok. now right.
Qed.

End PathResolution.


(** C6, amended. On a template whose braces occur in placeholders only
    and whose placeholders are distinct, with a mapping that names exactly
    the placeholders and whose values hold neither a brace nor a [$], the
    resolved path is the template with every [{name}] replaced by the
    value of [name] as it is, and it holds no brace; in particular, with
    one placeholder [{x}] and such a value [v], the resolved path is the
    text before, [v], and the text after. *)
Theorem resolve_path_fills_template :
  (forall (t : list Template.piece) (entries : list (string * string)),
      Template.well_formed t = true ->
      Template.covers entries t = true ->
      forallb (fun e => Template.plain (snd e)) entries = true ->
      resolve_path (Template.render t) (Some entries) = Template.fill entries t /\
      Template.brace_free (resolve_path (Template.render t) (Some entries)) = true)
  /\
  (forall before x after v : string,
      Template.brace_free before = true ->
      Template.brace_free x = true ->
      Template.brace_free after = true ->
      Template.plain v = true ->
      resolve_path (before ++ placeholder x ++ after)%string (Some [(x, v)])
      = (before ++ v ++ after)%string /\
      Template.brace_free
        (resolve_path (before ++ placeholder x ++ after)%string (Some [(x, v)]))
      = true).
Proof.
  assert (General :
    forall (t : list Template.piece) (entries : list (string * string)),
      Template.well_formed t = true ->
      Template.covers entries t = true ->
      forallb (fun e => Template.plain (snd e)) entries = true ->
      resolve_path (Template.render t) (Some entries) = Template.fill entries t /\
      Template.brace_free (resolve_path (Template.render t) (Some entries)) = true).
  { intros t entries Hwf Hcov Hvals.
    pose proof Hwf as Hwf'. unfold Template.well_formed in Hwf'.
    apply andb_true_iff in Hwf'. destruct Hwf' as [Hok Hdist].
    unfold Template.covers in Hcov.
    apply andb_true_iff in Hcov. destruct Hcov as [Hholes Hkeys].
    assert (E : resolve_path (Template.render t) (Some entries)
                = Template.fill entries t).
    { rewrite resolve_render; auto using render_fold_subst.
      now apply (keys_brace_free entries t). }
    split; [exact E |].
    rewrite E. now apply fill_brace_free. }
  split; [exact General |].
  intros before x after v Hb Hx Ha Hv.
  destruct (General [Template.Lit before; Template.Hole x; Template.Lit after]
                    [(x, v)]) as [E B].
  - unfold Template.well_formed. simpl. now rewrite Hb, Hx, Ha.
  - unfold Template.covers, mem. simpl. now rewrite String.eqb_refl.
  - simpl. now rewrite Hv.
  - simpl in E, B. rewrite String.eqb_refl, sapp_nil_r in E.
    rewrite sapp_nil_r in B. split; assumption.
Qed.

Lemma resolve_path_fills_template_witness :
  resolve_path "/nh/bugs/{bug}" (Some [("bug", "coolBug")]) = "/nh/bugs/coolBug"
  /\
  resolve_path "/nh/villagers/{a}/{b}" (Some [("b", "y"); ("a", "x")])
  = "/nh/villagers/x/y".
Proof.
  split.
  - apply (proj2 resolve_path_fills_template "/nh/bugs/" "bug" "" "coolBug");
      reflexivity.
  - apply (proj1 resolve_path_fills_template
             [Template.Lit "/nh/villagers/"; Template.Hole "a"; Template.Lit "/";
              Template.Hole "b"]
             [("b", "y"); ("a", "x")]);
      reflexivity.
Defined.

(** C6 as stated fails in three ways.  A value is not always inserted as
    it is: [$&] in it stands for the matched placeholder, so that
    [getBug("$&")] leaves [{bug}] in place although the value holds no
    brace.  A placeholder that occurs twice is replaced once.  And a value
    that holds a brace brings it into the path. *)
Lemma resolve_path_counterexample :
  resolve_path "/nh/bugs/{bug}" (Some [("bug", "$&")]) = "/nh/bugs/{bug}" /\
  Template.brace_free "$&" = true /\
  Template.brace_free (resolve_path "/nh/bugs/{bug}" (Some [("bug", "$&")])) = false /\
  JsString.includes "$&" (resolve_path "/nh/bugs/{bug}" (Some [("bug", "$&")])) = false /\
  resolve_path "/{x}/{x}" (Some [("x", "v")]) = "/v/{x}" /\
  resolve_path "/nh/bugs/{bug}" (Some [("bug", "a{b")]) = "/nh/bugs/a{b".
Proof. repeat split; reflexivity. Qed.

(** ** Query encoding *)

Section QueryEncoding.
#[local] Arguments Ascii.eqb : simpl never.

Lemma includes_app (pat before after : string) :
  JsString.includes pat (before ++ pat ++ after) = true.
Proof.
  unfold JsString.includes.
  induction before as [| c before IH].
  - simpl append. destruct (pat ++ after)%string as [| c r] eqn:E.
    + destruct pat; [reflexivity | discriminate].
    + rewrite split_first_cons, <- E, starts_with_app. reflexivity.
  - change (String c before ++ pat ++ after)%string
      with (String c (before ++ pat ++ after)).
    rewrite split_first_cons.
    destruct (JsString.starts_with pat _); auto.
    destruct (JsString.split_first pat (before ++ pat ++ after)) as [[b a] |];
      [reflexivity | discriminate].
Qed.

Lemma serialize_cons (p q : string * string) (l : URLSearchParams.t) :
  URLSearchParams.serialize (p :: q :: l)
  = (URLSearchParams.serialize_pair p ++ "&"
     ++ URLSearchParams.serialize (q :: l))%string.
Proof. reflexivity. Qed.

Lemma serialize_head (q : string * string) (l : URLSearchParams.t) :
  exists tl, URLSearchParams.serialize (q :: l)
             = (URLSearchParams.serialize_pair q ++ tl)%string.
Proof.
  destruct l as [| r l].
  - exists EmptyString. simpl. now rewrite sapp_nil_r.
  - eexists. rewrite serialize_cons. reflexivity.
Qed.

(** Two neighbours of the list are neighbours of its serialization. *)
Lemma serialize_neighbours (p q : string * string) (l1 l2 : URLSearchParams.t) :
  exists before after,
    URLSearchParams.serialize (l1 ++ [p; q] ++ l2)
    = (before
       ++ (URLSearchParams.serialize_pair p ++ "&" ++ URLSearchParams.serialize_pair q)
       ++ after)%string.
Proof.
  induction l1 as [| x l1 IH].
  - destruct (serialize_head q l2) as [tl Htl].
    exists EmptyString, tl.
    change ([] ++ [p; q] ++ l2) with (p :: q :: l2).
    rewrite serialize_cons, Htl. simpl. now rewrite !sapp_assoc.
  - destruct IH as [before [after IH]].
    exists (URLSearchParams.serialize_pair x ++ "&" ++ before)%string, after.
    change ((x :: l1) ++ [p; q] ++ l2) with (x :: (l1 ++ [p; q] ++ l2)).
    destruct (l1 ++ [p; q] ++ l2) as [| y r] eqn:E.
    + destruct l1; discriminate.
    + rewrite serialize_cons, IH, !sapp_assoc. reflexivity.
Qed.

Lemma set_skip (m l : URLSearchParams.t) (name value : string) :
  forallb (fun p => negb (URLSearchParams.has_name name p)) m = true ->
  URLSearchParams.set (m ++ l) name value = m ++ URLSearchParams.set l name value.
Proof.
  induction m as [| p m IH]; simpl; auto.
  rewrite andb_true_iff, negb_true_iff. intros [Hp Hm].
  rewrite Hp, IH; auto.
Qed.

Lemma filter_keep (m l : URLSearchParams.t) (name : string) :
  forallb (fun p => negb (URLSearchParams.has_name name p)) m = true ->
  filter (fun q => negb (URLSearchParams.has_name name q)) (m ++ l)
  = m ++ filter (fun q => negb (URLSearchParams.has_name name q)) l.
Proof.
  induction m as [| p m IH]; simpl; auto.
  rewrite andb_true_iff. intros [Hp Hm].
  rewrite Hp, IH; auto.
Qed.

(** [set] under another name moves no pair of the block [m]. *)
Lemma set_around (l1 m l2 : URLSearchParams.t) (name value : string) :
  forallb (fun p => negb (URLSearchParams.has_name name p)) m = true ->
  exists l1' l2', URLSearchParams.set (l1 ++ m ++ l2) name value = l1' ++ m ++ l2'.
Proof.
  intro Hm. induction l1 as [| x l1 IH].
  - exists [], (URLSearchParams.set l2 name value). simpl. now apply set_skip.
  - simpl. destruct (URLSearchParams.has_name name x).
    + exists ((name, value)
              :: filter (fun q => negb (URLSearchParams.has_name name q)) l1),
             (filter (fun q => negb (URLSearchParams.has_name name q)) l2).
      rewrite filter_app, (filter_keep m l2 name Hm). reflexivity.
    + destruct IH as [l1' [l2' IH]]. exists (x :: l1'), l2'. now rewrite IH.
Qed.

(** After [set] there is one pair of that name, with the value set, and
    the pairs of other names are the ones there were. *)
Lemma set_single (l : URLSearchParams.t) (name value : string) :
  filter (URLSearchParams.has_name name) (URLSearchParams.set l name value)
  = [(name, value)].
Proof.
  induction l as [| p l IH]; simpl.
  - unfold URLSearchParams.has_name; simpl. now rewrite String.eqb_refl.
  - destruct (URLSearchParams.has_name name p) eqn:E; simpl.
    + unfold URLSearchParams.has_name at 1; simpl. rewrite String.eqb_refl.
      f_equal. clear. induction l as [| q l IH]; simpl; auto.
      destruct (URLSearchParams.has_name name q) eqn:E; simpl; auto.
      now rewrite E.
    + now rewrite E.
Qed.

Lemma set_others (l : URLSearchParams.t) (name value : string) :
  filter (fun q => negb (URLSearchParams.has_name name q))
         (URLSearchParams.set l name value)
  = filter (fun q => negb (URLSearchParams.has_name name q)) l.
Proof.
  induction l as [| p l IH]; simpl.
  - unfold URLSearchParams.has_name; simpl. now rewrite String.eqb_refl.
  - destruct (URLSearchParams.has_name name p) eqn:E; simpl.
    + unfold URLSearchParams.has_name at 1; simpl. rewrite String.eqb_refl. simpl.
      clear. induction l as [| q l IH]; simpl; auto.
      destruct (URLSearchParams.has_name name q) eqn:E; simpl; auto.
      now rewrite E, IH.
    + now rewrite E, IH.
Qed.

Lemma update_update (u : URL.t) (l1 l2 : URLSearchParams.t) :
  URL.update (URL.update u l1) l2 = URL.update u l2.
Proof. reflexivity. Qed.

Lemma forEach_cons {A S : Type} (f : S -> A -> completion S) (x : A)
    (rest : list A) (s : S) :
  forEach f (x :: rest) s = cbind (f s x) (forEach f rest).
Proof. reflexivity. Qed.

(** The inner loop of lines 95-97. *)
Lemma forEach_append (key : string) (vs : list Scalar) (ss : list string) :
  strings_of vs ss ->
  forall (url : URLObject) (l : URLSearchParams.t),
    params url = Some l ->
    exists url',
      forEach (fun u val =>
                 cbind (toString val) (fun s => searchParams_append u key s))
              vs url
      = Normal url' /\
      params url' = Some (l ++ map (fun s => (key, s)) ss) /\
      (vs <> [] ->
       record url' = URL.update (record url) (l ++ map (fun s => (key, s)) ss)) /\
      (vs = [] -> url' = url).
Proof.
  induction 1 as [| v s vs ss Hv Hvs IH]; intros url l Hl.
  - exists url. simpl. rewrite app_nil_r. repeat split; auto. congruence.
  - rewrite forEach_cons, Hv.
    unfold cbind at 2.
    unfold searchParams_append at 1, with_params. rewrite Hl.
    unfold cbind at 1.
    destruct (IH {| record := URL.update (record url) (URLSearchParams.append l key s);
                    params := Some (URLSearchParams.append l key s) |}
                 (URLSearchParams.append l key s) eq_refl)
      as (url' & Hrun & Hp & Hrec & Hnil).
    exists url'. unfold URLSearchParams.append in *.
    rewrite <- app_assoc in Hp. simpl in Hp.
    split; [exact Hrun |]. split; [exact Hp |]. split; [| discriminate].
    intros _. destruct Hvs as [| v' s' vs ss Hv' Hvs].
    + rewrite (Hnil eq_refl). reflexivity.
    + rewrite Hrec by discriminate. simpl record.
      rewrite update_update, <- app_assoc. reflexivity.
Qed.

(** A loop that ends normally has converted every element. *)
Lemma forEach_append_inv (key : string) (vs : list Scalar) :
  forall (url url' : URLObject),
    forEach (fun u val =>
               cbind (toString val) (fun s => searchParams_append u key s))
            vs url
    = Normal url' ->
    vs = [] \/
    exists l ss, params url = Some l /\ strings_of vs ss.
Proof.
  induction vs as [| v vs IH]; intros url url' Hrun; [now left | right].
  rewrite forEach_cons in Hrun.
  destruct (toString v) as [s | |] eqn:Hv; try discriminate.
  unfold cbind at 2 in Hrun.
  unfold searchParams_append at 1, with_params in Hrun.
  destruct (params url) as [l |]; [| discriminate].
  unfold cbind at 1 in Hrun.
  exists l.
  destruct (IH _ _ Hrun) as [E | (l' & ss & _ & Hss)].
  - subst vs. exists [s]. split; [reflexivity |]. repeat constructor. exact Hv.
  - exists (s :: ss). split; [reflexivity |]. constructor; assumption.
Qed.

(** A scalar entry that is encoded has a string. *)
Lemma set_inv (key : string) (v : Scalar) (url url' : URLObject) :
  cbind (toString v) (fun s => searchParams_set url key s) = Normal url' ->
  exists l s,
    params url = Some l /\ toString v = Normal s /\
    url' = {| record := URL.update (record url) (URLSearchParams.set l key s);
              params := Some (URLSearchParams.set l key s) |}.
Proof.
  destruct (toString v) as [s | |]; try discriminate.
  unfold cbind, searchParams_set, with_params.
  destruct (params url) as [l |]; [| discriminate].
  intro H. inversion H. exists l, s. auto.
Qed.

Lemma forEach_app {A S : Type} (f : S -> A -> completion S) (xs ys : list A) :
  forall s : S, forEach f (xs ++ ys) s = cbind (forEach f xs s) (forEach f ys).
Proof.
  induction xs as [| x xs IH]; intro s; simpl; auto.
  destruct (f s x); simpl; auto.
Qed.

Lemma update_query (u : URL.t) (l1 block l2 : URLSearchParams.t) :
  block <> [] ->
  URL.query (URL.update u (l1 ++ block ++ l2))
  = Some (URLSearchParams.serialize (l1 ++ block ++ l2)).
Proof.
  intro H. unfold URL.update; simpl.
  destruct (l1 ++ block ++ l2) eqn:E; auto.
  destruct l1; [destruct block; [congruence | discriminate] | discriminate].
Qed.

(** An entry under another key leaves the block in place. *)
Lemma encode_entry_keeps_block (block : URLSearchParams.t) (url url' : URLObject)
    (entry : string * QueryValue) :
  block <> [] ->
  forallb (fun p => negb (URLSearchParams.has_name (fst entry) p)) block = true ->
  holds_block url block ->
  encode_entry url entry = Normal url' ->
  holds_block url' block.
Proof.
  intros Hne Hother (l1 & l2 & Hp & Hq) Hrun.
  destruct entry as [key [v | vs]]; simpl in Hother; simpl encode_entry in Hrun.
  - destruct (set_inv key v url url' Hrun) as (l & s & Hl & _ & E).
    rewrite Hp in Hl. inversion Hl; subst l url'. clear Hl.
    destruct (set_around l1 block l2 key s Hother) as (l1' & l2' & E).
    exists l1', l2'. simpl. rewrite E. split; auto.
    unfold URL.update; simpl.
    destruct (l1' ++ block ++ l2') eqn:E'; auto.
    destruct l1'; [destruct block; [congruence | discriminate] | discriminate].
  - destruct (forEach_append_inv key vs url url' Hrun) as [E | (l & ss & Hl & Hss)].
    + subst vs. simpl in Hrun. inversion Hrun; subst. exists l1, l2. auto.
    + destruct (forEach_append key vs ss Hss url (l1 ++ block ++ l2) Hp)
        as (u & Hrun' & Hp' & Hrec & Hnil).
      rewrite Hrun' in Hrun. inversion Hrun; subst u. clear Hrun.
      destruct vs as [| v vs].
      * rewrite (Hnil eq_refl). exists l1, l2. auto.
      * exists l1, (l2 ++ map (fun s => (key, s)) ss).
        rewrite <- !app_assoc in Hp'. rewrite <- !app_assoc in Hrec.
        split; [exact Hp' |].
        rewrite Hrec by discriminate. now apply update_query.
Qed.

Lemma forEach_keeps_block (block : URLSearchParams.t)
    (entries : list (string * QueryValue)) :
  block <> [] ->
  forall url url' : URLObject,
    forallb (fun e => forallb (fun p => negb (URLSearchParams.has_name (fst e) p)) block)
            entries = true ->
    holds_block url block ->
    forEach encode_entry entries url = Normal url' ->
    holds_block url' block.
Proof.
  intro Hne. induction entries as [| e entries IH]; intros url url' Hkeys Hb Hrun.
  - simpl in Hrun. inversion Hrun; subst. exact Hb.
  - simpl in Hkeys. apply andb_true_iff in Hkeys. destruct Hkeys as [He Hkeys].
    rewrite forEach_cons in Hrun.
    destruct (encode_entry url e) as [u1 | |] eqn:Hrun1; try discriminate.
    unfold cbind in Hrun.
    apply (IH u1 url' Hkeys); [| exact Hrun].
    exact (encode_entry_keeps_block block url u1 e Hne He Hb Hrun1).
Qed.

Lemma distinct_after (k : string) (pre post : list string) :
  distinct (pre ++ k :: post) = true -> mem k post = false.
Proof.
  induction pre as [| x pre IH]; simpl.
  - rewrite andb_true_iff, negb_true_iff. tauto.
  - rewrite andb_true_iff. intros [_ H]. auto.
Qed.

Lemma href_split (u : URL.t) :
  URL.href u
  = ((URL.scheme u ++ "://" ++ URL.host u ++ URL.serialize_port (URL.port u)
      ++ URL.serialize_path (URL.path u))
     ++ match URL.query u with Some q => "?" ++ q | None => EmptyString end
     ++ match URL.fragment u with Some f => "#" ++ f | None => EmptyString end)%string.
Proof. unfold URL.href. now rewrite !sapp_assoc. Qed.

Lemma href_includes_block (url : URLObject) (p q : string * string) :
  holds_block url [p; q] ->
  JsString.includes
    (URLSearchParams.serialize_pair p ++ "&" ++ URLSearchParams.serialize_pair q)
    (URL.href (record url)) = true.
Proof.
  intros (l1 & l2 & _ & Hq).
  destruct (serialize_neighbours p q l1 l2) as (before & after & E).
  rewrite href_split, Hq, E.
  set (pat := (URLSearchParams.serialize_pair p ++ "&"
               ++ URLSearchParams.serialize_pair q)%string).
  set (front := (URL.scheme (record url) ++ "://" ++ URL.host (record url)
                 ++ URL.serialize_port (URL.port (record url))
                 ++ URL.serialize_path (URL.path (record url)))%string).
  set (back := match URL.fragment (record url) with
               | Some f => ("#" ++ f)%string
               | None => EmptyString
               end).
  replace (front ++ ("?" ++ before ++ pat ++ after) ++ back)%string
    with ((front ++ "?" ++ before) ++ pat ++ (after ++ back))%string.
  - apply includes_app.
  - rewrite !sapp_assoc. reflexivity.
Qed.

(** The whole loop of lines 87-102 on a mapping that holds [k: [a, b]]. *)
Lemma encode_query_block (url url' : URLObject)
    (pre post : list (string * QueryValue)) (k : string) (a b : Scalar)
    (sa sb : string) :
  toString a = Normal sa ->
  toString b = Normal sb ->
  distinct (map fst (pre ++ (k, Many [a; b]) :: post)) = true ->
  encode_query url (Some (pre ++ (k, Many [a; b]) :: post)) = Normal url' ->
  holds_block url' [(k, sa); (k, sb)].
Proof.
  intros Ha Hb Hd Hrun. unfold encode_query in Hrun.
  rewrite forEach_app in Hrun.
  destruct (forEach encode_entry pre url) as [u1 | |]; unfold cbind at 1 in Hrun;
    try discriminate.
  rewrite forEach_cons in Hrun.
  destruct (encode_entry u1 (k, Many [a; b])) as [u2 | |] eqn:Hrun2;
    try discriminate.
  unfold cbind at 1 in Hrun.
  change (encode_entry u1 (k, Many [a; b]))
    with (forEach (fun u val =>
                     cbind (toString val) (fun s => searchParams_append u k s))
                  [a; b] u1) in Hrun2.
  destruct (forEach_append_inv k [a; b] u1 u2 Hrun2)
    as [E | (l & ss & Hl & _)]; [discriminate |].
  assert (Hss : strings_of [a; b] [sa; sb]) by (repeat constructor; assumption).
  destruct (forEach_append k [a; b] [sa; sb] Hss u1 l Hl)
    as (u2' & Hrun2' & Hp2 & Hrec2 & _).
  rewrite Hrun2' in Hrun2. inversion Hrun2; subst u2'. clear Hrun2.
  assert (Hb2 : holds_block u2 [(k, sa); (k, sb)]).
  { exists l, []. rewrite app_nil_r. split; [exact Hp2 |].
    rewrite Hrec2 by discriminate. simpl map.
    pose proof (update_query (record u1) l [(k, sa); (k, sb)] []) as H.
    rewrite app_nil_r in H. apply H. discriminate. }
  rewrite map_app in Hd. simpl in Hd. apply distinct_after in Hd.
  assert (Hkeys : forallb
            (fun e => forallb (fun p => negb (URLSearchParams.has_name (fst e) p))
                              [(k, sa); (k, sb)]) post = true).
  { apply forallb_forall. intros e He. simpl.
    unfold URLSearchParams.has_name; simpl.
    destruct (String.eqb k (fst e)) eqn:E; auto.
    apply String.eqb_eq in E. exfalso.
    assert (Hm : mem k (map fst post) = true).
    { unfold mem. apply existsb_exists. exists (fst e).
      split; [now apply in_map | rewrite E; apply String.eqb_refl]. }
    congruence. }
  exact (forEach_keeps_block [(k, sa); (k, sb)] post
           ltac:(discriminate) u2 url' Hkeys Hb2 Hrun).
Qed.

Lemma safe_unit (c : ascii) :
  (JsString.is_alnum c || PercentEncode.one_of "*-._" c)%bool = true ->
  URLSearchParams.serialize_unit c = String c EmptyString.
Proof.
  destruct c as [[] [] [] [] [] [] [] []]; vm_compute; intro H;
    reflexivity || discriminate H.
Qed.

Lemma serialize_safe (s : string) :
  url_safe s = true -> URLSearchParams.serialize_string s = s.
Proof.
  unfold url_safe, URLSearchParams.serialize_string.
  induction s as [| c s IH]; auto.
  change (JsString.forallb ?p (String c s)) with (p c && JsString.forallb p s)%bool.
  rewrite andb_true_iff. intros [Hc Hs].
  change (JsString.flat_map URLSearchParams.serialize_unit (String c s))
    with (URLSearchParams.serialize_unit c
          ++ JsString.flat_map URLSearchParams.serialize_unit s)%string.
  rewrite (safe_unit c Hc), (IH Hs). reflexivity.
Qed.

End QueryEncoding.

(** An integer literal stands for its value. *)
Lemma integer_value_of_Z (n : Z) : integer_value (Number_of_Z n) = Some n.
Proof.
  unfold integer_value, Number_of_Z. simpl.
  rewrite N2Z.inj_abs_N. f_equal.
  destruct (Z.ltb_spec n 0); lia.
Qed.

Lemma Number_toString_of_Z (n : Z) :
  (Z.abs n < 2 ^ 53)%Z ->
  Number_toString (Number_of_Z n) = Normal (NilZero.string_of_int (Z.to_int n)).
Proof.
  intro H. unfold Number_toString.
  change (match Number_of_Z n with
          | NaN => ?a | Infinity false => ?b | Infinity true => ?c
          | Finite _ _ _ => ?d end) with d.
  rewrite integer_value_of_Z.
  apply Z.ltb_lt in H. now rewrite H.
Qed.

(** The decimal numeral written for an integer reads back as it. *)
Lemma decimal_reads_back (n : Z) :
  option_map Z.of_int (NilZero.int_of_string (NilZero.string_of_int (Z.to_int n)))
  = Some n.
Proof.
  rewrite NilZero.isi.
  - simpl. f_equal. apply DecimalZ.of_to.
  - destruct n; simpl; try discriminate.
    intro H. inversion H. now apply (DecimalPos.Unsigned.to_uint_nonnil p).
  - destruct n; simpl; try discriminate.
    intro H. inversion H. now apply (DecimalPos.Unsigned.to_uint_nonnil p).
Qed.

(** C5. An entry whose value is a list appends one pair per element, in
    the order of the list, all under the entry's name; an entry whose
    value is a scalar sets one pair for its name, replacing the pairs of
    that name there were and leaving the pairs of other names; scalars
    enter as their string representation: a string as it is, an integer
    Number below [2^53] in magnitude as its decimal numeral.  The URL of
    the outbound request of a call whose query holds [k: [a, b]] contains
    the encoded [k=a&k=b], which is literally [k=a&k=b] when the three
    strings need no encoding. *)
Theorem query_encoding :
  (forall (url : URLObject) (l : URLSearchParams.t) (key : string)
          (vs : list Scalar) (ss : list string),
      params url = Some l ->
      strings_of vs ss ->
      exists url',
        encode_entry url (key, Many vs) = Normal url' /\
        params url' = Some (l ++ map (fun s => (key, s)) ss))
  /\
  (forall (url : URLObject) (l : URLSearchParams.t) (key : string) (v : Scalar)
          (s : string),
      params url = Some l ->
      toString v = Normal s ->
      exists url' l',
        encode_entry url (key, One v) = Normal url' /\
        params url' = Some l' /\
        filter (URLSearchParams.has_name key) l' = [(key, s)] /\
        filter (fun q => negb (URLSearchParams.has_name key q)) l'
        = filter (fun q => negb (URLSearchParams.has_name key q)) l /\
        URL.query (record url') = Some (URLSearchParams.serialize l'))
  /\
  (forall (args : Args) (w : World) (url : string) (init : FetchInit)
          (pre post : list (string * QueryValue)) (k : string) (a b : Scalar)
          (sa sb : string),
      query args = Some (pre ++ (k, Many [a; b]) :: post) ->
      distinct (map fst (pre ++ (k, Many [a; b]) :: post)) = true ->
      toString a = Normal sa ->
      toString b = Normal sb ->
      fst (outbound NOOKIPEDIA_API_VERSION args w) = Normal (url, init) ->
      JsString.includes
        (URLSearchParams.serialize_pair (k, sa) ++ "&"
         ++ URLSearchParams.serialize_pair (k, sb)) url = true /\
      (url_safe k = true -> url_safe sa = true -> url_safe sb = true ->
       JsString.includes (k ++ "=" ++ sa ++ "&" ++ k ++ "=" ++ sb) url = true))
  /\
  (forall s : string, toString (SString s) = Normal s)
  /\
  (forall n : Z,
      (Z.abs n < 2 ^ 53)%Z ->
      exists s,
        toString (SNumber n) = Normal s /\
        option_map Z.of_int (NilZero.int_of_string s) = Some n).
Proof.
  split; [| split; [| split; [| split]]].
  - intros url l key vs ss Hl Hss.
    destruct (forEach_append key vs ss Hss url l Hl) as (url' & Hrun & Hp & _).
    exists url'. auto.
  - intros url l key v s Hl Hs. simpl. rewrite Hs.
    unfold cbind, searchParams_set, with_params. rewrite Hl.
    eexists. eexists. split; [reflexivity |]. simpl.
    split; [reflexivity |].
    split; [apply set_single |].
    split; [apply set_others |].
    destruct (URLSearchParams.set l key s) eqn:E; auto.
    destruct l as [| p l]; simpl in E; [discriminate |].
    destruct (URLSearchParams.has_name key p); discriminate.
  - intros args w url init pre post k a b sa sb Hq Hd Ha Hb Hout.
    destruct (outbound_inv _ _ _ _ _ Hout) as (u0 & u & H0 & _ & Henc & Hurl & _).
    rewrite Hq in Henc.
    pose proof (encode_query_block u0 u pre post k a b sa sb Ha Hb Hd Henc) as Hbl.
    pose proof (href_includes_block u _ _ Hbl) as Hin.
    subst url. split; [exact Hin |].
    intros Hk Hsa Hsb.
    unfold URLSearchParams.serialize_pair in Hin. simpl fst in Hin. simpl snd in Hin.
    rewrite !serialize_safe in Hin by assumption.
    rewrite !sapp_assoc in Hin. exact Hin.
  - reflexivity.
  - intros n Hn. eexists. split.
    + apply (Number_toString_of_Z n Hn).
    + apply decimal_reads_back.
Qed.

Lemma query_encoding_witness :
  JsString.includes "material=a&material=b"
                    "https://api.nookipedia.com/nh/recipes?material=a&material=b"
  = true.
Proof.
  apply (proj1 (proj2 (proj2 query_encoding))
           (recipesByMaterial "a" "b") (fresh "apiKey" None)
           "https://api.nookipedia.com/nh/recipes?material=a&material=b"
           {| headers := [("Accept-Version", "1.0.0"); ("X-API-KEY", "apiKey")];
              other := [] |}
           [] [] "material" (SString "a") (SString "b") "a" "b");
    reflexivity.
Defined.

(** ** Reading back the URL that is sent *)

Section Canonical.
Import JsString PercentEncode.
#[local] Arguments Ascii.eqb : simpl never.

Lemma forallb_sapp (p : ascii -> bool) (a b : string) :
  JsString.forallb p (a ++ b) = (JsString.forallb p a && JsString.forallb p b)%bool.
Proof.
  induction a as [| c a IH]; simpl; [reflexivity |].
  now rewrite IH, andb_assoc.
Qed.

Lemma forallb_cons (p : ascii -> bool) (c : ascii) (s : string) :
  JsString.forallb p (String c s) = (p c && JsString.forallb p s)%bool.
Proof. reflexivity. Qed.

Lemma forallb_impl (p q : ascii -> bool) (s : string) :
  (forall c, p c = true -> q c = true) ->
  JsString.forallb p s = true -> JsString.forallb q s = true.
Proof.
  intro H. induction s as [| c s IH]; auto.
  rewrite !forallb_cons, !andb_true_iff. intros [Hc Hs]. auto.
Qed.

(** *** Input that the clean-up leaves as it is *)

Lemma visible_not_tab (c : ascii) :
  visible c = true -> URL.is_tab_or_newline c = false.
Proof.
  destruct c as [[] [] [] [] [] [] [] []]; vm_compute; intro H;
    reflexivity || discriminate H.
Qed.

Lemma strip_leading_visible (s : string) :
  JsString.forallb visible s = true -> URL.strip_leading s = s.
Proof.
  destruct s as [| c s]; auto.
  rewrite forallb_cons, andb_true_iff. intros [Hc _].
  unfold visible in Hc. apply negb_true_iff in Hc.
  simpl. now rewrite Hc.
Qed.

Lemma strip_trailing_all_visible (s : string) :
  JsString.forallb visible s = true -> URL.strip_trailing s = s.
Proof.
  induction s as [| c s IH]; auto.
  rewrite forallb_cons, andb_true_iff. intros [Hc Hs].
  unfold visible in Hc. apply negb_true_iff in Hc.
  simpl. rewrite (IH Hs), Hc. destruct s; reflexivity.
Qed.

Lemma filter_visible (s : string) :
  JsString.forallb visible s = true ->
  JsString.filter (fun c => negb (URL.is_tab_or_newline c)) s = s.
Proof.
  induction s as [| c s IH]; auto.
  rewrite forallb_cons, andb_true_iff. intros [Hc Hs].
  simpl. rewrite (visible_not_tab c Hc). simpl. now rewrite IH.
Qed.

Lemma preprocess_visible (s : string) :
  JsString.forallb visible s = true -> URL.preprocess s = s.
Proof.
  intro H. unfold URL.preprocess.
  now rewrite strip_leading_visible, strip_trailing_all_visible, filter_visible.
Qed.

(** *** The scheme *)

Lemma special_schemes (sch : string) :
  URL.is_special sch = true -> String.eqb sch "file" = false ->
  sch = "ftp" \/ sch = "http" \/ sch = "https" \/ sch = "ws" \/ sch = "wss".
Proof.
  unfold URL.is_special, URL.default_port. intros H Hf. rewrite Hf in H. simpl in H.
  destruct (String.eqb_spec sch "ftp"); [tauto |].
  destruct (String.eqb_spec sch "http"); [tauto |].
  destruct (String.eqb_spec sch "https"); [tauto |].
  destruct (String.eqb_spec sch "ws"); [tauto |].
  destruct (String.eqb_spec sch "wss"); [tauto |].
  discriminate H.
Qed.

Lemma scan_special_scheme (sch rest : string) :
  URL.is_special sch = true -> String.eqb sch "file" = false ->
  URL.scan_scheme (sch ++ String ":" rest) = Some (sch, rest) /\
  JsString.forallb visible sch = true.
Proof.
  intros H Hf.
  destruct (special_schemes sch H Hf) as [E | [E | [E | [E | E]]]]; subst sch;
    split; reflexivity.
Qed.


(** *** The host *)

Lemma to_lower_idem (c : ascii) : to_lower (to_lower c) = to_lower c.
Proof. destruct c as [[] [] [] [] [] [] [] []]; reflexivity. Qed.

Lemma lowercase_idem (s : string) : lowercase (lowercase s) = lowercase s.
Proof.
  unfold lowercase. induction s as [| c s IH]; simpl; auto.
  now rewrite to_lower_idem, IH.
Qed.

Lemma to_lower_ascii (c : ascii) :
  (N.leb 128 (code (to_lower c)) || Ascii.eqb (to_lower c) "%")%bool
  = (N.leb 128 (code c) || Ascii.eqb c "%")%bool.
Proof. destruct c as [[] [] [] [] [] [] [] []]; reflexivity. Qed.

Lemma lowercase_ascii (s : string) :
  existsb (fun c => (N.leb 128 (code c) || Ascii.eqb c "%")%bool) (lowercase s)
  = existsb (fun c => (N.leb 128 (code c) || Ascii.eqb c "%")%bool) s.
Proof.
  unfold lowercase. induction s as [| c s IH]; simpl; auto.
  now rewrite to_lower_ascii, IH.
Qed.

Lemma host_parse_inv (x d : string) :
  URL.host_parse x = Normal d ->
  d = lowercase x /\
  existsb (fun c => (N.leb 128 (code c) || Ascii.eqb c "%")%bool) x = false /\
  includes "xn--" d = false /\
  existsb URL.forbidden_domain d = false /\
  URL.starts_with_digit (URL.last_label d) = false.
Proof.
  unfold URL.host_parse.
  destruct (existsb _ x); [discriminate |].
  destruct (includes "xn--" (lowercase x)) eqn:E1; [discriminate |].
  destruct (existsb URL.forbidden_domain (lowercase x)) eqn:E2; [discriminate |].
  destruct (URL.starts_with_digit (URL.last_label (lowercase x))) eqn:E3;
    [discriminate |].
  intro H. inversion H; subst d. auto.
Qed.

Lemma host_parse_fixed (x d : string) :
  URL.host_parse x = Normal d -> URL.host_parse d = Normal d.
Proof.
  intro H. destruct (host_parse_inv x d H) as (Hd & H0 & H1 & H2 & H3).
  unfold URL.host_parse.
  assert (Hl : lowercase d = d) by (subst d; apply lowercase_idem).
  rewrite Hl, H1, H2, H3.
  replace (existsb _ d) with false; [reflexivity |].
  subst d. now rewrite lowercase_ascii.
Qed.

Lemma canonical_host_inv (h : string) :
  canonical_host h = true ->
  URL.host_parse h = Normal h /\ h <> EmptyString /\
  existsb URL.forbidden_domain h = false.
Proof.
  unfold canonical_host.
  destruct (URL.host_parse h) as [d | |] eqn:E; try discriminate.
  rewrite andb_true_iff, negb_true_iff. intros [Hd Hne].
  apply String.eqb_eq in Hd. subst d.
  apply String.eqb_neq in Hne.
  destruct (host_parse_inv h h E) as (_ & _ & _ & H2 & _). auto.
Qed.

Lemma host_parse_canonical (x d : string) :
  URL.host_parse x = Normal d -> x <> EmptyString -> canonical_host d = true.
Proof.
  intros H Hne. unfold canonical_host.
  rewrite (host_parse_fixed x d H), String.eqb_refl. simpl.
  apply negb_true_iff, String.eqb_neq.
  destruct (host_parse_inv x d H) as (Hd & _). subst d.
  destruct x; [congruence | discriminate].
Qed.

Lemma host_unit_facts (c : ascii) :
  negb (URL.forbidden_domain c) = true ->
  URL.is_authority_end c = false /\ Ascii.eqb ":" c = false /\
  Ascii.eqb "@" c = false /\ Ascii.eqb "[" c = false /\
  visible c = true /\ URL.is_slash c = false.
Proof.
  destruct c as [[] [] [] [] [] [] [] []]; vm_compute; intro H;
    try discriminate H; repeat split; reflexivity.
Qed.

(** *** The port *)

Lemma digit_facts (c : ascii) :
  is_digit c = true ->
  URL.is_authority_end c = false /\ Ascii.eqb "@" c = false /\
  Ascii.eqb "[" c = false /\ visible c = true.
Proof.
  destruct c as [[] [] [] [] [] [] [] []]; vm_compute; intro H;
    try discriminate H; repeat split; reflexivity.
Qed.

Lemma to_uint_nonnil (p : N) : N.to_uint p <> Decimal.Nil.
Proof.
  destruct p as [| p]; [discriminate |].
  apply DecimalPos.Unsigned.to_uint_nonnil.
Qed.

Lemma string_of_uint_nonnil (d : Decimal.uint) :
  d <> Decimal.Nil -> NilZero.string_of_uint d = NilEmpty.string_of_uint d.
Proof. destruct d; [congruence | reflexivity ..]. Qed.

Lemma string_of_uint_digits (d : Decimal.uint) :
  JsString.forallb is_digit (NilEmpty.string_of_uint d) = true.
Proof.
  induction d; cbn [NilEmpty.string_of_uint JsString.forallb]; auto;
    rewrite IHd; reflexivity.
Qed.

Lemma decimal_acc (d : Decimal.uint) :
  forall acc : positive,
    fold_left (fun acc c => (10 * acc + (code c - 48))%N)
              (list_ascii_of_string (NilEmpty.string_of_uint d)) (N.pos acc)
    = N.pos (Pos.of_uint_acc d acc).
Proof.
  induction d; intro acc;
    cbn [NilEmpty.string_of_uint list_ascii_of_string fold_left Pos.of_uint_acc];
    auto; rewrite <- IHd; f_equal; vm_compute code; lia.
Qed.

Lemma decimal_of_uint (d : Decimal.uint) :
  URL.decimal (NilEmpty.string_of_uint d) = Pos.of_uint d.
Proof.
  unfold URL.decimal.
  induction d;
    cbn [NilEmpty.string_of_uint list_ascii_of_string fold_left Pos.of_uint];
    auto;
    (rewrite <- decimal_acc; f_equal; vm_compute code; lia)
    || (rewrite <- IHd; f_equal).
Qed.

Lemma port_digits (p : N) :
  NilZero.string_of_uint (N.to_uint p) = NilEmpty.string_of_uint (N.to_uint p) /\
  JsString.forallb is_digit (NilZero.string_of_uint (N.to_uint p)) = true /\
  URL.decimal (NilZero.string_of_uint (N.to_uint p)) = p /\
  NilZero.string_of_uint (N.to_uint p) <> EmptyString.
Proof.
  pose proof (string_of_uint_nonnil _ (to_uint_nonnil p)) as E.
  split; [exact E |]. rewrite E.
  split; [apply string_of_uint_digits |].
  split; [rewrite decimal_of_uint; apply DecimalN.Unsigned.of_to |].
  pose proof (to_uint_nonnil p) as H.
  destruct (N.to_uint p); try discriminate; congruence.
Qed.

Lemma port_parse_digits (sch : string) (p : N) :
  canonical_port sch (Some p) = true ->
  URL.port_parse sch (NilZero.string_of_uint (N.to_uint p)) = Normal (Some p).
Proof.
  unfold canonical_port, URL.port_parse.
  rewrite andb_true_iff, negb_true_iff. intros [Hle Hd].
  destruct (port_digits p) as (_ & Hdig & Hdec & Hne).
  rewrite Hdig, Hdec.
  destruct (NilZero.string_of_uint (N.to_uint p)); [congruence |].
  apply N.leb_le in Hle.
  destruct (N.ltb_spec 65535 p); [lia |].
  destruct (URL.default_port sch); [now rewrite Hd | reflexivity].
Qed.

Lemma port_parse_canonical (sch digits : string) (port : option N) :
  URL.port_parse sch digits = Normal port -> canonical_port sch port = true.
Proof.
  unfold URL.port_parse, canonical_port.
  destruct (JsString.forallb is_digit digits); [| discriminate].
  destruct digits; [intro H; inversion H; reflexivity |].
  destruct (N.ltb_spec 65535 (URL.decimal (String a digits))); [discriminate |].
  destruct (URL.default_port sch) as [d |].
  - destruct (N.eqb d (URL.decimal (String a digits))) eqn:E;
      intro H'; inversion H'; subst; auto.
    rewrite E. apply andb_true_iff. split; [now apply N.leb_le | reflexivity].
  - intro H'; inversion H'; subst. rewrite andb_true_r. now apply N.leb_le.
Qed.


(** *** The path, the query and the fragment *)

Lemma span_app (p : ascii -> bool) (a b : string) :
  JsString.forallb p a = true ->
  match b with String c _ => p c = false | EmptyString => True end ->
  URL.span p (a ++ b) = (a, b).
Proof.
  intros Ha Hb. induction a as [| c a IH].
  - simpl. destruct b as [| c r]; [reflexivity |]. simpl. now rewrite Hb.
  - rewrite forallb_cons, andb_true_iff in Ha. destruct Ha as [Hc Ha].
    simpl. rewrite Hc, (IH Ha). reflexivity.
Qed.

Lemma path_unit_facts (c : ascii) :
  path_unit c = true ->
  URL.is_slash c = false /\ Ascii.eqb c "?" = false /\ Ascii.eqb c "#" = false /\
  utf8_percent_encode path_set c = String c EmptyString /\ visible c = true.
Proof.
  destruct c as [[] [] [] [] [] [] [] []]; vm_compute; intro H;
    try discriminate H; repeat split; reflexivity.
Qed.

Lemma query_unit_facts (c : ascii) :
  query_unit c = true ->
  Ascii.eqb c "#" = false /\
  utf8_percent_encode special_query_set c = String c EmptyString /\
  visible c = true.
Proof.
  destruct c as [[] [] [] [] [] [] [] []]; vm_compute; intro H;
    try discriminate H; repeat split; reflexivity.
Qed.

Lemma fragment_unit_facts (c : ascii) :
  fragment_unit c = true ->
  utf8_percent_encode fragment_set c = String c EmptyString /\ visible c = true.
Proof.
  destruct c as [[] [] [] [] [] [] [] []]; vm_compute; intro H;
    try discriminate H; repeat split; reflexivity.
Qed.

Lemma path_state_units (s : string) :
  JsString.forallb path_unit s = true ->
  forall (rest buffer : string) (path : list string),
    URL.path_state (s ++ rest) buffer path = URL.path_state rest (buffer ++ s) path.
Proof.
  induction s as [| c s IH]; intros H rest buffer path.
  - now rewrite sapp_nil_r.
  - rewrite forallb_cons, andb_true_iff in H. destruct H as [Hc Hs].
    destruct (path_unit_facts c Hc) as (Hsl & Hq & Hf & Henc & _).
    cbn [append URL.path_state]. rewrite Hsl, Hq, Hf, Henc, (IH Hs).
    now rewrite sapp_assoc.
Qed.

Lemma push_canonical (seg : string) (at_slash : bool) (path : list string) :
  canonical_segment seg = true ->
  URL.push_segment seg at_slash path = path ++ [seg].
Proof.
  unfold canonical_segment, URL.push_segment.
  rewrite andb_true_iff, negb_true_iff, orb_false_iff. intros [_ [H1 H2]].
  now rewrite H1, H2.
Qed.

(** The path state on a serialized path; [T] is what follows and [tl]
    what the path state makes of it. *)
Lemma path_state_serialized (T : string) (tl : URL.tail) :
  (forall buffer path,
      URL.path_state T buffer path = (URL.push_segment buffer false path, tl)) ->
  forall (segs : list string) (seg : string) (done : list string),
    List.forallb canonical_segment (seg :: segs) = true ->
    URL.path_state (seg ++ URL.serialize_path segs ++ T) EmptyString done
    = (done ++ seg :: segs, tl).
Proof.
  intro HT. induction segs as [| s2 segs IH]; intros seg done H.
  - simpl in H. rewrite andb_true_r in H.
    pose proof H as Hseg. unfold canonical_segment in Hseg.
    apply andb_true_iff in Hseg. destruct Hseg as [Hu _].
    simpl URL.serialize_path. cbn [append].
    rewrite (path_state_units seg Hu), HT. cbn [append].
    now rewrite push_canonical.
  - cbn [List.forallb] in H. apply andb_true_iff in H. destruct H as [Hseg H].
    pose proof Hseg as Hseg'. unfold canonical_segment in Hseg'.
    apply andb_true_iff in Hseg'. destruct Hseg' as [Hu _].
    cbn [URL.serialize_path fold_right].
    rewrite (path_state_units seg Hu). cbn [append].
    change (URL.path_state (String "/" ?r) ?b ?p)
      with (URL.path_state r EmptyString (URL.push_segment b true p)).
    rewrite push_canonical by exact Hseg.
    rewrite sapp_assoc.
    replace (done ++ seg :: s2 :: segs) with ((done ++ [seg]) ++ s2 :: segs)
      by (rewrite <- app_assoc; reflexivity).
    exact (IH s2 (done ++ [seg]) H).
Qed.

Lemma flat_map_units (set : ascii -> bool) (s : string) :
  JsString.forallb (fun c => negb (set c)) s = true ->
  flat_map (utf8_percent_encode set) s = s.
Proof.
  induction s as [| c s IH]; auto.
  rewrite forallb_cons, andb_true_iff, negb_true_iff. intros [Hc Hs].
  cbn [flat_map]. unfold utf8_percent_encode at 1. rewrite Hc, (IH Hs). reflexivity.
Qed.

Lemma query_state_serialized (q : string) (f : option string) :
  JsString.forallb query_unit q = true ->
  match f with Some x => JsString.forallb fragment_unit x = true | None => True end ->
  URL.query_state
    (q ++ match f with Some x => String "#" x | None => EmptyString end)
  = (q, f).
Proof.
  intros Hq Hf. unfold URL.query_state.
  rewrite span_app.
  - rewrite (flat_map_units special_query_set q Hq).
    destruct f as [x |]; [| reflexivity].
    unfold URL.fragment_state. now rewrite (flat_map_units fragment_set x Hf).
  - apply (forallb_impl query_unit); [| exact Hq].
    intros c Hc. destruct (query_unit_facts c Hc) as (H & _). now rewrite H.
  - destruct f; [reflexivity | exact I].
Qed.


(** *** Parsing a serialized URL *)

Lemma split_first_unit (x : ascii) (s rest : string) :
  includes_char x s = false ->
  split_first (String x EmptyString) (s ++ String x rest) = Some (s, rest).
Proof.
  unfold includes_char.
  induction s as [| c s IH].
  - intros _. cbn [append]. rewrite split_first_cons.
    cbn [starts_with]. now rewrite Ascii.eqb_refl.
  - rewrite existsb_cons. intro H. apply orb_false_elim in H. destruct H as [Hc Hs].
    cbn [append]. rewrite split_first_cons.
    cbn [starts_with]. rewrite Hc, (IH Hs). reflexivity.
Qed.

Lemma split_first_absent (x : ascii) (s : string) :
  includes_char x s = false ->
  split_first (String x EmptyString) s = None.
Proof.
  unfold includes_char.
  induction s as [| c s IH]; [reflexivity |].
  rewrite existsb_cons. intro H. apply orb_false_elim in H. destruct H as [Hc Hs].
  rewrite split_first_cons. cbn [starts_with]. now rewrite Hc, (IH Hs).
Qed.

Lemma existsb_none (p : ascii -> bool) (s : string) :
  JsString.forallb (fun c => negb (p c)) s = true -> existsb p s = false.
Proof.
  induction s as [| c s IH]; auto.
  rewrite forallb_cons, existsb_cons, andb_true_iff, negb_true_iff.
  intros [Hc Hs]. now rewrite Hc, IH.
Qed.

Lemma forallb_none (p : ascii -> bool) (s : string) :
  existsb p s = false -> JsString.forallb (fun c => negb (p c)) s = true.
Proof.
  induction s as [| c s IH]; auto.
  rewrite forallb_cons, existsb_cons, orb_false_iff.
  intros [Hc Hs]. now rewrite Hc, IH.
Qed.

Lemma serialize_path_cons (seg : string) (path : list string) :
  URL.serialize_path (seg :: path) = String "/" (seg ++ URL.serialize_path path).
Proof. reflexivity. Qed.

Lemma visible_serialize_path (path : list string) :
  List.forallb canonical_segment path = true ->
  JsString.forallb visible (URL.serialize_path path) = true.
Proof.
  induction path as [| seg path IH]; [reflexivity |].
  cbn [List.forallb]. rewrite andb_true_iff. intros [Hseg Hpath].
  unfold canonical_segment in Hseg. apply andb_true_iff in Hseg.
  destruct Hseg as [Hu _].
  rewrite serialize_path_cons, forallb_cons, forallb_sapp, (IH Hpath), andb_true_r.
  apply (forallb_impl path_unit); [| exact Hu].
  intros c Hc. now destruct (path_unit_facts c Hc) as (_ & _ & _ & _ & H).
Qed.

(** The authority of a serialized URL: the host and the port. *)
Lemma authority_units (h : string) (port : option N) :
  existsb URL.forbidden_domain h = false ->
  JsString.forallb (fun c => negb (URL.is_authority_end c))
                   (h ++ URL.serialize_port port) = true /\
  includes_char "@" (h ++ URL.serialize_port port) = false /\
  includes_char "[" (h ++ URL.serialize_port port) = false /\
  JsString.forallb visible (h ++ URL.serialize_port port) = true /\
  includes_char ":" h = false.
Proof.
  intro Hh. apply forallb_none in Hh.
  unfold includes_char.
  assert (Hd : JsString.forallb is_digit
                 match port with
                 | Some p => NilZero.string_of_uint (N.to_uint p)
                 | None => EmptyString
                 end = true).
  { destruct port as [p |]; [| reflexivity]. now destruct (port_digits p) as (_ & H & _). }
  assert (Hp : URL.serialize_port port
               = match port with
                 | Some p => String ":" (NilZero.string_of_uint (N.to_uint p))
                 | None => EmptyString
                 end) by (destruct port; reflexivity).
  rewrite Hp. clear Hp.
  split; [| split; [| split; [| split]]].
  - rewrite forallb_sapp. apply andb_true_iff. split; [by_units forallb_impl host_unit_facts Hh |].
    destruct port; [| reflexivity]. rewrite forallb_cons.
    apply andb_true_iff. split; [reflexivity | by_units forallb_impl digit_facts Hd].
  - rewrite existsb_app. apply orb_false_iff. split; apply existsb_none;
      [by_units forallb_impl host_unit_facts Hh |].
    destruct port; [| reflexivity]. rewrite forallb_cons.
    apply andb_true_iff. split; [reflexivity | by_units forallb_impl digit_facts Hd].
  - rewrite existsb_app. apply orb_false_iff. split; apply existsb_none;
      [by_units forallb_impl host_unit_facts Hh |].
    destruct port; [| reflexivity]. rewrite forallb_cons.
    apply andb_true_iff. split; [reflexivity | by_units forallb_impl digit_facts Hd].
  - rewrite forallb_sapp. apply andb_true_iff. split; [by_units forallb_impl host_unit_facts Hh |].
    destruct port; [| reflexivity]. rewrite forallb_cons.
    apply andb_true_iff. split; [reflexivity | by_units forallb_impl digit_facts Hd].
  - apply existsb_none. by_units forallb_impl host_unit_facts Hh.
Qed.


(** A canonical URL record is what its serialization parses to. *)
Lemma parse_href (u : URL.t) :
  canonical u = true -> URL.parse (URL.href u) None = Normal u.
Proof.
  destruct u as [sch h port path q f]. unfold canonical, URL.href.
  cbn [URL.scheme URL.host URL.port URL.path URL.query URL.fragment].
  rewrite !andb_true_iff, negb_true_iff.
  intros [[[[[[[Hsp Hfile] Hhost] Hport] Hne] Hpath] Hq] Hf].
  destruct (canonical_host_inv h Hhost) as (Hparse & Hhne & Hforb).
  destruct (authority_units h port Hforb) as (Hend & Hat & Hbr & Hvis & Hcolon).
  destruct path as [| seg segs]; [discriminate |]. clear Hne.
  set (Q := match q with Some x => ("?" ++ x)%string | None => EmptyString end).
  set (F := match f with Some x => ("#" ++ x)%string | None => EmptyString end).
  assert (HvQ : JsString.forallb visible Q = true).
  { subst Q. destruct q as [x |]; [| reflexivity].
    change ("?" ++ x)%string with (String "?" x). rewrite forallb_cons.
    apply andb_true_iff. split; [reflexivity |].
    by_units forallb_impl query_unit_facts Hq. }
  assert (HvF : JsString.forallb visible F = true).
  { subst F. destruct f as [x |]; [| reflexivity].
    change ("#" ++ x)%string with (String "#" x). rewrite forallb_cons.
    apply andb_true_iff. split; [reflexivity |].
    by_units forallb_impl fragment_unit_facts Hf. }
  destruct (scan_special_scheme sch
              (String "/" (String "/" (h ++ URL.serialize_port port
                                         ++ URL.serialize_path (seg :: segs)
                                         ++ Q ++ F)))
              Hsp Hfile) as [Hscan Hvsch].
  change (sch ++ "://" ++ ?r)%string
    with (sch ++ String ":" (String "/" (String "/" r)))%string.
  unfold URL.parse.
  rewrite preprocess_visible.
  2:{ rewrite forallb_sapp, Hvsch. cbn [andb].
      rewrite !forallb_cons. change (visible ":") with true.
      change (visible "/") with true. cbn [andb].
      rewrite <- sapp_assoc, forallb_sapp, Hvis. cbn [andb].
      rewrite !forallb_sapp, HvQ, HvF, visible_serialize_path by exact Hpath.
      reflexivity. }
  rewrite Hscan, Hfile, Hsp.
  unfold URL.special_authority.
  assert (Hskip : snd (URL.span URL.is_slash
                         (String "/" (String "/"
                            (h ++ URL.serialize_port port
                               ++ URL.serialize_path (seg :: segs) ++ Q ++ F))))
                  = (h ++ URL.serialize_port port
                       ++ URL.serialize_path (seg :: segs) ++ Q ++ F)%string).
  { destruct h as [| c h']; [congruence |].
    cbn [existsb] in Hforb. apply orb_false_iff in Hforb. destruct Hforb as [Hc _].
    assert (Hnc : negb (URL.forbidden_domain c) = true) by now rewrite Hc.
    destruct (host_unit_facts c Hnc) as (_ & _ & _ & _ & _ & Hsl).
    cbn [append URL.span]. change (URL.is_slash "/") with true. cbv iota.
    rewrite Hsl. reflexivity. }
  rewrite Hskip. clear Hskip.
  unfold URL.authority_state.
  rewrite <- sapp_assoc.
  rewrite (span_app _ (h ++ URL.serialize_port port)
             (URL.serialize_path (seg :: segs) ++ Q ++ F)%string);
    [| exact Hend | rewrite serialize_path_cons; reflexivity].
  rewrite Hat, Hbr. cbn [orb].
  assert (Hsplit :
    match split_first ":" (h ++ URL.serialize_port port) with
    | Some (h0, d) => (h0, Some d)
    | None => ((h ++ URL.serialize_port port)%string, None)
    end
    = (h, match port with
          | Some p => Some (NilZero.string_of_uint (N.to_uint p))
          | None => None
          end)).
  { destruct port as [p |].
    - unfold URL.serialize_port.
      change (":" ++ ?d)%string with (String ":" d).
      now rewrite (split_first_unit ":" h _ Hcolon).
    - unfold URL.serialize_port. rewrite sapp_nil_r.
      now rewrite (split_first_absent ":" h Hcolon). }
  rewrite Hsplit. clear Hsplit.
  destruct h as [| c h']; [congruence |].
  rewrite Hparse. cbn [cbind].
  assert (Hpp : match port with
                | Some p => URL.port_parse sch (NilZero.string_of_uint (N.to_uint p))
                | None => Normal None
                end = Normal port).
  { destruct port as [p |]; [| reflexivity]. now apply port_parse_digits. }
  replace (match
              match port with
              | Some p => Some (NilZero.string_of_uint (N.to_uint p))
              | None => None
              end
            with
            | Some d => URL.port_parse sch d
            | None => Normal None
            end) with (Normal port)
    by (rewrite <- Hpp; destruct port; reflexivity).
  cbn [cbind].
  rewrite serialize_path_cons.
  change (String "/" (seg ++ URL.serialize_path segs) ++ Q ++ F)%string
    with (String "/" ((seg ++ URL.serialize_path segs) ++ Q ++ F)).
  cbv beta iota. change (URL.is_slash "/") with true. cbv beta iota.
  rewrite sapp_assoc.
  f_equal.
  destruct q as [x |]; [| destruct f as [y |]]; subst Q F.
  - rewrite (path_state_serialized
               (("?" ++ x) ++ match f with
                              | Some y => ("#" ++ y)%string
                              | None => EmptyString
                              end)%string
               (URL.TQuery (x ++ match f with
                                 | Some y => String "#" y
                                 | None => EmptyString
                                 end)) ltac:(intros; destruct f; reflexivity)
               segs seg [] Hpath).
    unfold URL.finish. cbn [fst snd app].
    rewrite query_state_serialized; [reflexivity | exact Hq |].
    destruct f; [exact Hf | exact I].
  - rewrite (path_state_serialized (EmptyString ++ "#" ++ y)%string
               (URL.TFragment y) ltac:(intros; reflexivity) segs seg [] Hpath).
    unfold URL.finish, URL.fragment_state. cbn [fst snd app].
    now rewrite (flat_map_units fragment_set y Hf).
  - rewrite (path_state_serialized (EmptyString ++ EmptyString)%string
               URL.TEnd ltac:(intros; reflexivity) segs seg [] Hpath).
    reflexivity.
Qed.


(** *** What the parser gives is canonical *)

Lemma encoded_path_units (c : ascii) :
  URL.is_slash c = false ->
  JsString.forallb path_unit (utf8_percent_encode path_set c) = true.
Proof.
  destruct c as [[] [] [] [] [] [] [] []]; vm_compute; intro H;
    reflexivity || discriminate H.
Qed.

Lemma encoded_query_units (c : ascii) :
  negb (Ascii.eqb c "#") = true ->
  JsString.forallb query_unit (utf8_percent_encode special_query_set c) = true.
Proof.
  destruct c as [[] [] [] [] [] [] [] []]; vm_compute; intro H;
    reflexivity || discriminate H.
Qed.

Lemma encoded_fragment_units (c : ascii) :
  JsString.forallb fragment_unit (utf8_percent_encode fragment_set c) = true.
Proof. destruct c as [[] [] [] [] [] [] [] []]; reflexivity. Qed.

Lemma flat_map_forallb (p q : ascii -> bool) (f : ascii -> string) (s : string) :
  (forall c, p c = true -> JsString.forallb q (f c) = true) ->
  JsString.forallb p s = true -> JsString.forallb q (flat_map f s) = true.
Proof.
  intro H. induction s as [| c s IH]; auto.
  rewrite forallb_cons, andb_true_iff. intros [Hc Hs].
  cbn [flat_map]. rewrite forallb_sapp, (H c Hc), (IH Hs). reflexivity.
Qed.

Lemma span_fst (p : ascii -> bool) (s : string) :
  JsString.forallb p (fst (URL.span p s)) = true.
Proof.
  induction s as [| c s IH]; auto.
  simpl. destruct (p c) eqn:E; [| reflexivity].
  destruct (URL.span p s) as [a b]. simpl in *. now rewrite E, IH.
Qed.

Lemma forallb_removelast {A : Type} (p : A -> bool) (l : list A) :
  List.forallb p l = true -> List.forallb p (removelast l) = true.
Proof.
  induction l as [| x l IH]; auto.
  cbn [List.forallb]. rewrite andb_true_iff. intros [Hx Hl].
  destruct l as [| y l']; [reflexivity |].
  change (removelast (x :: y :: l')) with (x :: removelast (y :: l')).
  cbn [List.forallb]. now rewrite Hx, (IH Hl).
Qed.

Lemma forallb_snoc {A : Type} (p : A -> bool) (l : list A) (x : A) :
  List.forallb p l = true -> p x = true -> List.forallb p (l ++ [x]) = true.
Proof.
  intros Hl Hx. rewrite forallb_app, Hl. simpl. now rewrite Hx.
Qed.

Lemma push_segment_canonical (buffer : string) (at_slash : bool)
    (path : list string) :
  JsString.forallb path_unit buffer = true ->
  List.forallb canonical_segment path = true ->
  List.forallb canonical_segment (URL.push_segment buffer at_slash path) = true /\
  (at_slash = false -> URL.push_segment buffer at_slash path <> []).
Proof.
  intros Hb Hp. unfold URL.push_segment, URL.shorten.
  assert (He : canonical_segment EmptyString = true) by reflexivity.
  destruct (URL.is_double_dot buffer) eqn:E2.
  - destruct at_slash.
    + split; [now apply forallb_removelast | discriminate].
    + split; [apply forallb_snoc; auto using forallb_removelast |].
      intros _ H. destruct (removelast path); discriminate.
  - destruct (URL.is_single_dot buffer) eqn:E1.
    + destruct at_slash.
      * split; [assumption | discriminate].
      * split; [now apply forallb_snoc |].
        intros _ H. destruct path; discriminate.
    + split.
      * apply forallb_snoc; [assumption |].
        unfold canonical_segment. now rewrite Hb, E1, E2.
      * intros _ H. destruct path; discriminate.
Qed.

Lemma path_state_canonical (input : string) :
  forall (buffer : string) (path : list string),
    JsString.forallb path_unit buffer = true ->
    List.forallb canonical_segment path = true ->
    List.forallb canonical_segment (fst (URL.path_state input buffer path)) = true /\
    fst (URL.path_state input buffer path) <> [].
Proof.
  induction input as [| c r IH]; intros buffer path Hb Hp.
  - simpl. destruct (push_segment_canonical buffer false path Hb Hp). auto.
  - cbn [URL.path_state].
    destruct (URL.is_slash c) eqn:Hsl.
    + apply IH; [reflexivity |].
      now destruct (push_segment_canonical buffer true path Hb Hp).
    + destruct (Ascii.eqb c "?");
        [simpl; destruct (push_segment_canonical buffer false path Hb Hp); auto |].
      destruct (Ascii.eqb c "#");
        [simpl; destruct (push_segment_canonical buffer false path Hb Hp); auto |].
      apply IH; [| assumption].
      now rewrite forallb_sapp, Hb, encoded_path_units.
Qed.

Lemma fragment_state_canonical (r : string) :
  JsString.forallb fragment_unit (URL.fragment_state r) = true.
Proof.
  unfold URL.fragment_state.
  apply (flat_map_forallb (fun _ => true)).
  - intros c _. apply encoded_fragment_units.
  - induction r; auto.
Qed.

Lemma query_state_canonical (r : string) :
  JsString.forallb query_unit (fst (URL.query_state r)) = true /\
  match snd (URL.query_state r) with
  | Some f => JsString.forallb fragment_unit f = true
  | None => True
  end.
Proof.
  unfold URL.query_state.
  pose proof (span_fst (fun c => negb (Ascii.eqb c "#")) r) as H.
  destruct (URL.span _ r) as [q rest]. simpl in *.
  split.
  - apply (flat_map_forallb (fun c => negb (Ascii.eqb c "#"))); [| exact H].
    apply encoded_query_units.
  - destruct rest; [exact I | apply fragment_state_canonical].
Qed.

Lemma canonical_intro (sch h : string) (port : option N) (path : list string)
    (q f : option string) :
  URL.is_special sch = true -> String.eqb sch "file" = false ->
  canonical_host h = true -> canonical_port sch port = true ->
  path <> [] -> List.forallb canonical_segment path = true ->
  match q with Some x => JsString.forallb query_unit x = true | None => True end ->
  match f with Some x => JsString.forallb fragment_unit x = true | None => True end ->
  canonical (URL.mk sch h port path q f) = true.
Proof.
  intros H1 H2 H3 H4 H5 H6 H7 H8. unfold canonical.
  cbn [URL.scheme URL.host URL.port URL.path URL.query URL.fragment].
  rewrite H1, H2, H3, H4, H6. simpl.
  destruct path; [congruence |].
  destruct q; destruct f; rewrite ?H7, ?H8; reflexivity.
Qed.

Lemma canonical_inv (u : URL.t) :
  canonical u = true ->
  URL.is_special (URL.scheme u) = true /\
  String.eqb (URL.scheme u) "file" = false /\
  canonical_host (URL.host u) = true /\
  canonical_port (URL.scheme u) (URL.port u) = true /\
  URL.path u <> [] /\
  List.forallb canonical_segment (URL.path u) = true /\
  match URL.query u with
  | Some x => JsString.forallb query_unit x = true
  | None => True
  end /\
  match URL.fragment u with
  | Some x => JsString.forallb fragment_unit x = true
  | None => True
  end.
Proof.
  unfold canonical. rewrite !andb_true_iff, negb_true_iff.
  intros [[[[[[[H1 H2] H3] H4] H5] H6] H7] H8].
  repeat split; auto.
  - destruct (URL.path u); [discriminate | discriminate].
  - destruct (URL.query u); auto.
  - destruct (URL.fragment u); auto.
Qed.

Lemma finish_canonical (sch h : string) (port : option N) (input buffer : string)
    (path : list string) :
  URL.is_special sch = true -> String.eqb sch "file" = false ->
  canonical_host h = true -> canonical_port sch port = true ->
  JsString.forallb path_unit buffer = true ->
  List.forallb canonical_segment path = true ->
  canonical (URL.finish sch h port (URL.path_state input buffer path)) = true.
Proof.
  intros H1 H2 H3 H4 Hb Hp.
  destruct (path_state_canonical input buffer path Hb Hp) as [Hc Hne].
  unfold URL.finish.
  destruct (URL.path_state input buffer path) as [p tl]. simpl in *.
  destruct tl as [| r | r].
  - now apply canonical_intro.
  - pose proof (query_state_canonical r) as [Hq Hf].
    destruct (URL.query_state r) as [q f]. simpl in *.
    now apply canonical_intro.
  - apply canonical_intro; auto. apply fragment_state_canonical.
Qed.

Lemma authority_state_canonical (sch input : string) (u : URL.t) :
  URL.is_special sch = true -> String.eqb sch "file" = false ->
  URL.authority_state sch input = Normal u -> canonical u = true.
Proof.
  intros H1 H2. unfold URL.authority_state.
  destruct (URL.span _ input) as [authority rest].
  destruct (_ || _)%bool; [discriminate |].
  destruct (match split_first ":" authority with
            | Some (h, d) => (h, Some d)
            | None => (authority, None)
            end) as [hostname digits].
  destruct hostname as [| c hostname]; [discriminate |].
  destruct (URL.host_parse (String c hostname)) as [h | |] eqn:Hh; try discriminate.
  cbn [cbind].
  destruct (match digits with
            | Some d => URL.port_parse sch d
            | None => Normal None
            end) as [port | |] eqn:Hp; try discriminate.
  cbn [cbind]. intro H. inversion H. subst u. clear H.
  apply finish_canonical; auto.
  - apply (host_parse_canonical _ _ Hh). discriminate.
  - destruct digits as [d |].
    + now apply (port_parse_canonical sch d).
    + now inversion Hp.
Qed.

Lemma Normal_inj {A : Type} (a b : A) : Normal a = Normal b -> a = b.
Proof. congruence. Qed.

Lemma relative_state_canonical (base : URL.t) (input : string) (u : URL.t) :
  canonical base = true ->
  URL.relative_state base input = Normal u -> canonical u = true.
Proof.
  intro Hb.
  destruct (canonical_inv base Hb) as (H1 & H2 & H3 & H4 & H5 & H6 & H7 & H8).
  unfold URL.relative_state.
  destruct input as [| c r].
  - intro H. apply Normal_inj in H. rewrite <- H. now apply canonical_intro.
  - destruct (URL.is_slash c).
    + destruct r as [| c2 r2].
      * intro H. apply Normal_inj in H. rewrite <- H. now apply finish_canonical.
      * destruct (URL.is_slash c2).
        -- now apply authority_state_canonical.
        -- intro H. apply Normal_inj in H. rewrite <- H.
           now apply finish_canonical.
    + destruct (Ascii.eqb c "?").
      * pose proof (query_state_canonical r) as [Hq Hf].
        destruct (URL.query_state r) as [q f]. simpl in *.
        intro H. apply Normal_inj in H. rewrite <- H. now apply canonical_intro.
      * destruct (Ascii.eqb c "#").
        -- intro H. apply Normal_inj in H. rewrite <- H.
           apply canonical_intro; auto.
           apply fragment_state_canonical.
        -- intro H. apply Normal_inj in H. rewrite <- H.
           apply finish_canonical; auto.
           now apply forallb_removelast.
Qed.

Lemma parse_canonical (input : string) (base : option URL.t) (u : URL.t) :
  match base with Some b => canonical b = true | None => True end ->
  URL.parse input base = Normal u -> canonical u = true.
Proof.
  intro Hb. unfold URL.parse.
  destruct (URL.scan_scheme (URL.preprocess input)) as [[sch rest] |].
  - destruct (String.eqb sch "file") eqn:Hf; [discriminate |].
    destruct (URL.is_special sch) eqn:Hs; [| discriminate].
    destruct base as [b |].
    + destruct (String.eqb (URL.scheme b) sch).
      * destruct rest as [| c1 rest1];
          [now apply relative_state_canonical |].
        destruct (Ascii.ascii_dec c1 "/") as [-> | Hc1].
        -- destruct rest1 as [| c2 rest2];
             [now apply relative_state_canonical |].
           destruct (Ascii.ascii_dec c2 "/") as [-> | Hc2].
           ++ now apply authority_state_canonical.
           ++ intro H. apply (relative_state_canonical b (String "/" (String c2 rest2)));
                [assumption |].
              rewrite <- H.
              destruct c2 as [[] [] [] [] [] [] [] []]; try reflexivity.
              congruence.
        -- intro H. apply (relative_state_canonical b (String c1 rest1));
             [assumption |].
           rewrite <- H.
           destruct c1 as [[] [] [] [] [] [] [] []]; try reflexivity.
           congruence.
      * now apply authority_state_canonical.
    + now apply authority_state_canonical.
  - destruct base as [b |]; [| discriminate].
    now apply relative_state_canonical.
Qed.


(** *** The query that [url.searchParams] writes *)

Lemma serialize_unit_query (c : ascii) :
  JsString.forallb query_unit (URLSearchParams.serialize_unit c) = true.
Proof. destruct c as [[] [] [] [] [] [] [] []]; reflexivity. Qed.

Lemma serialize_string_query (s : string) :
  JsString.forallb query_unit (URLSearchParams.serialize_string s) = true.
Proof.
  unfold URLSearchParams.serialize_string.
  apply (flat_map_forallb (fun _ => true)).
  - intros c _. apply serialize_unit_query.
  - induction s; auto.
Qed.

Lemma serialize_pair_query (p : string * string) :
  JsString.forallb query_unit (URLSearchParams.serialize_pair p) = true.
Proof.
  unfold URLSearchParams.serialize_pair.
  change ("=" ++ ?r)%string with (String "=" r).
  now rewrite forallb_sapp, forallb_cons, !serialize_string_query.
Qed.

Lemma serialize_query (l : URLSearchParams.t) :
  JsString.forallb query_unit (URLSearchParams.serialize l) = true.
Proof.
  induction l as [| p l IH]; [reflexivity |].
  destruct l as [| q l]; [apply serialize_pair_query |].
  change (URLSearchParams.serialize (p :: q :: l))
    with (URLSearchParams.serialize_pair p
          ++ String "&" (URLSearchParams.serialize (q :: l)))%string.
  now rewrite forallb_sapp, forallb_cons, serialize_pair_query, IH.
Qed.

Lemma update_canonical (u : URL.t) (l : URLSearchParams.t) :
  canonical u = true -> canonical (URL.update u l) = true.
Proof.
  intro H.
  destruct (canonical_inv u H) as (H1 & H2 & H3 & H4 & H5 & H6 & H7 & H8).
  unfold URL.update. apply canonical_intro; auto.
  destruct l; [exact I | apply serialize_query].
Qed.

Lemma new_URL_canonical (url base : string) (u : URLObject) :
  new_URL url base = Normal u -> canonical (record u) = true.
Proof.
  unfold new_URL, URL.new.
  destruct (URL.parse base None) as [b | |] eqn:Hb; try discriminate.
  cbn [cbind].
  destruct (URL.parse url (Some b)) as [r | |] eqn:Hr; try discriminate.
  cbn [cbind]. intro H. apply Normal_inj in H. subst u. simpl.
  apply (parse_canonical url (Some b)); [| exact Hr].
  now apply (parse_canonical base None).
Qed.

Lemma with_params_canonical (url url' : URLObject)
    (f : URLSearchParams.t -> URLSearchParams.t) :
  canonical (record url) = true ->
  with_params url f = Normal url' -> canonical (record url') = true.
Proof.
  intro H. unfold with_params.
  destruct (params url); [| discriminate].
  intro E. apply Normal_inj in E. subst url'. simpl.
  now apply update_canonical.
Qed.

Lemma forEach_invariant {A S : Type} (P : S -> Prop) (f : S -> A -> completion S) :
  (forall s x s', P s -> f s x = Normal s' -> P s') ->
  forall (items : list A) (s s' : S),
    P s -> forEach f items s = Normal s' -> P s'.
Proof.
  intro Hf. induction items as [| x items IH]; intros s s' Hs Hrun.
  - simpl in Hrun. apply Normal_inj in Hrun. now subst.
  - rewrite forEach_cons in Hrun.
    destruct (f s x) as [s1 | |] eqn:E; try discriminate.
    cbn [cbind] in Hrun. exact (IH s1 s' (Hf s x s1 Hs E) Hrun).
Qed.

Lemma encode_query_canonical (url url' : URLObject)
    (query : option (list (string * QueryValue))) :
  canonical (record url) = true ->
  encode_query url query = Normal url' -> canonical (record url') = true.
Proof.
  intros H Hrun. unfold encode_query in Hrun.
  destruct query as [entries |]; [| apply Normal_inj in Hrun; now subst].
  revert Hrun. apply (forEach_invariant (fun u => canonical (record u) = true)); auto.
  intros s [key [v | vs]] s' Hs; simpl.
  - destruct (toString v); try discriminate. cbn [cbind].
    now apply with_params_canonical.
  - apply (forEach_invariant (fun u => canonical (record u) = true)); auto.
    intros s0 x s1 Hs0. destruct (toString x); try discriminate. cbn [cbind].
    now apply with_params_canonical.
Qed.

(** The URL [request] sends is the serialization of the record it has
    built, and parses back to that record. *)
Lemma outbound_built (version : string) (args : Args) (w : World)
    (url : string) (init : FetchInit) :
  fst (outbound version args w) = Normal (url, init) ->
  exists u : URLObject,
    built_url args w = Normal u /\
    url = URL.href (record u) /\
    URL.parse url None = Normal (record u).
Proof.
  intro Hout.
  destruct (outbound_inv _ _ _ _ _ Hout) as (u0 & u & H0 & Hnew & Henc & Hurl & _).
  exists u. unfold built_url. rewrite Hnew. cbn [cbind].
  split; [exact Henc |]. split; [exact Hurl |].
  subst url. apply parse_href.
  apply (encode_query_canonical u0 u (query args)); [| exact Henc].
  now apply (new_URL_canonical _ _ _ Hnew).
Qed.

(** *** The urlencoded parser on a serialized list *)

(** What the urlencoded serializer writes for one code unit: ASCII, and
    neither [&] nor [=]. *)
Lemma serialize_unit_units (c : ascii) :
  JsString.forallb (in_range 0 127) (URLSearchParams.serialize_unit c) = true /\
  includes_char "&" (URLSearchParams.serialize_unit c) = false /\
  includes_char "=" (URLSearchParams.serialize_unit c) = false.
Proof.
  destruct c as [[] [] [] [] [] [] [] []]; vm_compute; repeat split.
Qed.

Lemma serialize_string_units (s : string) :
  JsString.forallb (in_range 0 127) (URLSearchParams.serialize_string s) = true /\
  includes_char "&" (URLSearchParams.serialize_string s) = false /\
  includes_char "=" (URLSearchParams.serialize_string s) = false.
Proof.
  unfold URLSearchParams.serialize_string, includes_char.
  induction s as [| c s (IH1 & IH2 & IH3)]; [repeat split |].
  destruct (serialize_unit_units c) as (H1 & H2 & H3).
  unfold includes_char in H2, H3.
  cbn [JsString.flat_map].
  rewrite forallb_sapp, !existsb_app, H1, H2, H3, IH1, IH2, IH3.
  repeat split.
Qed.

Lemma serialize_pair_units (p : string * string) :
  JsString.forallb (in_range 0 127) (URLSearchParams.serialize_pair p) = true /\
  includes_char "&" (URLSearchParams.serialize_pair p) = false /\
  URLSearchParams.serialize_pair p <> EmptyString.
Proof.
  unfold URLSearchParams.serialize_pair, includes_char.
  destruct (serialize_string_units (fst p)) as (H1 & H2 & _).
  destruct (serialize_string_units (snd p)) as (H3 & H4 & _).
  unfold includes_char in H2, H4.
  rewrite forallb_sapp, existsb_app, H1, H2.
  change ("=" ++ URLSearchParams.serialize_string (snd p))%string
    with (String "=" (URLSearchParams.serialize_string (snd p))).
  rewrite existsb_cons. cbn [JsString.forallb].
  rewrite H3, H4.
  repeat split.
  destruct (URLSearchParams.serialize_string (fst p)); discriminate.
Qed.

Lemma utf8_encode_ascii (s : string) :
  JsString.forallb (in_range 0 127) s = true ->
  JsString.flat_map utf8_encode_unit s = s.
Proof.
  induction s as [| c s IH]; [reflexivity |].
  cbn [JsString.forallb JsString.flat_map].
  intro H. apply andb_prop in H. destruct H as [Hc Hs].
  rewrite (IH Hs).
  unfold utf8_encode_unit.
  unfold in_range in Hc. apply andb_prop in Hc. destruct Hc as [_ Hc].
  apply N.leb_le in Hc.
  destruct (N.ltb_spec (code c) 128) as [_ | Hge]; [reflexivity | lia].
Qed.

Lemma split_on_plain (sep : ascii) (s : string) :
  includes_char sep s = false ->
  URLSearchParams.split_on sep s = [s].
Proof.
  unfold includes_char.
  induction s as [| c s IH]; [reflexivity |].
  rewrite existsb_cons. intro H. apply orb_false_elim in H. destruct H as [Hc Hs].
  cbn [URLSearchParams.split_on].
  rewrite Ascii.eqb_sym, Hc, (IH Hs). reflexivity.
Qed.

Lemma split_on_app (sep : ascii) (a rest : string) :
  includes_char sep a = false ->
  URLSearchParams.split_on sep (a ++ String sep rest)
  = a :: URLSearchParams.split_on sep rest.
Proof.
  unfold includes_char.
  induction a as [| c a IH].
  - intros _. cbn [append URLSearchParams.split_on]. now rewrite Ascii.eqb_refl.
  - rewrite existsb_cons. intro H. apply orb_false_elim in H. destruct H as [Hc Ha].
    cbn [append URLSearchParams.split_on].
    rewrite Ascii.eqb_sym, Hc, (IH Ha). reflexivity.
Qed.

(** Decoding undoes the serializer, one code unit at a time. *)
Lemma decode_serialize_unit (c : ascii) (r : string) :
  URLSearchParams.decode_component (URLSearchParams.serialize_unit c ++ r)
  = option_map (String c) (URLSearchParams.decode_component r).
Proof.
  destruct c as [[] [] [] [] [] [] [] []]; reflexivity.
Qed.

Lemma decode_serialize_string (s : string) :
  URLSearchParams.decode_component (URLSearchParams.serialize_string s) = Some s.
Proof.
  unfold URLSearchParams.serialize_string.
  induction s as [| c s IH]; [reflexivity |].
  cbn [JsString.flat_map].
  now rewrite decode_serialize_unit, IH.
Qed.

Lemma parse_sequence_pair (p : string * string) :
  URLSearchParams.parse_sequence (URLSearchParams.serialize_pair p) = Some p.
Proof.
  unfold URLSearchParams.parse_sequence, URLSearchParams.serialize_pair.
  destruct (serialize_string_units (fst p)) as (_ & _ & Heq).
  change ("=" ++ URLSearchParams.serialize_string (snd p))%string
    with (String "=" (URLSearchParams.serialize_string (snd p))).
  rewrite (split_first_unit "=" _ _ Heq).
  rewrite !decode_serialize_string.
  now destruct p.
Qed.

Lemma parse_sequences_pairs (l : URLSearchParams.t) :
  URLSearchParams.parse_sequences (List.map URLSearchParams.serialize_pair l) = Some l.
Proof.
  induction l as [| p l IH]; [reflexivity |].
  cbn [List.map URLSearchParams.parse_sequences].
  destruct (serialize_pair_units p) as (_ & _ & Hne).
  rewrite parse_sequence_pair, IH.
  destruct (URLSearchParams.serialize_pair p); [contradiction | reflexivity].
Qed.

Lemma serialize_cons2 (p q : string * string) (l : URLSearchParams.t) :
  URLSearchParams.serialize (p :: q :: l)
  = (URLSearchParams.serialize_pair p
     ++ String "&" (URLSearchParams.serialize (q :: l)))%string.
Proof. reflexivity. Qed.

Lemma serialize_ascii (l : URLSearchParams.t) :
  JsString.forallb (in_range 0 127) (URLSearchParams.serialize l) = true.
Proof.
  induction l as [| p l IH]; [reflexivity |].
  destruct (serialize_pair_units p) as (Hp & _ & _).
  destruct l as [| q l]; [exact Hp |].
  rewrite serialize_cons2, forallb_sapp, Hp.
  cbn [JsString.forallb]. now rewrite IH.
Qed.

Lemma split_on_serialize (p : string * string) (l : URLSearchParams.t) :
  URLSearchParams.split_on "&" (URLSearchParams.serialize (p :: l))
  = List.map URLSearchParams.serialize_pair (p :: l).
Proof.
  revert p. induction l as [| q l IH]; intro p.
  - destruct (serialize_pair_units p) as (_ & Hp & _).
    exact (split_on_plain "&" _ Hp).
  - destruct (serialize_pair_units p) as (_ & Hp & _).
    rewrite serialize_cons2, (split_on_app "&" _ _ Hp), IH. reflexivity.
Qed.

(** The urlencoded parser undoes the urlencoded serializer. *)
Lemma parse_serialize (l : URLSearchParams.t) :
  URLSearchParams.parse (URLSearchParams.serialize l) = Some l.
Proof.
  unfold URLSearchParams.parse.
  rewrite (utf8_encode_ascii _ (serialize_ascii l)).
  destruct l as [| p l]; [reflexivity |].
  rewrite split_on_serialize. apply parse_sequences_pairs.
Qed.

Lemma searchParams_update (u : URL.t) (l : URLSearchParams.t) :
  URL.searchParams (URL.update u l) = Some l.
Proof.
  unfold URL.searchParams, URL.update; simpl.
  destruct l as [| p l]; [reflexivity |].
  apply parse_serialize.
Qed.

End Canonical.

(** ** URL assembly *)

Section UrlAssembly.
#[local] Arguments Ascii.eqb : simpl never.

(** A reference that begins with a slash still does so after the parser's
    clean-up of its input. *)
Lemma preprocess_slash (rest : string) :
  exists rest', URL.preprocess (String "/" rest) = String "/" rest'.
Proof.
  unfold URL.preprocess.
  change (URL.strip_leading (String "/" rest)) with (String "/" rest).
  change (URL.strip_trailing (String "/" rest))
    with (match URL.strip_trailing rest with
          | EmptyString => String "/" EmptyString
          | String c r => String "/" (String c r)
          end).
  destruct (URL.strip_trailing rest) as [| c r]; eexists; reflexivity.
Qed.

(** Resolving a reference that begins with a slash reads the scheme, the
    host and the port of the base, and nothing else of it. *)
Lemma relative_state_slash (b b' : URL.t) (rest : string) :
  URL.scheme b = URL.scheme b' ->
  URL.host b = URL.host b' ->
  URL.port b = URL.port b' ->
  URL.relative_state b (String "/" rest) = URL.relative_state b' (String "/" rest).
Proof.
  intros Hs Hh Hp. unfold URL.relative_state.
  change (URL.is_slash "/") with true. cbv iota.
  rewrite Hs, Hh, Hp. reflexivity.
Qed.

Lemma parse_slash (b b' : URL.t) (rest : string) :
  URL.scheme b = URL.scheme b' ->
  URL.host b = URL.host b' ->
  URL.port b = URL.port b' ->
  URL.parse (String "/" rest) (Some b) = URL.parse (String "/" rest) (Some b').
Proof.
  intros Hs Hh Hp. unfold URL.parse.
  destruct (preprocess_slash rest) as [rest' E]. rewrite E.
  change (URL.scan_scheme (String "/" rest')) with (@None (string * string)).
  cbv iota. now apply relative_state_slash.
Qed.

Lemma classify_fst (r : Response) (b : value) (w w' : World) :
  fst (classify r b w) = fst (classify r b w').
Proof.
  unfold classify, throw_new, bind, lift, throw, ret.
  repeat match goal with
         | |- context [if ?c then _ else _] => destruct c
         | |- context [match ?c with Normal _ => _ | Throw _ => _ | OutsideModel => _ end] =>
             destruct c
         end; reflexivity.
Qed.

(** Two clients whose base URLs resolve the path of a call alike send the
    same request and get the same outcome. *)
Lemma request_same_base (fetch : Transport) (args : Args) (w1 w2 : World) :
  apiKey (this w1) = apiKey (this w2) ->
  calls w1 = calls w2 ->
  new_URL (resolve_path (path args) (replacePath args)) (apiUrl (this w1))
  = new_URL (resolve_path (path args) (replacePath args)) (apiUrl (this w2)) ->
  fst (request fetch args w1) = fst (request fetch args w2) /\
  calls (snd (request fetch args w1)) = calls (snd (request fetch args w2)).
Proof.
  intros Hkey Hcalls Hurl.
  assert (Hout : fst (outbound NOOKIPEDIA_API_VERSION args w1)
                 = fst (outbound NOOKIPEDIA_API_VERSION args w2)).
  { unfold outbound, bind, lift, ret, this_apiUrl, this_apiKey; simpl.
    rewrite Hurl, Hkey.
    repeat run_step; reflexivity. }
  rewrite !request_unfold, Hout.
  destruct (fst (outbound NOOKIPEDIA_API_VERSION args w2)) as [o | e |];
    simpl; auto.
  destruct (fetch (fst o) (snd o)) as [r | e]; simpl; try (rewrite Hcalls; auto).
  destruct (json r) as [b | e]; simpl; try (rewrite Hcalls; auto).
  rewrite !classify_world. simpl. rewrite Hcalls.
  split; [apply classify_fst | reflexivity].
Qed.

(** A path that begins with a slash keeps it through the replacements: a
    placeholder begins with a brace. *)
Lemma replace_slash (rest key value : string) :
  exists rest',
    JsString.replace (String "/" rest) (placeholder key) value = String "/" rest'.
Proof.
  unfold JsString.replace, placeholder.
  change ("{" ++ key ++ "}")%string with (String "{" (key ++ "}")).
  rewrite split_first_cons.
  change (JsString.starts_with (String "{" (key ++ "}")) (String "/" rest))
    with false. cbv iota.
  destruct (JsString.split_first (String "{" (key ++ "}")) rest) as [[b a] |];
    eexists; reflexivity.
Qed.

Lemma resolve_path_slash (replacePath : option (list (string * string))) :
  forall rest : string,
    exists rest', resolve_path (String "/" rest) replacePath = String "/" rest'.
Proof.
  unfold resolve_path.
  destruct replacePath as [entries |]; [| intro rest; eexists; reflexivity].
  induction entries as [| [key value] entries IH]; intro rest; simpl.
  - eexists. reflexivity.
  - destruct (replace_slash rest key value) as [rest1 E]. rewrite E. apply IH.
Qed.

End UrlAssembly.

(** ** A base URL with a slash appended *)

Section TrailingSlash.
Import JsString PercentEncode.
#[local] Arguments Ascii.eqb : simpl never.

(** *** The clean-up of a base with a slash appended *)

Lemma strip_leading_slash (base : string) :
  URL.strip_leading (base ++ "/") = (URL.strip_leading base ++ "/")%string.
Proof.
  induction base as [| c r IH]; [reflexivity |].
  cbn [append URL.strip_leading]. destruct (URL.is_c0_or_space c); auto.
Qed.

Lemma strip_trailing_slash (x : string) :
  URL.strip_trailing (x ++ "/") = (x ++ "/")%string.
Proof.
  induction x as [| c r IH]; [reflexivity |].
  cbn [append URL.strip_trailing]. rewrite IH.
  destruct r; reflexivity.
Qed.

(** What [strip_trailing] removes. *)
Lemma strip_trailing_split (x : string) :
  exists T,
    x = (URL.strip_trailing x ++ T)%string /\
    JsString.forallb URL.is_c0_or_space T = true.
Proof.
  induction x as [| c r (T & E & HT)].
  - exists EmptyString. auto.
  - cbn [URL.strip_trailing].
    destruct (URL.strip_trailing r) as [| c' r'] eqn:Er.
    + destruct (URL.is_c0_or_space c) eqn:Hc.
      * exists (String c T). simpl in E. subst r. split; [reflexivity |].
        rewrite forallb_cons, Hc, HT. reflexivity.
      * exists T. simpl in E. subst r. auto.
    + exists T. rewrite E at 1. auto.
Qed.

Lemma filter_spaces (T : string) :
  JsString.forallb URL.is_c0_or_space T = true ->
  JsString.forallb URL.is_c0_or_space
    (filter (fun c => negb (URL.is_tab_or_newline c)) T) = true.
Proof.
  induction T as [| c T IH]; auto.
  rewrite forallb_cons, andb_true_iff. intros [Hc HT].
  cbn [filter]. destruct (negb (URL.is_tab_or_newline c)); auto.
  now rewrite forallb_cons, Hc, IH.
Qed.

Lemma filter_app_string (p : ascii -> bool) (a b : string) :
  filter p (a ++ b) = (filter p a ++ filter p b)%string.
Proof.
  induction a as [| c a IH]; simpl; auto.
  destruct (p c); simpl; now rewrite IH.
Qed.

Lemma preprocess_with_slash (base : string) :
  exists T,
    JsString.forallb URL.is_c0_or_space T = true /\
    URL.preprocess (base ++ "/") = (URL.preprocess base ++ T ++ "/")%string.
Proof.
  unfold URL.preprocess.
  rewrite strip_leading_slash, strip_trailing_slash.
  destruct (strip_trailing_split (URL.strip_leading base)) as (T & E & HT).
  exists (filter (fun c => negb (URL.is_tab_or_newline c)) T).
  split; [now apply filter_spaces |].
  rewrite E at 1. rewrite !filter_app_string, sapp_assoc. reflexivity.
Qed.


(** *** The scheme *)

(** The code units that can follow the cleaned base: what the clean-up
    has left of its end, and the slash. *)
Lemma tail_unit_facts (c : ascii) :
  (URL.is_c0_or_space c || Ascii.eqb c "/")%bool = true ->
  Ascii.eqb c ":" = false /\ URL.is_scheme_char c = false /\ is_alpha c = false.
Proof.
  destruct c as [[] [] [] [] [] [] [] []]; vm_compute; intro H;
    try discriminate H; repeat split; reflexivity.
Qed.

Lemma space_unit_facts (c : ascii) :
  URL.is_c0_or_space c = true ->
  URL.is_slash c = false /\ URL.is_authority_end c = false /\
  Ascii.eqb ":" c = false /\ is_digit c = false /\
  URL.forbidden_domain (to_lower c) = true.
Proof.
  destruct c as [[] [] [] [] [] [] [] []]; vm_compute; intro H;
    try discriminate H; repeat split; reflexivity.
Qed.

Lemma scan_scheme_rest_app (s X : string) :
  match X with
  | String c _ => (URL.is_c0_or_space c || Ascii.eqb c "/")%bool = true
  | EmptyString => False
  end ->
  URL.scan_scheme_rest (s ++ X)
  = match URL.scan_scheme_rest s with
    | Some (a, r) => Some (a, (r ++ X)%string)
    | None => None
    end.
Proof.
  intro HX. induction s as [| c s IH].
  - destruct X as [| c r]; [contradiction |].
    destruct (tail_unit_facts c HX) as (H1 & H2 & _).
    cbn [append URL.scan_scheme_rest]. now rewrite H1, H2.
  - cbn [append URL.scan_scheme_rest]. rewrite IH.
    destruct (Ascii.eqb c ":"); [reflexivity |].
    destruct (URL.is_scheme_char c); [| reflexivity].
    destruct (URL.scan_scheme_rest s) as [[a r] |]; reflexivity.
Qed.

Lemma scan_scheme_app (s X : string) :
  match X with
  | String c _ => (URL.is_c0_or_space c || Ascii.eqb c "/")%bool = true
  | EmptyString => False
  end ->
  URL.scan_scheme (s ++ X)
  = match URL.scan_scheme s with
    | Some (a, r) => Some (a, (r ++ X)%string)
    | None => None
    end.
Proof.
  intro HX. destruct s as [| c s].
  - destruct X as [| c r]; [contradiction |].
    destruct (tail_unit_facts c HX) as (_ & _ & H3).
    cbn [append URL.scan_scheme]. now rewrite H3.
  - cbn [append URL.scan_scheme]. rewrite (scan_scheme_rest_app s X HX).
    destruct (is_alpha c); [| reflexivity].
    destruct (URL.scan_scheme_rest s) as [[a r] |]; reflexivity.
Qed.

(** *** The authority *)

Lemma span_eq (p : ascii -> bool) (s : string) :
  s = (fst (URL.span p s) ++ snd (URL.span p s))%string.
Proof.
  induction s as [| c s IH]; [reflexivity |].
  cbn [URL.span]. destruct (p c); [| reflexivity].
  destruct (URL.span p s) as [a b]. simpl in *. now rewrite <- IH.
Qed.

Lemma span_more (p : ascii -> bool) (s X : string) :
  snd (URL.span p s) <> EmptyString ->
  URL.span p (s ++ X) = (fst (URL.span p s), (snd (URL.span p s) ++ X)%string).
Proof.
  induction s as [| c s IH]; [simpl; congruence |].
  cbn [append URL.span]. destruct (p c); [| reflexivity].
  destruct (URL.span p s) as [a b]. simpl in *. intro H.
  now rewrite (IH H).
Qed.

Lemma span_all (p : ascii -> bool) (s X : string) :
  snd (URL.span p s) = EmptyString ->
  URL.span p (s ++ X)
  = ((s ++ fst (URL.span p X))%string, snd (URL.span p X)).
Proof.
  induction s as [| c s IH]; intro H.
  - simpl. destruct (URL.span p X); reflexivity.
  - cbn [append URL.span] in *. destruct (p c); [| discriminate H].
    destruct (URL.span p s) as [a b]. simpl in H.
    rewrite (IH H). reflexivity.
Qed.

Lemma span_spaces (p : ascii -> bool) (T : string) (c : ascii) (r : string) :
  JsString.forallb p T = true -> p c = false ->
  URL.span p (T ++ String c r) = (T, String c r).
Proof. intros HT Hc. now apply span_app. Qed.

Lemma lowercase_app (a b : string) :
  lowercase (a ++ b) = (lowercase a ++ lowercase b)%string.
Proof.
  unfold lowercase. induction a as [| c a IH]; simpl; auto. now rewrite IH.
Qed.

(** A host that ends in a control or a space is no host. *)
Lemma host_parse_trailing (h T d : string) :
  JsString.forallb URL.is_c0_or_space T = true -> T <> EmptyString ->
  URL.host_parse (h ++ T) <> Normal d.
Proof.
  intros HT Hne H.
  destruct (host_parse_inv _ _ H) as (Hd & _ & _ & Hforb & _).
  subst d. rewrite lowercase_app, existsb_app in Hforb.
  apply orb_false_iff in Hforb. destruct Hforb as [_ Hforb].
  destruct T as [| c T]; [congruence |].
  rewrite forallb_cons in HT. apply andb_true_iff in HT. destruct HT as [Hc _].
  destruct (space_unit_facts c Hc) as (_ & _ & _ & _ & Hf).
  unfold lowercase in Hforb. cbn [JsString.map] in Hforb.
  rewrite existsb_cons, Hf in Hforb. discriminate.
Qed.

Lemma finish_origin (sch h : string) (port : option N) (p : list string * URL.tail) :
  URL.scheme (URL.finish sch h port p) = sch /\
  URL.host (URL.finish sch h port p) = h /\
  URL.port (URL.finish sch h port p) = port.
Proof.
  unfold URL.finish. destruct (snd p) as [| r | r]; auto.
  destruct (URL.query_state r); auto.
Qed.


Lemma split_first_unit_inv (x : ascii) (s : string) :
  match split_first (String x EmptyString) s with
  | Some (a, b) => s = (a ++ String x b)%string /\ includes_char x a = false
  | None => includes_char x s = false
  end.
Proof.
  unfold includes_char.
  induction s as [| c s IH]; [reflexivity |].
  rewrite split_first_cons, starts_with_cons.
  destruct (Ascii.eqb x c) eqn:E.
  - apply Ascii.eqb_eq in E. subst c.
    destruct s; simpl; split; reflexivity.
  - destruct (split_first (String x EmptyString) s) as [[a b] |].
    + destruct IH as [Hs Ha]. split; [now rewrite Hs |].
      now rewrite existsb_cons, E, Ha.
    + now rewrite existsb_cons, E, IH.
Qed.

(** Scheme, host and port are read off the authority. *)
Lemma authority_state_origin (sch i1 i2 : string) (b1 : URL.t) :
  fst (URL.span (fun c => negb (URL.is_authority_end c)) i1)
  = fst (URL.span (fun c => negb (URL.is_authority_end c)) i2) ->
  URL.authority_state sch i1 = Normal b1 ->
  exists b2,
    URL.authority_state sch i2 = Normal b2 /\
    URL.scheme b2 = URL.scheme b1 /\ URL.host b2 = URL.host b1 /\
    URL.port b2 = URL.port b1.
Proof.
  unfold URL.authority_state.
  destruct (URL.span _ i1) as [a1 r1]. destruct (URL.span _ i2) as [a2 r2].
  simpl. intro E. subst a2.
  destruct (_ || _)%bool; [discriminate |].
  destruct (match split_first ":" a1 with
            | Some (h, d) => (h, Some d)
            | None => (a1, None)
            end) as [hostname digits].
  destruct hostname as [| c hostname]; [discriminate |].
  destruct (URL.host_parse (String c hostname)) as [h | |]; try discriminate.
  cbn [cbind].
  destruct (match digits with
            | Some d => URL.port_parse sch d
            | None => Normal None
            end) as [port | |]; try discriminate.
  cbn [cbind]. intro H. apply Normal_inj in H. subst b1.
  eexists. split; [reflexivity |].
  destruct (finish_origin sch h port
              (URL.path_state match r2 with
                              | String c0 r => if URL.is_slash c0 then r else r2
                              | EmptyString => EmptyString
                              end EmptyString [])) as (E1 & E2 & E3).
  destruct (finish_origin sch h port
              (URL.path_state match r1 with
                              | String c0 r => if URL.is_slash c0 then r else r1
                              | EmptyString => EmptyString
                              end EmptyString [])) as (F1 & F2 & F3).
  rewrite E1, E2, E3, F1, F2, F3. auto.
Qed.

(** An authority that ends in a control or a space is a failure. *)
Lemma authority_state_trailing (sch A T : string) (b : URL.t) :
  JsString.forallb (fun c => negb (URL.is_authority_end c)) A = true ->
  JsString.forallb URL.is_c0_or_space T = true -> T <> EmptyString ->
  URL.authority_state sch (A ++ T ++ "/") <> Normal b.
Proof.
  intros HA HT Hne. unfold URL.authority_state.
  assert (Hq : JsString.forallb (fun c => negb (URL.is_authority_end c)) T = true).
  { apply (forallb_impl URL.is_c0_or_space); [| exact HT].
    intros c Hc. destruct (space_unit_facts c Hc) as (_ & H & _). now rewrite H. }
  rewrite <- sapp_assoc.
  rewrite (span_app _ (A ++ T) "/");
    [| now rewrite forallb_sapp, HA, Hq | reflexivity].
  destruct (_ || _)%bool; [discriminate |].
  assert (Hcolon : includes_char ":" T = false).
  { unfold includes_char. apply existsb_none.
    apply (forallb_impl URL.is_c0_or_space); [| exact HT].
    intros c Hc. destruct (space_unit_facts c Hc) as (_ & _ & H & _). now rewrite H. }
  assert (Hdig : forall d, JsString.forallb is_digit (d ++ T) = false).
  { intro d. rewrite forallb_sapp. destruct T as [| c T]; [congruence |].
    rewrite forallb_cons in HT. apply andb_true_iff in HT. destruct HT as [Hc _].
    destruct (space_unit_facts c Hc) as (_ & _ & _ & H & _).
    rewrite forallb_cons, H. apply andb_false_r. }
  pose proof (split_first_unit_inv ":" A) as Hsplit.
  destruct (split_first ":" A) as [[h d] |].
  - destruct Hsplit as [EA Hh]. subst A.
    rewrite sapp_assoc. cbn [append].
    rewrite (split_first_unit ":" h (d ++ T) Hh).
    destruct h as [| c h]; [discriminate |].
    destruct (URL.host_parse (String c h)); try discriminate.
    cbn [cbind]. unfold URL.port_parse. rewrite Hdig. discriminate.
  - rewrite split_first_absent.
    2:{ unfold includes_char in *. now rewrite existsb_app, Hsplit, Hcolon. }
    destruct (A ++ T)%string as [| c r] eqn:E; [discriminate |].
    rewrite <- E.
    pose proof (host_parse_trailing A T) as Hhost.
    destruct (URL.host_parse (A ++ T)) as [d | |]; try discriminate.
    exfalso. now apply (Hhost d).
Qed.

Lemma authority_state_slash (sch A T : string) (b' : URL.t) :
  JsString.forallb URL.is_c0_or_space T = true ->
  URL.authority_state sch (A ++ T ++ "/") = Normal b' ->
  exists b,
    URL.authority_state sch A = Normal b /\
    URL.scheme b = URL.scheme b' /\ URL.host b = URL.host b' /\
    URL.port b = URL.port b'.
Proof.
  intros HT H.
  destruct (snd (URL.span (fun c => negb (URL.is_authority_end c)) A)) as [| c r] eqn:E.
  - assert (HA : JsString.forallb (fun c => negb (URL.is_authority_end c)) A = true).
    { rewrite (span_eq (fun c => negb (URL.is_authority_end c)) A), E, sapp_nil_r.
      apply span_fst. }
    destruct T as [| c T].
    + apply (authority_state_origin sch (A ++ "/") A b'); [| exact H].
      rewrite (span_app _ A "/" HA) by reflexivity.
      rewrite (span_eq (fun c => negb (URL.is_authority_end c)) A) at 1.
      now rewrite E, sapp_nil_r.
    + exfalso. apply (authority_state_trailing sch A (String c T) b' HA HT); auto.
      discriminate.
  - apply (authority_state_origin sch (A ++ T ++ "/") A b'); [| exact H].
    rewrite span_more; [reflexivity | rewrite E; discriminate].
Qed.

Lemma special_authority_slash (sch rest T : string) (b' : URL.t) :
  JsString.forallb URL.is_c0_or_space T = true ->
  URL.special_authority sch (rest ++ T ++ "/") = Normal b' ->
  exists b,
    URL.special_authority sch rest = Normal b /\
    URL.scheme b = URL.scheme b' /\ URL.host b = URL.host b' /\
    URL.port b = URL.port b'.
Proof.
  intros HT. unfold URL.special_authority.
  destruct (snd (URL.span URL.is_slash rest)) as [| c r] eqn:E.
  - rewrite (span_all _ rest (T ++ "/") E). cbn [snd].
    destruct T as [| c T].
    + intro H. discriminate H.
    + rewrite forallb_cons in HT. pose proof HT as HT'.
      apply andb_true_iff in HT. destruct HT as [Hc _].
      destruct (space_unit_facts c Hc) as (Hsl & _).
      cbn [append URL.span]. rewrite Hsl. cbn [snd].
      intro H. exfalso.
      apply (authority_state_trailing sch EmptyString (String c T) b');
        [reflexivity | exact HT' | discriminate | exact H].
  - rewrite span_more by (rewrite E; discriminate). cbn [snd]. rewrite E.
    now apply authority_state_slash.
Qed.

(** A base and the base with a slash appended have the same scheme, host
    and port, when the latter parses. *)
Lemma parse_slash_origin (base : string) (b' : URL.t) :
  URL.parse (base ++ "/") None = Normal b' ->
  exists b,
    URL.parse base None = Normal b /\
    URL.scheme b = URL.scheme b' /\ URL.host b = URL.host b' /\
    URL.port b = URL.port b'.
Proof.
  unfold URL.parse.
  destruct (preprocess_with_slash base) as (T & HT & E). rewrite E.
  rewrite scan_scheme_app.
  2:{ destruct T as [| c T]; [reflexivity |].
      rewrite forallb_cons in HT. apply andb_true_iff in HT.
      destruct HT as [Hc _]. cbn [append]. now rewrite Hc. }
  destruct (URL.scan_scheme (URL.preprocess base)) as [[sch rest] |];
    [| discriminate].
  destruct (String.eqb sch "file"); [discriminate |].
  destruct (URL.is_special sch); [| discriminate].
  now apply special_authority_slash.
Qed.

End TrailingSlash.

(** C7, amended. For every base URL that parses when a slash is
    appended to it, and every path that begins with a slash, as the
    paths of this library do, resolving the path against the base and
    against the base with the slash appended gives the same URL, and the
    two clients send the same URL, with the same outcome, for the same
    call; clients constructed with ['https://api.x.com'] and
    ['https://api.x.com/'] send the same URL, and get the same outcome,
    for every call.  Such a base parses as well, to the scheme, host and
    port of the base with the slash. *)
Theorem base_url_trailing_slash :
  (forall (base rest : string) (b' : URL.t),
      URL.parse (base ++ "/")%string None = Normal b' ->
      URL.new (String "/" rest) base
      = URL.new (String "/" rest) (base ++ "/")%string)
  /\
  (forall (base rest : string) (b' : URL.t) (fetch : Transport) (args : Args)
          (key : string) (sent : list (string * FetchInit)),
      URL.parse (base ++ "/")%string None = Normal b' ->
      path args = String "/" rest ->
      fst (request fetch args
             {| this := new_NookipediaApi key (Some base); calls := sent |})
      = fst (request fetch args
               {| this := new_NookipediaApi key (Some (base ++ "/")%string);
                  calls := sent |})
      /\
      calls (snd (request fetch args
                    {| this := new_NookipediaApi key (Some base); calls := sent |}))
      = calls (snd (request fetch args
                      {| this := new_NookipediaApi key (Some (base ++ "/")%string);
                         calls := sent |})))
  /\
  (forall (fetch : Transport) (args : Args) (key : string)
          (sent : list (string * FetchInit)),
      fst (request fetch args
             {| this := new_NookipediaApi key (Some "https://api.x.com");
                calls := sent |})
      = fst (request fetch args
               {| this := new_NookipediaApi key (Some "https://api.x.com/");
                  calls := sent |})
      /\
      calls (snd (request fetch args
                    {| this := new_NookipediaApi key (Some "https://api.x.com");
                       calls := sent |}))
      = calls (snd (request fetch args
                      {| this := new_NookipediaApi key (Some "https://api.x.com/");
                         calls := sent |})))
  /\
  (forall (base : string) (b' : URL.t),
      URL.parse (base ++ "/")%string None = Normal b' ->
      exists b,
        URL.parse base None = Normal b /\
        URL.scheme b = URL.scheme b' /\ URL.host b = URL.host b' /\
        URL.port b = URL.port b').
Proof.
  assert (Resolve :
    forall (base rest : string) (b' : URL.t),
      URL.parse (base ++ "/")%string None = Normal b' ->
      URL.new (String "/" rest) base
      = URL.new (String "/" rest) (base ++ "/")%string).
  { intros base rest b' Hb'.
    destruct (parse_slash_origin base b' Hb') as (b & Hb & Hs & Hh & Hp).
    unfold URL.new. rewrite Hb, Hb'. simpl.
    now apply parse_slash. }
  split; [exact Resolve | split; [| split]].
  - intros base rest b' fetch args key sent Hb' Hpath.
    apply request_same_base; [reflexivity | reflexivity |].
    simpl. rewrite Hpath.
    destruct (resolve_path_slash (replacePath args) rest) as [rest' E].
    rewrite E. unfold new_URL.
    now rewrite (Resolve base rest' b' Hb').
  - intros fetch args key sent.
    apply (request_same_base fetch args); reflexivity.
  - exact parse_slash_origin.
Qed.

Lemma base_url_trailing_slash_witness :
  URL.new "/nh/bugs" "https://api.nookipedia.com/v1"
  = URL.new "/nh/bugs" ("https://api.nookipedia.com/v1" ++ "/")%string.
Proof.
  apply (proj1 base_url_trailing_slash "https://api.nookipedia.com/v1" "nh/bugs"
           {| URL.scheme := "https"; URL.host := "api.nookipedia.com";
              URL.port := None; URL.path := ["v1"; EmptyString];
              URL.query := None; URL.fragment := None |});
    reflexivity.
Defined.

(** C7 as stated fails on a base URL that ends in a space: the parser
    strips the space from the end of ['https://api.x.com '], but with a
    slash appended the space is part of the host, which is a failure. *)
Lemma base_url_trailing_slash_counterexample :
  URL.new "/nh/bugs" "https://api.x.com "
  = Normal {| URL.scheme := "https"; URL.host := "api.x.com"; URL.port := None;
              URL.path := ["nh"; "bugs"]; URL.query := None;
              URL.fragment := None |}
  /\
  URL.new "/nh/bugs" ("https://api.x.com " ++ "/")%string = Throw TypeError
  /\
  fst (request (mockFetch okEmpty) allBugs (fresh "apiKey" (Some "https://api.x.com ")))
  = Normal (VObject [])
  /\
  fst (request (mockFetch okEmpty) allBugs
               (fresh "apiKey" (Some ("https://api.x.com " ++ "/")%string)))
  = Throw TypeError.
Proof. repeat split; reflexivity. Qed.

(* ================================================================== *)
(** * Part III: further properties of the engine and of the wrappers *)
(* ================================================================== *)

(** ** What can be thrown before the transport is called *)

Lemma only_TypeError_cbind {A B : Type} (c : completion A) (k : A -> completion B) :
  only_TypeError c -> (forall a, only_TypeError (k a)) -> only_TypeError (cbind c k).
Proof.
  intros Hc Hk e. destruct c as [a | e' |]; simpl.
  - apply Hk.
  - intro H. inversion H; subst. now apply Hc.
  - discriminate.
Qed.

Lemma only_TypeError_Normal {A : Type} (a : A) : only_TypeError (Normal a).
Proof. intros e H. discriminate. Qed.

Lemma only_TypeError_Throw {A : Type} : only_TypeError (@Throw A TypeError).
Proof. intros e H. now inversion H. Qed.

Lemma only_TypeError_OutsideModel {A : Type} : only_TypeError (@OutsideModel A).
Proof. intros e H. discriminate. Qed.

#[local] Hint Resolve only_TypeError_Normal only_TypeError_Throw
  only_TypeError_OutsideModel : type_error.

Lemma host_parse_throws (input : string) : only_TypeError (URL.host_parse input).
Proof. unfold URL.host_parse. type_error. Qed.

Lemma port_parse_throws (scheme digits : string) :
  only_TypeError (URL.port_parse scheme digits).
Proof. unfold URL.port_parse. type_error. Qed.

Lemma authority_state_throws (scheme input : string) :
  only_TypeError (URL.authority_state scheme input).
Proof.
  unfold URL.authority_state.
  destruct (URL.span _ input) as [authority rest].
  destruct (_ || _)%bool; auto with type_error.
  destruct (JsString.split_first ":" authority) as [[h d] |].
  - destruct h; auto with type_error.
    apply only_TypeError_cbind; [apply host_parse_throws | intro].
    apply only_TypeError_cbind; [apply port_parse_throws | intro].
    auto with type_error.
  - destruct authority; auto with type_error.
    apply only_TypeError_cbind; [apply host_parse_throws | intro].
    apply only_TypeError_cbind; auto with type_error.
Qed.

Lemma relative_state_throws (base : URL.t) (input : string) :
  only_TypeError (URL.relative_state base input).
Proof.
  unfold URL.relative_state, URL.special_authority.
  destruct input as [| c r]; auto with type_error.
  destruct (URL.is_slash c).
  - destruct r as [| c2 r2]; auto with type_error.
    destruct (URL.is_slash c2); auto using authority_state_throws with type_error.
  - destruct (Ascii.eqb c "?"); [destruct (URL.query_state r) |];
      auto with type_error.
    destruct (Ascii.eqb c "#"); auto with type_error.
Qed.

Lemma parse_throws (input : string) (base : option URL.t) :
  only_TypeError (URL.parse input base).
Proof.
  unfold URL.parse, URL.special_authority.
  destruct (URL.scan_scheme _) as [[sch rest] |].
  - destruct (String.eqb sch "file"); auto with type_error.
    destruct (URL.is_special sch); auto with type_error.
    destruct base as [b |]; auto using authority_state_throws.
    destruct (String.eqb (URL.scheme b) sch); auto using authority_state_throws.
    destruct rest as [| c1 r1]; auto using relative_state_throws.
    destruct c1 as [[] [] [] [] [] [] [] []]; try apply relative_state_throws.
    destruct r1 as [| c2 r2]; auto using relative_state_throws.
    destruct c2 as [[] [] [] [] [] [] [] []];
      apply relative_state_throws || apply authority_state_throws.
  - destruct base; auto using relative_state_throws with type_error.
Qed.

Lemma new_URL_throws (url base : string) : only_TypeError (new_URL url base).
Proof.
  unfold new_URL, URL.new.
  repeat (apply only_TypeError_cbind; [| intro]);
    auto using parse_throws with type_error.
Qed.

Lemma forEach_throws {A S : Type} (f : S -> A -> completion S) (items : list A) :
  (forall s x, only_TypeError (f s x)) ->
  forall s, only_TypeError (forEach f items s).
Proof.
  intro Hf. induction items as [| x items IH]; intro s; simpl.
  - auto with type_error.
  - apply only_TypeError_cbind; auto.
Qed.

Lemma toString_throws (v : Scalar) : only_TypeError (toString v).
Proof.
  destruct v as [s | x]; simpl; [auto with type_error |].
  unfold Number_toString. type_error.
Qed.

Lemma encode_query_throws (url : URLObject)
    (query : option (list (string * QueryValue))) :
  only_TypeError (encode_query url query).
Proof.
  unfold encode_query. destruct query as [entries |]; auto with type_error.
  apply forEach_throws. intros s [key [v | vs]]; simpl.
  - apply only_TypeError_cbind; [apply toString_throws |].
    intro x. unfold searchParams_set, with_params. type_error.
  - apply forEach_throws. intros s' x.
    apply only_TypeError_cbind; [apply toString_throws |].
    intro y. unfold searchParams_append, with_params. type_error.
Qed.

Lemma fill_throws (init : list (string * string)) :
  forall l, only_TypeError (Headers.fill l init).
Proof.
  induction init as [| [name value] init IH]; intro l; simpl.
  - auto with type_error.
  - apply only_TypeError_cbind; auto.
    unfold Headers.append. type_error.
Qed.

Lemma set_throws (l : Headers.t) (name value : string) :
  only_TypeError (Headers.set l name value).
Proof. unfold Headers.set. type_error. Qed.

(** Whatever goes wrong before the transport is called is a [TypeError]
    of the platform. *)
Lemma outbound_throws (version : string) (args : Args) (w : World) :
  only_TypeError (fst (outbound version args w)).
Proof.
  intros e.
  unfold outbound, bind, lift, ret, this_apiUrl, this_apiKey; simpl.
  pose proof (new_URL_throws (resolve_path (path args) (replacePath args))
                             (apiUrl (this w))) as H1.
  destruct (new_URL _ _) as [u0 | e1 |]; simpl;
    [| intro H; inversion H; subst; now apply H1 | discriminate].
  pose proof (encode_query_throws u0 (query args)) as H2.
  destruct (encode_query u0 (query args)) as [u | e2 |]; simpl;
    [| intro H; inversion H; subst; now apply H2 | discriminate].
  assert (H3 : only_TypeError
                 (Headers.new match fetchOptions args with
                              | Some o => init_headers o
                              | None => None
                              end)).
  { unfold Headers.new.
    destruct (match fetchOptions args with
              | Some o => init_headers o
              | None => None
              end); auto using fill_throws with type_error. }
  destruct (Headers.new _) as [h0 | e3 |]; simpl;
    [| intro H; inversion H; subst; now apply H3 | discriminate].
  pose proof (set_throws h0 "Accept-Version" version) as H4.
  destruct (Headers.set h0 "Accept-Version" version) as [h1 | e4 |]; simpl;
    [| intro H; inversion H; subst; now apply H4 | discriminate].
  pose proof (set_throws h1 "X-API-KEY" (apiKey (this w))) as H5.
  destruct (Headers.set h1 "X-API-KEY" (apiKey (this w))) as [h2 | e5 |]; simpl;
    [discriminate | intro H; inversion H; subst; now apply H5 | discriminate].
Qed.

(** The two ways a call of [request] can leave the list of calls. *)
Lemma request_calls_cases :
  forall (fetch : Transport) (args : Args) (w : World),
    (calls (snd (request fetch args w)) = calls w /\
     (fst (request fetch args w) = Throw TypeError \/
      fst (request fetch args w) = OutsideModel))
    \/
    (exists url init,
        fst (outbound NOOKIPEDIA_API_VERSION args w) = Normal (url, init) /\
        calls (snd (request fetch args w)) = calls w ++ [(url, init)]).
Proof.
  intros fetch args w.
  destruct (fst (outbound NOOKIPEDIA_API_VERSION args w)) as [[url init] | e |] eqn:E.
  - right. exists url, init. split; [reflexivity |].
    now apply request_calls.
  - left. rewrite request_unfold, E. simpl. split; [reflexivity |].
    left. f_equal. now apply (outbound_throws NOOKIPEDIA_API_VERSION args w).
  - left. rewrite request_unfold, E. simpl. auto.
Qed.

(** X1. A call of [request] calls the transport once or not at all: either
    it fails before the transport, with a [TypeError] of the platform,
    and makes no call, or it makes exactly the one call for its outbound
    request. *)
Theorem request_calls_transport_at_most_once :
  forall (fetch : Transport) (args : Args) (w : World),
    (calls (snd (request fetch args w)) = calls w /\
     (fst (request fetch args w) = Throw TypeError \/
      fst (request fetch args w) = OutsideModel))
    \/
    (exists url init,
        fst (outbound NOOKIPEDIA_API_VERSION args w) = Normal (url, init) /\
        calls (snd (request fetch args w)) = calls w ++ [(url, init)]).
Proof.
  exact request_calls_cases.
Qed.

(** The call recorded last tells the outbound request. *)
Lemma request_called_inv (fetch : Transport) (args : Args) (w : World)
    (url : string) (init : FetchInit) :
  calls (snd (request fetch args w)) = calls w ++ [(url, init)] ->
  fst (outbound NOOKIPEDIA_API_VERSION args w) = Normal (url, init).
Proof.
  intro H.
  destruct (request_calls_cases fetch args w)
    as [[Hsame _] | (url' & init' & Hout & Hcalls)].
  - rewrite Hsame in H. apply (f_equal (@length _)) in H.
    rewrite length_app in H. simpl in H. lia.
  - rewrite Hcalls in H. apply app_inj_tail in H. destruct H as [_ H].
    now rewrite Hout, H.
Qed.

(** X2. When the transport rejects, the call rejects with the transport's
    reason as it is, after the one call. *)
Theorem request_transport_rejection_propagates :
  forall (fetch : Transport) (args : Args) (w : World)
         (url : string) (init : FetchInit) (reason : value),
    fst (outbound NOOKIPEDIA_API_VERSION args w) = Normal (url, init) ->
    fetch url init = Rejected reason ->
    request fetch args w = (Throw (External reason), called w (url, init)).
Proof.
  intros fetch args w url init reason Hout Hfetch.
  rewrite request_unfold, Hout. simpl. now rewrite Hfetch.
Qed.

Lemma request_transport_rejection_propagates_witness :
  request (fun _ _ => Rejected (VString "network down")) allBugs (fresh "apiKey" None)
  = (Throw (External (VString "network down")),
     called (fresh "apiKey" None)
            ("https://api.nookipedia.com/nh/bugs",
             {| headers := [("Accept-Version", "1.0.0"); ("X-API-KEY", "apiKey")];
                other := [] |})).
Proof.
  apply (request_transport_rejection_propagates
           (fun _ _ => Rejected (VString "network down")) allBugs
           (fresh "apiKey" None)); reflexivity.
Defined.

(** ** What an outcome tells about the response *)

Lemma get_title_throws (b : value) : only_TypeError (get_title b).
Proof. unfold get_title. type_error. Qed.

(** [ToString] throws nothing but a [TypeError]. *)
Lemma ToString_throws : forall v : value, only_TypeError (ToString v).
Proof.
  fix IH 1. intros [| | [|] | x | s | items | props]; simpl.
  - clear IH. intros e H. discriminate H.
  - clear IH. intros e H. discriminate H.
  - clear IH. intros e H. discriminate H.
  - clear IH. intros e H. discriminate H.
  - clear IH. unfold Number_toString. type_error.
  - clear IH. intros e H. discriminate H.
  - revert items. fix IHl 1. intros [| x rest].
    + clear IH IHl. intros e H. discriminate H.
    + pose proof (IH x) as Hx. pose proof (IHl rest) as Hrest. clear IH IHl.
      apply only_TypeError_cbind.
      * destruct x; try exact Hx; intros e H; discriminate H.
      * intro s. destruct rest as [| y rest']; [intros e H; discriminate H |].
        apply only_TypeError_cbind; [exact Hrest |].
        intros t e H. discriminate H.
  - clear IH. destruct (has_own "toString" props); intros e H; [| discriminate H].
    now inversion H.
Qed.

Lemma Error_message_throws (title : value) : only_TypeError (Error_message title).
Proof.
  destruct title; try apply ToString_throws. intros e H. discriminate H.
Qed.

(** A constructor that gives an instance has read the title of the body
    and made it the message; it raises no [NookipediaError] itself. *)
Lemma new_NookipediaError_cases (b : ErrorBody) (c : option Z) :
  (exists title m,
      get_title b = Normal title /\
      Error_message title = Normal m /\
      new_NookipediaError b c
      = Normal {| class := CNookipediaError; message := m;
                  body := b; code := c |})
  \/ new_NookipediaError b c = Throw TypeError
  \/ new_NookipediaError b c = OutsideModel.
Proof.
  unfold new_NookipediaError.
  pose proof (get_title_throws b) as H.
  destruct (get_title b) as [title | e |] eqn:E; simpl.
  - pose proof (Error_message_throws title) as Hm.
    destruct (Error_message title) as [m | e |] eqn:Em; simpl.
    + left. exists title, m. auto.
    + right. left. f_equal. now apply Hm.
    + right. right. reflexivity.
  - right. left. f_equal. now apply H.
  - right. right. reflexivity.
Qed.

Lemma new_subclass_cases (cls : ErrorClass) (fixed : Z) (b : ErrorBody) :
  (exists title m,
      get_title b = Normal title /\
      Error_message title = Normal m /\
      new_subclass cls fixed b
      = Normal {| class := cls; message := m; body := b; code := Some fixed |})
  \/ new_subclass cls fixed b = Throw TypeError
  \/ new_subclass cls fixed b = OutsideModel.
Proof.
  unfold new_subclass.
  destruct (new_NookipediaError_cases b None) as [(title & m & Ht & Hm & H) | [H | H]];
    rewrite H; simpl.
  - left. exists title, m. auto.
  - right. left. reflexivity.
  - right. right. reflexivity.
Qed.

Lemma throw_new_raised {A : Type} (c : completion NookipediaError) (w : World)
    (e : NookipediaError) :
  c <> Throw (Raised e) ->
  fst (@throw_new A c w) = Throw (Raised e) -> c = Normal e.
Proof.
  unfold throw_new, bind, lift, throw.
  destruct c as [e' | t |]; simpl; intros Hc H; inversion H; subst; congruence.
Qed.

Lemma subclass_raised (cls : ErrorClass) (fixed : Z) (b : ErrorBody) (w : World)
    (e : NookipediaError) :
  fst (@throw_new value (new_subclass cls fixed b) w) = Throw (Raised e) ->
  class e = cls /\ code e = Some fixed /\ body e = b /\
  exists title,
    get_title (body e) = Normal title /\
    Error_message title = Normal (message e).
Proof.
  intro H.
  destruct (new_subclass_cases cls fixed b) as [(title & m & Ht & Hm & Hn) | [Hn | Hn]];
    rewrite Hn in H.
  - apply throw_new_raised in H; [| discriminate].
    inversion H; subst; simpl. repeat split; auto. exists title. auto.
  - unfold throw_new, bind, lift in H. simpl in H. discriminate.
  - unfold throw_new, bind, lift in H. simpl in H. discriminate.
Qed.

Lemma generic_raised (c : option Z) (w : World) (e : NookipediaError) :
  fst (@throw_new value (new_NookipediaError fallback_body c) w) = Throw (Raised e) ->
  class e = CNookipediaError /\ code e = c /\ body e = fallback_body /\
  message e = "Failed to fetch Nookipedia API".
Proof.
  intro H. unfold throw_new, bind, lift, throw in H. simpl in H.
  inversion H; subst; simpl. auto.
Qed.

(** X3. A [NookipediaError] raised by [request] tells the response: the
    transport answered, the body decoded, the response was not ok; the
    class of the error is the one of the status and its code is the
    status; a typed error carries the decoded body and the generic one the
    fallback body. *)
Theorem raised_error_reflects_response :
  forall (fetch : Transport) (args : Args) (w : World) (e : NookipediaError),
    fst (request fetch args w) = Throw (Raised e) ->
    exists url init r b,
      fst (outbound NOOKIPEDIA_API_VERSION args w) = Normal (url, init) /\
      fetch url init = Fulfilled r /\
      json r = Fulfilled b /\
      ok r = false /\
      class e = class_of r /\
      code e = status r /\
      body e = match class e with
               | CNookipediaError => fallback_body
               | _ => b
               end.
Proof.
  intros fetch args w e H.
  rewrite request_unfold in H.
  pose proof (outbound_throws NOOKIPEDIA_API_VERSION args w) as Hte.
  destruct (fst (outbound NOOKIPEDIA_API_VERSION args w)) as [[url init] | t |];
    simpl in H; [| inversion H; subst; discriminate (Hte _ eq_refl) | discriminate].
  destruct (fetch url init) as [r | reason] eqn:Hfetch; simpl in H;
    [| discriminate].
  destruct (json r) as [b | reason] eqn:Hjson; simpl in H; [| discriminate].
  exists url, init, r, b.
  split; [reflexivity |]. split; [exact Hfetch |]. split; [exact Hjson |].
  unfold classify in H. unfold class_of.
  destruct (ok r); [discriminate |]. split; [reflexivity |].
  destruct (status_is r 401) eqn:E1.
  { apply subclass_raised in H. destruct H as (Hc & Hcode & Hb & _).
    apply status_is_eq in E1. rewrite Hc, Hcode, E1, Hb. auto. }
  destruct (status_is r 404) eqn:E2.
  { apply subclass_raised in H. destruct H as (Hc & Hcode & Hb & _).
    apply status_is_eq in E2. rewrite Hc, Hcode, E2, Hb. auto. }
  destruct (status_is r 500) eqn:E3.
  { apply subclass_raised in H. destruct H as (Hc & Hcode & Hb & _).
    apply status_is_eq in E3. rewrite Hc, Hcode, E3, Hb. auto. }
  apply generic_raised in H. destruct H as (Hc & Hcode & Hb & _).
  rewrite Hc, Hcode, Hb. auto.
Qed.

Lemma raised_error_reflects_response_witness :
  exists url init r b,
    fst (outbound NOOKIPEDIA_API_VERSION allBugs (fresh "apiKey" None))
    = Normal (url, init) /\
    mockFetch (respond false (Some 404%Z) (Fulfilled title_a)) url init = Fulfilled r /\
    json r = Fulfilled b /\
    ok r = false /\
    CNookipediaError404 = class_of r /\
    Some 404%Z = status r /\
    title_a = b.
Proof.
  apply (raised_error_reflects_response
           (mockFetch (respond false (Some 404%Z) (Fulfilled title_a)))
           allBugs (fresh "apiKey" None)
           {| class := CNookipediaError404; message := "a";
              body := title_a; code := Some 404%Z |}).
  reflexivity.
Defined.

(** X4. A call of [request] that resolves resolves to the decoded body of
    a response that was ok. *)
Theorem resolved_value_reflects_response :
  forall (fetch : Transport) (args : Args) (w : World) (v : value),
    fst (request fetch args w) = Normal v ->
    exists url init r,
      fst (outbound NOOKIPEDIA_API_VERSION args w) = Normal (url, init) /\
      fetch url init = Fulfilled r /\
      ok r = true /\
      json r = Fulfilled v.
Proof.
  intros fetch args w v H.
  rewrite request_unfold in H.
  destruct (fst (outbound NOOKIPEDIA_API_VERSION args w)) as [[url init] | t |];
    simpl in H; try discriminate.
  destruct (fetch url init) as [r | reason] eqn:Hfetch; simpl in H;
    [| discriminate].
  destruct (json r) as [b | reason] eqn:Hjson; simpl in H; [| discriminate].
  exists url, init, r.
  unfold classify in H.
  destruct (ok r) eqn:Hok.
  - inversion H; subst. auto.
  - exfalso. unfold throw_new, bind, lift, throw in H.
    repeat match type of H with
           | context [if ?c then _ else _] => destruct c
           | context [match ?c with Normal _ => _ | Throw _ => _ | OutsideModel => _ end] =>
               destruct c
           end; simpl in H; discriminate.
Qed.

Lemma resolved_value_reflects_response_witness :
  exists url init r,
    fst (outbound NOOKIPEDIA_API_VERSION allBugs (fresh "apiKey" None))
    = Normal (url, init) /\
    mockFetch okEmpty url init = Fulfilled r /\
    ok r = true /\
    json r = Fulfilled (VObject []).
Proof.
  apply (resolved_value_reflects_response (mockFetch okEmpty) allBugs
           (fresh "apiKey" None) (VObject [])).
  reflexivity.
Defined.

(** X5. The message of a [NookipediaError] that [request] raises is the
    title of the error's own body, made a string as [Error] does: the
    title itself when it is a string, the empty string when the body has
    no title; for the generic error it is the fallback title. *)
Theorem error_message_is_body_title :
  forall (fetch : Transport) (args : Args) (w : World) (e : NookipediaError),
    fst (request fetch args w) = Throw (Raised e) ->
    (exists title,
        get_title (body e) = Normal title /\
        Error_message title = Normal (message e)) /\
    (forall s, get_title (body e) = Normal (VString s) -> message e = s) /\
    (get_title (body e) = Normal VUndefined -> message e = EmptyString) /\
    (class e = CNookipediaError -> message e = "Failed to fetch Nookipedia API").
Proof.
  intros fetch args w e H.
  assert (Hmsg : (exists title,
                     get_title (body e) = Normal title /\
                     Error_message title = Normal (message e)) /\
                 (class e = CNookipediaError ->
                  message e = "Failed to fetch Nookipedia API")).
  { rewrite request_unfold in H.
    destruct (fst (outbound NOOKIPEDIA_API_VERSION args w)) as [[url init] | t |] eqn:Hout;
      simpl in H;
      [| inversion H; subst;
         discriminate (outbound_throws NOOKIPEDIA_API_VERSION args w _ Hout)
       | discriminate].
    destruct (fetch url init) as [r | reason]; simpl in H; [| discriminate].
    destruct (json r) as [b | reason]; simpl in H; [| discriminate].
    unfold classify in H.
    destruct (ok r); [discriminate |].
    repeat match type of H with
           | context [if status_is r ?n then _ else _] => destruct (status_is r n)
           end;
      try (apply subclass_raised in H; destruct H as (Hc & _ & _ & Ht);
           split; [exact Ht | rewrite Hc; discriminate]).
    apply generic_raised in H. destruct H as (_ & _ & Hb & Hm).
    split; [| intros _; exact Hm].
    exists (VString "Failed to fetch Nookipedia API").
    rewrite Hb, Hm. split; reflexivity. }
  destruct Hmsg as [(title & Ht & Hm) Hgeneric].
  split; [exists title; auto |].
  split; [| split; [| exact Hgeneric]].
  - intros s Hs. rewrite Hs in Ht. inversion Ht; subst title.
    simpl in Hm. now inversion Hm.
  - intro Hu. rewrite Hu in Ht. inversion Ht; subst title.
    simpl in Hm. now inversion Hm.
Qed.

Lemma error_message_is_body_title_witness :
  (exists title,
      get_title title_a = Normal title /\ Error_message title = Normal "a") /\
  (forall s, get_title title_a = Normal (VString s) -> "a" = s) /\
  (get_title title_a = Normal VUndefined -> "a" = EmptyString) /\
  (CNookipediaError404 = CNookipediaError -> "a" = "Failed to fetch Nookipedia API").
Proof.
  apply (error_message_is_body_title
           (mockFetch (respond false (Some 404%Z) (Fulfilled title_a)))
           allBugs (fresh "apiKey" None)
           {| class := CNookipediaError404; message := "a";
              body := title_a; code := Some 404%Z |}).
  reflexivity.
Defined.

(** ** Configuration that cannot be sent *)

Lemma outbound_valid_key (version : string) (args : Args) (w : World)
    (o : string * FetchInit) :
  fst (outbound version args w) = Normal o ->
  Headers.valid_value (Headers.normalize (apiKey (this w))) = true.
Proof.
  unfold outbound, bind, lift, ret, this_apiUrl, this_apiKey; simpl.
  destruct (new_URL _ _) as [u0 | |]; simpl; try discriminate.
  destruct (encode_query u0 (query args)) as [u | |]; simpl; try discriminate.
  destruct (Headers.new _) as [h0 | |]; simpl; try discriminate.
  destruct (Headers.set h0 "Accept-Version" version) as [h1 | |]; simpl;
    try discriminate.
  unfold Headers.set.
  destruct (Headers.valid_value (Headers.normalize (apiKey (this w)))); auto.
  rewrite andb_false_r. simpl. discriminate.
Qed.

(** X6. A client whose [apiKey] holds a NUL, a CR or an LF after its ends
    are trimmed cannot send: every call fails before the transport, and
    no call is made. *)
Theorem invalid_apiKey_never_sent :
  forall (fetch : Transport) (args : Args) (w : World),
    Headers.valid_value (Headers.normalize (apiKey (this w))) = false ->
    calls (snd (request fetch args w)) = calls w /\
    (fst (request fetch args w) = Throw TypeError \/
     fst (request fetch args w) = OutsideModel).
Proof.
  intros fetch args w Hkey.
  destruct (request_calls_cases fetch args w)
    as [H | (url & init & Hout & _)]; auto.
  apply outbound_valid_key in Hout. congruence.
Qed.

Lemma invalid_apiKey_never_sent_witness :
  calls (snd (request (mockFetch okEmpty) allBugs
                      (fresh (String "k" (String "010" "injected")) None))) = [] /\
  (fst (request (mockFetch okEmpty) allBugs
                (fresh (String "k" (String "010" "injected")) None)) = Throw TypeError \/
   fst (request (mockFetch okEmpty) allBugs
                (fresh (String "k" (String "010" "injected")) None)) = OutsideModel).
Proof.
  apply (invalid_apiKey_never_sent (mockFetch okEmpty) allBugs
           (fresh (String "k" (String "010" "injected")) None)).
  reflexivity.
Defined.

(** X7. A client whose [apiUrl] is not a URL throws a [TypeError] on every
    call, whatever the arguments, and calls nothing. *)
Theorem invalid_apiUrl_throws :
  forall (fetch : Transport) (args : Args) (w : World),
    URL.parse (apiUrl (this w)) None = Throw TypeError ->
    request fetch args w = (Throw TypeError, w).
Proof.
  intros fetch args w Hbase.
  rewrite request_unfold.
  assert (E : fst (outbound NOOKIPEDIA_API_VERSION args w) = Throw TypeError).
  { unfold outbound, bind, lift, ret, this_apiUrl, this_apiKey; simpl.
    unfold new_URL, URL.new. rewrite Hbase. reflexivity. }
  now rewrite E.
Qed.

Lemma invalid_apiUrl_throws_witness :
  request (mockFetch okEmpty) allBugs (fresh "apiKey" (Some "api.nookipedia.com"))
  = (Throw TypeError, fresh "apiKey" (Some "api.nookipedia.com")).
Proof.
  apply (invalid_apiUrl_throws (mockFetch okEmpty) allBugs
           (fresh "apiKey" (Some "api.nookipedia.com"))).
  reflexivity.
Defined.



(** ** The query of the outbound request *)

Section QueryOfTheRequest.
#[local] Arguments Ascii.eqb : simpl never.

Lemma encode_query_empty_lists (url : URLObject)
    (entries : list (string * QueryValue)) :
  forallb is_empty_list entries = true ->
  encode_query url (Some entries) = Normal url.
Proof.
  unfold encode_query. revert url.
  induction entries as [| [key value] entries IH]; intros url H; simpl in *; auto.
  apply andb_true_iff in H. destruct H as [He H].
  unfold is_empty_list in He. simpl in He.
  destruct value as [v | [| v vs]]; try discriminate.
  simpl. now apply IH.
Qed.

Lemma request_by_outbound (fetch : Transport) (args args' : Args) (w : World) :
  fst (outbound NOOKIPEDIA_API_VERSION args w)
  = fst (outbound NOOKIPEDIA_API_VERSION args' w) ->
  request fetch args w = request fetch args' w.
Proof. intro H. now rewrite !request_unfold, H. Qed.

(** X8. Entries whose value is the empty list leave the request as it is
    without a query: a query that holds nothing else gives the call made
    with no query at all. *)
Theorem empty_lists_send_nothing :
  forall (fetch : Transport) (args : Args) (w : World)
         (entries : list (string * QueryValue)),
    query args = Some entries ->
    forallb is_empty_list entries = true ->
    request fetch args w
    = request fetch
        {| path := path args; replacePath := replacePath args; query := None;
           fetchOptions := fetchOptions args |} w.
Proof.
  intros fetch args w entries Hq Hempty.
  apply request_by_outbound.
  unfold outbound, bind, lift, ret, this_apiUrl, this_apiKey.
  cbn [path replacePath query fetchOptions fst snd].
  rewrite Hq.
  destruct (new_URL _ _) as [u0 | |]; auto.
  rewrite encode_query_empty_lists by exact Hempty. reflexivity.
Qed.

Lemma empty_lists_send_nothing_witness :
  request (mockFetch okEmpty)
          {| path := "/nh/bugs"; replacePath := None;
             query := Some [("thumbsize", Many [])]; fetchOptions := None |}
          (fresh "apiKey" None)
  = request (mockFetch okEmpty)
            {| path := "/nh/bugs"; replacePath := None; query := None;
               fetchOptions := None |}
            (fresh "apiKey" None).
Proof.
  apply (empty_lists_send_nothing (mockFetch okEmpty)
           {| path := "/nh/bugs"; replacePath := None;
              query := Some [("thumbsize", Many [])]; fetchOptions := None |}
           (fresh "apiKey" None) [("thumbsize", Many [])]);
    reflexivity.
Defined.

Lemma has_name_other (k name value : string) :
  String.eqb name k = false -> URLSearchParams.has_name k (name, value) = false.
Proof. auto. Qed.

Lemma remove_filter_other (k name : string) (l : URLSearchParams.t) :
  String.eqb name k = false ->
  filter (URLSearchParams.has_name k)
         (filter (fun q => negb (URLSearchParams.has_name name q)) l)
  = filter (URLSearchParams.has_name k) l.
Proof.
  intro Hne. unfold URLSearchParams.has_name.
  induction l as [| [n v] l IH]; simpl; auto.
  destruct (String.eqb n name) eqn:En; simpl.
  - apply String.eqb_eq in En. subst n. now rewrite Hne.
  - destruct (String.eqb n k); now rewrite IH.
Qed.

Lemma set_filter_other (k name value : string) (l : URLSearchParams.t) :
  String.eqb name k = false ->
  filter (URLSearchParams.has_name k) (URLSearchParams.set l name value)
  = filter (URLSearchParams.has_name k) l.
Proof.
  intro Hne. induction l as [| [n v] l IH].
  - simpl. unfold URLSearchParams.has_name; simpl. now rewrite Hne.
  - simpl URLSearchParams.set.
    destruct (URLSearchParams.has_name name (n, v)) eqn:En.
    + unfold URLSearchParams.has_name in En; simpl in En.
      apply String.eqb_eq in En. subst n.
      simpl filter. rewrite (remove_filter_other k name l Hne).
      rewrite !has_name_other by exact Hne. reflexivity.
    + simpl filter. rewrite IH. reflexivity.
Qed.

Lemma append_filter_other (k name : string) (values : list string)
    (l : URLSearchParams.t) :
  String.eqb name k = false ->
  filter (URLSearchParams.has_name k) (l ++ map (fun v => (name, v)) values)
  = filter (URLSearchParams.has_name k) l.
Proof.
  intro Hne. rewrite filter_app.
  replace (filter (URLSearchParams.has_name k) (map (fun v => (name, v)) values))
    with (@nil (string * string)); [apply app_nil_r |].
  induction values as [| v values IH]; simpl; auto.
  unfold URLSearchParams.has_name at 1; simpl. now rewrite Hne.
Qed.

Lemma filter_nonempty {A : Type} (p : A -> bool) (l : list A) (x : A) :
  filter p l = [x] -> l <> [].
Proof. destruct l; [discriminate | congruence]. Qed.

Lemma update_query_of (u : URL.t) (l : URLSearchParams.t) :
  l <> [] -> URL.query (URL.update u l) = Some (URLSearchParams.serialize l).
Proof. destruct l; [congruence | reflexivity]. Qed.

(** The state of the URL object in which the name [k] has the one value
    [s], the query of the record being the serialization of the list. *)
Lemma encode_entry_keeps_single (k s : string) (url url' : URLObject)
    (entry : string * QueryValue) :
  String.eqb (fst entry) k = false ->
  (exists l, params url = Some l /\
             filter (URLSearchParams.has_name k) l = [(k, s)] /\
             URL.query (record url) = Some (URLSearchParams.serialize l)) ->
  encode_entry url entry = Normal url' ->
  exists l, params url' = Some l /\
            filter (URLSearchParams.has_name k) l = [(k, s)] /\
            URL.query (record url') = Some (URLSearchParams.serialize l).
Proof.
  intros Hne (l & Hp & Hf & Hq) Hrun.
  destruct entry as [key [v | vs]]; simpl in Hne; simpl encode_entry in Hrun.
  - destruct (set_inv key v url url' Hrun) as (l0 & x & Hl & _ & E).
    rewrite Hp in Hl. inversion Hl; subst l0 url'. clear Hl. simpl.
    exists (URLSearchParams.set l key x).
    assert (Hf' : filter (URLSearchParams.has_name k)
                         (URLSearchParams.set l key x) = [(k, s)]).
    { now rewrite set_filter_other. }
    split; [reflexivity |]. split; [exact Hf' |].
    exact (update_query_of (record url) _ (filter_nonempty _ _ _ Hf')).
  - destruct (forEach_append_inv key vs url url' Hrun) as [E | (l0 & ss & _ & Hss)].
    + subst vs. simpl in Hrun. inversion Hrun; subst. exists l. auto.
    + destruct (forEach_append key vs ss Hss url l Hp)
        as (u & Hrun' & Hp' & Hrec & Hnil).
      rewrite Hrun' in Hrun. inversion Hrun; subst u. clear Hrun.
      destruct vs as [| v vs].
      * rewrite (Hnil eq_refl). exists l. auto.
      * eexists. split; [exact Hp' |].
        assert (Hf' : filter (URLSearchParams.has_name k)
                             (l ++ map (fun x => (key, x)) ss)
                      = [(k, s)]).
        { now rewrite append_filter_other. }
        split; [exact Hf' |].
        rewrite Hrec by discriminate.
        exact (update_query_of (record url) _ (filter_nonempty _ _ _ Hf')).
Qed.

Lemma forEach_keeps_single (k s : string) (entries : list (string * QueryValue)) :
  forall url url' : URLObject,
    forallb (fun e => negb (String.eqb (fst e) k)) entries = true ->
    (exists l, params url = Some l /\
               filter (URLSearchParams.has_name k) l = [(k, s)] /\
               URL.query (record url) = Some (URLSearchParams.serialize l)) ->
    forEach encode_entry entries url = Normal url' ->
    exists l, params url' = Some l /\
              filter (URLSearchParams.has_name k) l = [(k, s)] /\
              URL.query (record url') = Some (URLSearchParams.serialize l).
Proof.
  induction entries as [| e entries IH]; intros url url' Hkeys Hinv Hrun.
  - simpl in Hrun. inversion Hrun; subst. exact Hinv.
  - simpl in Hkeys. apply andb_true_iff in Hkeys. destruct Hkeys as [He Hkeys].
    apply negb_true_iff in He.
    rewrite forEach_cons in Hrun.
    destruct (encode_entry url e) as [u1 | |] eqn:Hrun1; try discriminate.
    cbn [cbind] in Hrun.
    exact (IH u1 url' Hkeys (encode_entry_keeps_single k s url u1 e He Hinv Hrun1) Hrun).
Qed.

Lemma distinct_after_keys (k : string) (v : QueryValue)
    (pre post : list (string * QueryValue)) :
  distinct (map fst (pre ++ (k, v) :: post)) = true ->
  forallb (fun e => negb (String.eqb (fst e) k)) post = true.
Proof.
  intro Hd. rewrite map_app in Hd. simpl in Hd. apply distinct_after in Hd.
  apply forallb_forall. intros e He. apply negb_true_iff.
  destruct (String.eqb (fst e) k) eqn:E; auto.
  apply String.eqb_eq in E. exfalso.
  assert (Hm : mem k (map fst post) = true).
  { unfold mem. apply existsb_exists. exists (fst e).
    split; [now apply in_map | rewrite E; apply String.eqb_refl]. }
  congruence.
Qed.

(** The loop of lines 87-102 on a mapping that holds the scalar [k: v]. *)
Lemma encode_query_single (url url' : URLObject)
    (entries : list (string * QueryValue)) (k : string) (v : Scalar) (s : string) :
  distinct (map fst entries) = true ->
  In (k, One v) entries ->
  toString v = Normal s ->
  encode_query url (Some entries) = Normal url' ->
  exists l, params url' = Some l /\
            filter (URLSearchParams.has_name k) l = [(k, s)] /\
            URL.query (record url') = Some (URLSearchParams.serialize l).
Proof.
  intros Hd Hin Hs Hrun.
  apply in_split in Hin. destruct Hin as (pre & post & E). subst entries.
  unfold encode_query in Hrun. rewrite forEach_app in Hrun.
  destruct (forEach encode_entry pre url) as [u1 | |]; unfold cbind at 1 in Hrun;
    try discriminate.
  rewrite forEach_cons in Hrun.
  destruct (encode_entry u1 (k, One v)) as [u2 | |] eqn:Hrun2; try discriminate.
  cbn [cbind] in Hrun.
  simpl encode_entry in Hrun2.
  destruct (set_inv k v u1 u2 Hrun2) as (l & x & Hl & Hx & E).
  rewrite Hs in Hx. inversion Hx; subst x. clear Hx.
  pose proof (distinct_after_keys k (One v) pre post Hd) as Hkeys.
  apply (forEach_keeps_single k s post u2 url' Hkeys); [| exact Hrun].
  subst u2. exists (URLSearchParams.set l k s). simpl.
  assert (Hf : filter (URLSearchParams.has_name k)
                      (URLSearchParams.set l k s) = [(k, s)])
    by apply set_single.
  split; [reflexivity |]. split; [exact Hf |].
  exact (update_query_of (record u1) _ (filter_nonempty _ _ _ Hf)).
Qed.

Lemma outbound_sends_single (args : Args) (w : World) (url : string)
    (init : FetchInit) (entries : list (string * QueryValue)) (k : string)
    (v : Scalar) (s : string) :
  query args = Some entries ->
  distinct (map fst entries) = true ->
  In (k, One v) entries ->
  toString v = Normal s ->
  fst (outbound NOOKIPEDIA_API_VERSION args w) = Normal (url, init) ->
  sends_single url k s.
Proof.
  intros Hq Hd Hin Hs Hout.
  destruct (outbound_built _ _ _ _ _ Hout) as (u & Hbuilt & Hurl & Hparse).
  unfold built_url in Hbuilt.
  destruct (new_URL _ _) as [u0 | |]; try discriminate.
  cbn [cbind] in Hbuilt. rewrite Hq in Hbuilt.
  destruct (encode_query_single u0 u entries k v s Hd Hin Hs Hbuilt)
    as (l & Hp & Hf & Hqu).
  exists (record u), l. split; [exact Hparse |]. split; [| exact Hf].
  unfold URL.searchParams. rewrite Hqu. apply parse_serialize.
Qed.

(** X9. A scalar entry [k: v] of a query whose keys are distinct is sent
    as the one pair named [k], with the string of [v] as value, whatever
    the rest of the query and the path of the call bring under that
    name: the URL handed to the transport parses, and the pairs decoded
    from its query hold that pair and no other of that name. *)
Theorem scalar_parameter_sent_once :
  forall (fetch : Transport) (args : Args) (w : World) (url : string)
         (init : FetchInit) (entries : list (string * QueryValue))
         (k : string) (v : Scalar) (s : string),
    query args = Some entries ->
    distinct (map fst entries) = true ->
    In (k, One v) entries ->
    toString v = Normal s ->
    calls (snd (request fetch args w)) = calls w ++ [(url, init)] ->
    sends_single url k s.
Proof.
  intros fetch args w url init entries k v s Hq Hd Hin Hs Hcalls.
  apply request_called_inv in Hcalls.
  now apply (outbound_sends_single args w url init entries k v s).
Qed.

End QueryOfTheRequest.

Lemma scalar_parameter_sent_once_witness :
  sends_single "https://api.nookipedia.com/nh/bugs?month=jan&thumbsize=20"
               "thumbsize" "20".
Proof.
  apply (scalar_parameter_sent_once (mockFetch okEmpty)
           {| path := "/nh/bugs"; replacePath := None;
              query := Some [("month", One (SString "jan"));
                             ("thumbsize", One (SNumber 20))];
              fetchOptions := None |}
           (fresh "apiKey" None)
           "https://api.nookipedia.com/nh/bugs?month=jan&thumbsize=20"
           {| headers := [("Accept-Version", "1.0.0"); ("X-API-KEY", "apiKey")];
              other := [] |}
           [("month", One (SString "jan")); ("thumbsize", One (SNumber 20))]
           "thumbsize" (SNumber 20) "20").
  - reflexivity.
  - reflexivity.
  - simpl. auto.
  - reflexivity.
  - reflexivity.
Defined.

(** ** The wrappers that fix a parameter *)

Section FixedParameters.

Lemma in_assign_same {A : Type} (o : list (string * A)) (k : string) (v : A) :
  In (k, v) (assign o k v).
Proof.
  induction o as [| [k0 x] o IH]; simpl; auto.
  destruct (String.eqb k0 k) eqn:E; simpl; auto.
  apply String.eqb_eq in E. subst. auto.
Qed.

Lemma in_assign_other {A : Type} (o : list (string * A)) (k k' : string) (v x : A) :
  String.eqb k' k = false -> In (k', x) o -> In (k', x) (assign o k v).
Proof.
  intro Hne. induction o as [| [k0 y] o IH]; simpl; [tauto |].
  intros [H | H].
  - inversion H; subst. rewrite Hne. now left.
  - destruct (String.eqb k0 k); simpl; auto.
Qed.

Lemma mem_assign {A : Type} (o : list (string * A)) (k x : string) (v : A) :
  mem x (map fst (assign o k v)) = (mem x (map fst o) || String.eqb x k)%bool.
Proof.
  unfold mem. induction o as [| [k0 y] o IH]; simpl.
  - now rewrite orb_false_r.
  - destruct (String.eqb k0 k) eqn:E; simpl.
    + apply String.eqb_eq in E. subst k0.
      destruct (String.eqb x k); simpl; auto. now rewrite orb_false_r.
    + rewrite IH. now rewrite orb_assoc.
Qed.

(** Spreading and then setting a key keeps the keys distinct. *)
Lemma distinct_assign {A : Type} (o : list (string * A)) (k : string) (v : A) :
  distinct (map fst o) = true -> distinct (map fst (assign o k v)) = true.
Proof.
  induction o as [| [k0 y] o IH]; simpl; auto.
  rewrite andb_true_iff, negb_true_iff. intros [Hk0 Hd].
  destruct (String.eqb k0 k) eqn:E; simpl.
  - now rewrite Hk0, Hd.
  - rewrite mem_assign, Hk0, E. simpl. auto.
Qed.

(** X10. The wrappers by month ([getAllBugsByMonth],
    [getAllBugNamesByMonth] and those of fish and sea creatures) send the
    month they are given as the one pair named [month], whatever the
    caller's own query holds, a [month] of its own included. *)
Theorem by_month_wrappers_send_the_month :
  forall (path : string) (fetch : Transport) (month : string)
         (options : option Options) (w : World) (url : string) (init : FetchInit),
    distinct (map fst (spread (query_of options))) = true ->
    (calls (snd (list_by_month path fetch month options w))
     = calls w ++ [(url, init)] ->
     sends_single url "month" month) /\
    (calls (snd (list_names_by_month path fetch month options w))
     = calls w ++ [(url, init)] ->
     sends_single url "month" month).
Proof.
  intros path fetch month options w url init Hd.
  split; intro Hcalls; apply request_called_inv in Hcalls.
  - apply (fun H1 H2 H3 =>
             outbound_sends_single _ w url init
               (assign (spread (query_of options)) "month" (One (SString month)))
               "month" (SString month) month H1 H2 H3 eq_refl Hcalls);
      [reflexivity | |];
      auto using distinct_assign, in_assign_same.
  - apply (fun H1 H2 H3 =>
             outbound_sends_single _ w url init
             (assign (assign (spread (query_of options)) "excludedetails"
                             (One (SString "true")))
                     "month" (One (SString month)))
             "month" (SString month) month H1 H2 H3 eq_refl Hcalls);
      [reflexivity | |];
      auto using distinct_assign, in_assign_same.
Qed.

Lemma by_month_wrappers_send_the_month_witness :
  sends_single "https://api.nookipedia.com/nh/bugs?month=jan&thumbsize=20"
               "month" "jan".
Proof.
  apply (proj1 (by_month_wrappers_send_the_month "/nh/bugs" (mockFetch okEmpty)
                  "jan"
                  (Some {| opt_query := Some [("month", One (SString "dec"));
                                              ("thumbsize", One (SNumber 20))];
                           opt_fetchOptions := None |})
                  (fresh "apiKey" None)
                  "https://api.nookipedia.com/nh/bugs?month=jan&thumbsize=20"
                  {| headers := [("Accept-Version", "1.0.0"); ("X-API-KEY", "apiKey")];
                     other := [] |}
                  eq_refl)).
  reflexivity.
Defined.

(** X11. The wrappers for names ([getAllBugNames],
    [getAllBugNamesByMonth] and those of fish and sea creatures) send
    [excludedetails=true] as the one pair of that name, whatever the
    caller's own query holds. *)
Theorem names_wrappers_exclude_details :
  forall (path : string) (fetch : Transport) (month : string)
         (options : option Options) (w : World) (url : string) (init : FetchInit),
    distinct (map fst (spread (query_of options))) = true ->
    (calls (snd (list_names path fetch options w)) = calls w ++ [(url, init)] ->
     sends_single url "excludedetails" "true") /\
    (calls (snd (list_names_by_month path fetch month options w))
     = calls w ++ [(url, init)] ->
     sends_single url "excludedetails" "true").
Proof.
  intros path fetch month options w url init Hd.
  split; intro Hcalls; apply request_called_inv in Hcalls.
  - apply (fun H1 H2 H3 =>
             outbound_sends_single _ w url init
             (assign (spread (query_of options)) "excludedetails"
                     (One (SString "true")))
             "excludedetails" (SString "true") "true" H1 H2 H3 eq_refl Hcalls);
      [reflexivity | |];
      auto using distinct_assign, in_assign_same.
  - apply (fun H1 H2 H3 =>
             outbound_sends_single _ w url init
             (assign (assign (spread (query_of options)) "excludedetails"
                             (One (SString "true")))
                     "month" (One (SString month)))
             "excludedetails" (SString "true") "true" H1 H2 H3 eq_refl Hcalls);
      [reflexivity | |];
      auto using distinct_assign, in_assign_same, in_assign_other.
Qed.

Lemma names_wrappers_exclude_details_witness :
  sends_single "https://api.nookipedia.com/nh/fish?excludedetails=true&month=jan"
               "excludedetails" "true".
Proof.
  apply (proj2 (names_wrappers_exclude_details "/nh/fish" (mockFetch okEmpty)
                  "jan"
                  (Some {| opt_query := Some [("excludedetails", One (SString "false"))];
                           opt_fetchOptions := None |})
                  (fresh "apiKey" None)
                  "https://api.nookipedia.com/nh/fish?excludedetails=true&month=jan"
                  {| headers := [("Accept-Version", "1.0.0"); ("X-API-KEY", "apiKey")];
                     other := [] |}
                  eq_refl)).
  reflexivity.
Defined.

End FixedParameters.

(** ** The path of the outbound request *)

Section PathOfTheRequest.
#[local] Arguments Ascii.eqb : simpl never.

(** X12. On a template whose braces occur in placeholders only and whose
    placeholders are distinct, with keys without braces and values
    without brace or [$], the resolved path is the template with the
    named placeholders replaced: a placeholder the mapping does not name
    stays as it is, and an entry that names no placeholder changes
    nothing. *)
Theorem resolve_path_partial_mapping :
  forall (t : list Template.piece) (entries : list (string * string)),
    Template.well_formed t = true ->
    forallb (fun e => Template.brace_free (fst e)) entries = true ->
    forallb (fun e => Template.plain (snd e)) entries = true ->
    resolve_path (Template.render t) (Some entries) = Template.fill entries t.
Proof.
  intros t entries Hwf Hkeys Hvals.
  rewrite resolve_render by assumption. apply render_fold_subst.
Qed.

Lemma resolve_path_partial_mapping_witness :
  resolve_path "/nh/{kind}/{name}" (Some [("name", "carp"); ("unused", "x")])
  = "/nh/{kind}/carp".
Proof.
  apply (resolve_path_partial_mapping
           [Template.Lit "/nh/"; Template.Hole "kind"; Template.Lit "/";
            Template.Hole "name"]
           [("name", "carp"); ("unused", "x")]);
    reflexivity.
Defined.

Lemma segment_char_facts (c : ascii) :
  segment_char c = true ->
  Ascii.eqb "$" c = false /\ URL.is_tab_or_newline c = false /\
  URL.is_slash c = false /\ Ascii.eqb c "?" = false /\ Ascii.eqb c "#" = false.
Proof.
  destruct c as [[] [] [] [] [] [] [] []]; vm_compute; intro H;
    try discriminate H; repeat split; reflexivity.
Qed.

Lemma segment_dollar_free (s : string) :
  JsString.forallb segment_char s = true -> Template.dollar_free s = true.
Proof.
  unfold Template.dollar_free, JsString.includes_char.
  induction s as [| c s IH]; auto.
  change (JsString.forallb segment_char (String c s))
    with (segment_char c && JsString.forallb segment_char s)%bool.
  rewrite andb_true_iff. intros [Hc Hs].
  rewrite existsb_cons, negb_orb, (proj1 (segment_char_facts c Hc)). simpl.
  now apply IH.
Qed.

Lemma segment_untouched (s : string) :
  JsString.forallb segment_char s = true ->
  JsString.filter (fun c => negb (URL.is_tab_or_newline c)) s = s.
Proof.
  induction s as [| c s IH]; auto.
  change (JsString.forallb segment_char (String c s))
    with (segment_char c && JsString.forallb segment_char s)%bool.
  rewrite andb_true_iff. intros [Hc Hs].
  destruct (segment_char_facts c Hc) as (_ & Ht & _).
  simpl. rewrite Ht. simpl. now rewrite IH.
Qed.

Lemma filter_sapp (p : ascii -> bool) (a b : string) :
  JsString.filter p (a ++ b) = (JsString.filter p a ++ JsString.filter p b)%string.
Proof.
  induction a as [| c a IH]; simpl; auto.
  destruct (p c); simpl; now rewrite IH.
Qed.

Lemma strip_trailing_visible (s : string) :
  ends_visible s = true -> URL.strip_trailing s = s.
Proof.
  induction s as [| c s IH]; auto.
  destruct s as [| c' s'].
  - simpl. intro H. apply negb_true_iff in H. now rewrite H.
  - intro H. change (ends_visible (String c (String c' s')))
      with (ends_visible (String c' s')) in H.
    change (URL.strip_trailing (String c (String c' s')))
      with (match URL.strip_trailing (String c' s') with
            | EmptyString =>
                if URL.is_c0_or_space c then EmptyString else String c EmptyString
            | String x r => String c (String x r)
            end).
    now rewrite (IH H).
Qed.

Lemma ends_visible_app (a b : string) :
  ends_visible (a ++ b)
  = match b with EmptyString => ends_visible a | _ => ends_visible b end.
Proof.
  induction a as [| c a IH].
  - simpl. destruct b; reflexivity.
  - destruct b as [| c' b'].
    + now rewrite sapp_nil_r.
    + change (String c a ++ String c' b')%string with (String c (a ++ String c' b')).
      destruct (a ++ String c' b')%string as [| x r] eqn:E.
      * destruct a; discriminate.
      * change (ends_visible (String c (String x r))) with (ends_visible (String x r)).
        exact IH.
Qed.

(** The path state on the text of one segment. *)
Lemma path_state_segment (s : string) :
  forall (buffer : string) (path : list string),
    JsString.forallb segment_char s = true ->
    URL.path_state s buffer path
    = (URL.push_segment (buffer ++ encode_segment s) false path, URL.TEnd).
Proof.
  induction s as [| c s IH]; intros buffer path H.
  - simpl. now rewrite sapp_nil_r.
  - change (JsString.forallb segment_char (String c s))
      with (segment_char c && JsString.forallb segment_char s)%bool in H.
    apply andb_true_iff in H. destruct H as [Hc Hs].
    destruct (segment_char_facts c Hc) as (_ & _ & Hsl & Hq & Hf).
    simpl URL.path_state. rewrite Hsl, Hq, Hf.
    rewrite (IH _ path Hs). unfold encode_segment. simpl JsString.flat_map.
    now rewrite sapp_assoc.
Qed.

(** Resolving a reference made of a fixed text and one more segment. *)
Lemma parse_with_segment (b : URL.t) (c2 : ascii) (pre : string)
    (segs : list string) (name : string) :
  URL.is_c0_or_space c2 = false ->
  URL.is_slash c2 = false ->
  JsString.filter (fun c => negb (URL.is_tab_or_newline c)) (String "/" (String c2 pre))
  = String "/" (String c2 pre) ->
  ends_visible (String "/" (String c2 pre)) = true ->
  (forall rest, URL.path_state (String c2 pre ++ rest) EmptyString []
                = URL.path_state rest EmptyString segs) ->
  path_segment name = true ->
  URL.parse (String "/" (String c2 pre) ++ name) (Some b)
  = Normal (URL.mk (URL.scheme b) (URL.host b) (URL.port b)
                   (segs ++ [encode_segment name]) None None).
Proof.
  intros Hc2 Hsl Hfilter Hvis Hpath Hname.
  unfold path_segment in Hname.
  apply andb_true_iff in Hname. destruct Hname as [Hname Hdot].
  apply andb_true_iff in Hname. destruct Hname as [Hchars Hend].
  apply negb_true_iff, orb_false_iff in Hdot. destruct Hdot as [Hdot1 Hdot2].
  unfold URL.parse.
  assert (Hpre : URL.preprocess (String "/" (String c2 pre) ++ name)
                 = (String "/" (String c2 pre) ++ name)%string).
  { unfold URL.preprocess.
    change (URL.strip_leading (String "/" (String c2 pre) ++ name))
      with (String "/" (String c2 pre) ++ name)%string.
    rewrite strip_trailing_visible.
    - now rewrite filter_sapp, Hfilter, segment_untouched.
    - rewrite ends_visible_app. destruct name; assumption. }
  rewrite Hpre.
  change (URL.scan_scheme (String "/" (String c2 pre) ++ name))
    with (@None (string * string)). cbv iota.
  unfold URL.relative_state.
  change (String "/" (String c2 pre) ++ name)%string
    with (String "/" (String c2 (pre ++ name))).
  change (URL.is_slash "/") with true. cbv iota. rewrite Hsl.
  change (String c2 (pre ++ name)) with (String c2 pre ++ name)%string.
  rewrite Hpath, path_state_segment by exact Hchars.
  unfold URL.push_segment. simpl append. rewrite Hdot1, Hdot2.
  reflexivity.
Qed.

(** The request of a wrapper for a single resource. *)
Lemma single_url (c2 : ascii) (pre key : string) (segs : list string)
    (fetch : Transport) (name : string) (options : option Options) (w : World)
    (b : URL.t) (url : string) (init : FetchInit) :
  URL.is_c0_or_space c2 = false ->
  URL.is_slash c2 = false ->
  JsString.filter (fun c => negb (URL.is_tab_or_newline c)) (String "/" (String c2 pre))
  = String "/" (String c2 pre) ->
  ends_visible (String "/" (String c2 pre)) = true ->
  (forall rest, URL.path_state (String c2 pre ++ rest) EmptyString []
                = URL.path_state rest EmptyString segs) ->
  Template.well_formed [Template.Lit (String "/" (String c2 pre)); Template.Hole key]
  = true ->
  URL.parse (apiUrl (this w)) None = Normal b ->
  query_of options = None ->
  path_segment name = true ->
  calls (snd (single (String "/" (String c2 pre) ++ placeholder key) key
                     fetch name options w))
  = calls w ++ [(url, init)] ->
  url = URL.href (URL.mk (URL.scheme b) (URL.host b) (URL.port b)
                         (segs ++ [encode_segment name]) None None).
Proof.
  intros Hc2 Hsl Hfilter Hvis Hpath Hwf Hbase Hq Hname Hcalls.
  apply request_called_inv in Hcalls.
  destruct (outbound_inv _ _ _ _ _ Hcalls) as (u0 & u & H0 & Hnew & Henc & Hurl & _).
  cbn [path replacePath query] in Hnew, Henc.
  rewrite Hq in Henc. simpl in Henc. inversion Henc; subst u.
  assert (Hres : resolve_path (String "/" (String c2 pre) ++ placeholder key)
                              (Some [(key, name)])
                 = (String "/" (String c2 pre) ++ name)%string).
  { pose proof Hname as Hn. unfold path_segment in Hn.
    apply andb_true_iff in Hn. destruct Hn as [Hn _].
    apply andb_true_iff in Hn. destruct Hn as [Hchars _].
    pose proof Hwf as Hwf'. unfold Template.well_formed in Hwf'. simpl in Hwf'.
    rewrite !andb_true_iff in Hwf'. destruct Hwf' as [[_ [Hkey _]] _].
    assert (Hr : Template.render
                   [Template.Lit (String "/" (String c2 pre)); Template.Hole key]
                 = (String "/" (String c2 pre) ++ placeholder key)%string).
    { unfold Template.render, Template.render_piece. now rewrite sapp_nil_r. }
    unfold resolve_path. cbn [fold_left].
    rewrite <- Hr.
    rewrite (replace_render key name _ Hkey (segment_dollar_free name Hchars) Hwf).
    unfold Template.subst. cbn [List.map fst snd Template.subst_piece].
    rewrite String.eqb_refl.
    unfold Template.render, Template.render_piece. now rewrite sapp_nil_r. }
  rewrite Hres in Hnew. unfold new_URL, URL.new in Hnew.
  rewrite Hbase in Hnew. cbn [cbind] in Hnew.
  rewrite (parse_with_segment b c2 pre segs name Hc2 Hsl Hfilter Hvis Hpath Hname)
    in Hnew.
  cbn [cbind] in Hnew. inversion Hnew; subst u0. exact Hurl.
Qed.

End PathOfTheRequest.

(** X13. With a base URL that parses and no query, [getBug], [getFish]
    and [getSeaCreature] request the path of the resource followed by the
    name as one percent-encoded segment, on the scheme, host and port of
    the base, provided the name is a segment of its own: no slash,
    backslash, [?], [#], brace, [$], [^], tab or line break in it, no
    space or control at its end, and not a dot segment. *)
Theorem single_resource_url :
  forall (fetch : Transport) (name : string) (options : option Options)
         (w : World) (b : URL.t) (url : string) (init : FetchInit),
    URL.parse (apiUrl (this w)) None = Normal b ->
    query_of options = None ->
    path_segment name = true ->
    (calls (snd (getBug fetch name options w)) = calls w ++ [(url, init)] ->
     url = URL.href (URL.mk (URL.scheme b) (URL.host b) (URL.port b)
                            ["nh"; "bugs"; encode_segment name] None None)) /\
    (calls (snd (getFish fetch name options w)) = calls w ++ [(url, init)] ->
     url = URL.href (URL.mk (URL.scheme b) (URL.host b) (URL.port b)
                            ["nh"; "fish"; encode_segment name] None None)) /\
    (calls (snd (getSeaCreature fetch name options w)) = calls w ++ [(url, init)] ->
     url = URL.href (URL.mk (URL.scheme b) (URL.host b) (URL.port b)
                            ["nh"; "sea"; encode_segment name] None None)).
Proof.
  intros fetch name options w b url init Hbase Hq Hname.
  split; [| split]; intro Hcalls.
  - apply (single_url "n" "h/bugs/" "bug" ["nh"; "bugs"] fetch name options w b
             url init); auto.
  - apply (single_url "n" "h/fish/" "fish" ["nh"; "fish"] fetch name options w b
             url init); auto.
  - apply (single_url "n" "h/sea/" "sea_creature" ["nh"; "sea"] fetch name options
             w b url init); auto.
Qed.

Lemma single_resource_url_witness :
  "https://api.nookipedia.com/nh/bugs/agrias%20butterfly"
  = URL.href (URL.mk "https" "api.nookipedia.com" None
                     ["nh"; "bugs"; encode_segment "agrias butterfly"] None None).
Proof.
  apply (proj1 (single_resource_url (mockFetch okEmpty) "agrias butterfly" None
                  (fresh "apiKey" None)
                  (URL.mk "https" "api.nookipedia.com" None [""] None None)
                  "https://api.nookipedia.com/nh/bugs/agrias%20butterfly"
                  {| headers := [("Accept-Version", "1.0.0"); ("X-API-KEY", "apiKey")];
                     other := [] |}
                  eq_refl eq_refl eq_refl)).
  reflexivity.
Defined.

(** ** The revisions of [request] compared *)

Section Revisions.

(** The outbound requests of two revisions: they fail alike, or both are
    made, to the same URL. *)
Lemma outbound_versions (v1 v2 : string) (args : Args) (w : World) :
  Headers.valid_value (Headers.normalize v1) = true ->
  Headers.valid_value (Headers.normalize v2) = true ->
  (exists url init1 init2,
      fst (outbound v1 args w) = Normal (url, init1) /\
      fst (outbound v2 args w) = Normal (url, init2) /\
      other init1 = other init2 /\
      forall name, Headers.name_eqb name "Accept-Version" = false ->
                   Headers.list_get (headers init1) name
                   = Headers.list_get (headers init2) name)
  \/
  (fst (outbound v1 args w) = fst (outbound v2 args w) /\
   forall o, fst (outbound v1 args w) <> Normal o).
Proof.
  intros Hv1 Hv2.
  unfold outbound, bind, lift, ret, this_apiUrl, this_apiKey; simpl.
  destruct (new_URL _ _) as [u0 | |]; simpl;
    try (right; split; [reflexivity | discriminate]).
  destruct (encode_query u0 (query args)) as [u | |]; simpl;
    try (right; split; [reflexivity | discriminate]).
  destruct (Headers.new _) as [h0 | |]; simpl;
    try (right; split; [reflexivity | discriminate]).
  unfold Headers.set. rewrite Hv1, Hv2. simpl.
  destruct (Headers.valid_value (Headers.normalize (apiKey (this w)))); simpl.
  - left. eexists. eexists. eexists.
    split; [reflexivity |]. split; [reflexivity |]. split; [reflexivity |].
    intros name Hname. simpl.
    destruct (Headers.name_eqb name "X-API-KEY") eqn:Hk.
    + unfold Headers.list_get.
      assert (Hsame : forall l v,
                 map snd (filter (Headers.named name) (Headers.list_set l "X-API-KEY" v))
                 = map snd (filter (Headers.named "X-API-KEY")
                                   (Headers.list_set l "X-API-KEY" v))).
      { intros l v. f_equal. apply filter_ext.
        intros [n x]. unfold Headers.named, Headers.name_eqb in *. simpl.
        apply String.eqb_eq in Hk. now rewrite Hk. }
      now rewrite !Hsame, !list_set_same.
    + now rewrite !list_get_set_other by assumption.
  - right. split; [reflexivity | discriminate].
Qed.

(** X14. The 1.6.0 revision and [src/index.ts] send the same URL and the
    same other options, with headers that differ under [Accept-Version]
    only; what fails before the transport fails alike in both. *)
Theorem revisions_send_alike :
  forall (args : Args) (w : World),
    (exists url init1 init2,
        fst (outbound NOOKIPEDIA_API_VERSION args w) = Normal (url, init1) /\
        fst (outbound Rev_1_6_0.NOOKIPEDIA_API_VERSION args w) = Normal (url, init2) /\
        other init1 = other init2 /\
        forall name, Headers.name_eqb name "Accept-Version" = false ->
                     Headers.list_get (headers init1) name
                     = Headers.list_get (headers init2) name)
    \/
    (fst (outbound NOOKIPEDIA_API_VERSION args w)
     = fst (outbound Rev_1_6_0.NOOKIPEDIA_API_VERSION args w) /\
     forall o, fst (outbound NOOKIPEDIA_API_VERSION args w) <> Normal o).
Proof.
  intros args w. now apply outbound_versions.
Qed.

Lemma classify_agree (r : Response) (b : value) (w w' : World) :
  ok r = true \/ status r <> Some 400%Z ->
  fst (Rev_1_6_0.classify r b w) = fst (classify r b w').
Proof.
  intro H. unfold Rev_1_6_0.classify, classify.
  destruct (ok r) eqn:Hok; [reflexivity |].
  destruct H as [H | H]; [discriminate |].
  rewrite (status_is_neq r 400 H).
  unfold throw_new, bind, lift, throw, ret.
  repeat match goal with
         | |- context [if ?c then _ else _] => destruct c
         | |- context [match ?c with Normal _ => _ | Throw _ => _ | OutsideModel => _ end] =>
             destruct c
         end; reflexivity.
Qed.

(** X15. Answered with the same response, the 1.6.0 revision and
    [src/index.ts] end alike, unless the response is not ok and has
    status 400. *)
Theorem revisions_agree_except_400 :
  forall (r : Response) (args : Args) (w : World),
    ok r = true \/ status r <> Some 400%Z ->
    fst (Rev_1_6_0.request (mockFetch r) args w) = fst (request (mockFetch r) args w).
Proof.
  intros r args w H.
  rewrite request_unfold, request_1_6_0_unfold.
  destruct (outbound_versions NOOKIPEDIA_API_VERSION
              Rev_1_6_0.NOOKIPEDIA_API_VERSION args w eq_refl eq_refl)
    as [(url & init1 & init2 & H1 & H2 & _) | [Hsame Hnot]].
  - rewrite H1, H2. unfold mockFetch. simpl.
    destruct (json r); [| reflexivity].
    now apply classify_agree.
  - rewrite <- Hsame.
    destruct (fst (outbound NOOKIPEDIA_API_VERSION args w)) as [o | e |];
      try reflexivity.
    exfalso. now apply (Hnot o).
Qed.

Lemma revisions_agree_except_400_witness :
  fst (Rev_1_6_0.request (mockFetch (respond false (Some 404%Z) (Fulfilled title_a)))
                         allBugs (fresh "apiKey" None))
  = fst (request (mockFetch (respond false (Some 404%Z) (Fulfilled title_a)))
                 allBugs (fresh "apiKey" None)).
Proof.
  apply (revisions_agree_except_400
           (respond false (Some 404%Z) (Fulfilled title_a)) allBugs
           (fresh "apiKey" None)).
  right. discriminate.
Defined.

Lemma request_initial_unfold (fetch : Transport) (args : Args) (w : World) :
  Rev_initial.request fetch args w =
  match fst (outbound Rev_initial.NOOKIPEDIA_API_VERSION args w) with
  | Normal o =>
      match fetch (fst o) (snd o) with
      | Fulfilled r =>
          match json r with
          | Fulfilled body => (Normal body, called w o)
          | Rejected e => (Throw (External e), called w o)
          end
      | Rejected e => (Throw (External e), called w o)
      end
  | Throw e => (Throw e, w)
  | OutsideModel => (OutsideModel, w)
  end.
Proof.
  unfold Rev_initial.request, bind at 1.
  rewrite (outbound_eta Rev_initial.NOOKIPEDIA_API_VERSION args w); simpl.
  destruct (fst (outbound Rev_initial.NOOKIPEDIA_API_VERSION args w)) as [o | e |];
    try reflexivity.
  unfold bind, await_fetch, called; simpl.
  destruct (fetch (fst o) (snd o)) as [r | e]; simpl; try reflexivity.
  destruct (json r); reflexivity.
Qed.

(** X16. The first revision of [request] does not look at [ok] or
    [status]: it sends the request [src/index.ts] sends and resolves to
    the decoded body of whatever response comes, so that it agrees with
    [src/index.ts] on the responses that are ok and never raises a
    [NookipediaError]. *)
Theorem first_revision_ignores_status :
  (forall (fetch : Transport) (args : Args) (w : World)
          (url : string) (init : FetchInit) (r : Response) (b : value),
      fst (outbound NOOKIPEDIA_API_VERSION args w) = Normal (url, init) ->
      fetch url init = Fulfilled r ->
      json r = Fulfilled b ->
      Rev_initial.request fetch args w = (Normal b, called w (url, init)) /\
      (ok r = true -> Rev_initial.request fetch args w = request fetch args w)) /\
  (forall (fetch : Transport) (args : Args) (w : World) (e : NookipediaError),
      fst (Rev_initial.request fetch args w) <> Throw (Raised e)).
Proof.
  split.
  - intros fetch args w url init r b Hout Hfetch Hjson.
    rewrite request_initial_unfold, request_unfold.
    change Rev_initial.NOOKIPEDIA_API_VERSION with NOOKIPEDIA_API_VERSION.
    rewrite Hout. simpl. rewrite Hfetch, Hjson.
    split; [reflexivity |].
    intro Hok. unfold classify. now rewrite Hok.
  - intros fetch args w e H.
    rewrite request_initial_unfold in H.
    pose proof (outbound_throws Rev_initial.NOOKIPEDIA_API_VERSION args w) as Hte.
    destruct (fst (outbound Rev_initial.NOOKIPEDIA_API_VERSION args w))
      as [o | t |]; simpl in H;
      [| inversion H; subst; discriminate (Hte _ eq_refl) | discriminate].
    destruct (fetch (fst o) (snd o)) as [r | reason]; simpl in H; [| discriminate].
    destruct (json r); discriminate.
Qed.

Lemma first_revision_ignores_status_witness :
  Rev_initial.request (mockFetch (respond false (Some 404%Z) (Fulfilled title_a)))
                      allBugs (fresh "apiKey" None)
  = (Normal title_a,
     called (fresh "apiKey" None)
            ("https://api.nookipedia.com/nh/bugs",
             {| headers := [("Accept-Version", "1.0.0"); ("X-API-KEY", "apiKey")];
                other := [] |})).
Proof.
  apply (proj1 first_revision_ignores_status
           (mockFetch (respond false (Some 404%Z) (Fulfilled title_a)))
           allBugs (fresh "apiKey" None)
           "https://api.nookipedia.com/nh/bugs"
           {| headers := [("Accept-Version", "1.0.0"); ("X-API-KEY", "apiKey")];
              other := [] |}
           (respond false (Some 404%Z) (Fulfilled title_a)) title_a);
    reflexivity.
Defined.

End Revisions.

(** ** The URL read back *)

Section WhatIsSent.

Lemma encode_query_params (url url' : URLObject)
    (query : option (list (string * QueryValue))) :
  params url = URL.searchParams (record url) ->
  encode_query url query = Normal url' ->
  params url' = URL.searchParams (record url').
Proof.
  intros H Hrun. unfold encode_query in Hrun.
  destruct query as [entries |]; [| apply Normal_inj in Hrun; now subst].
  assert (Hstep : forall (u u' : URLObject) f,
             with_params u f = Normal u' ->
             params u' = URL.searchParams (record u')).
  { intros u u' f. unfold with_params.
    destruct (params u); [| discriminate].
    intro E. apply Normal_inj in E. subst u'. simpl.
    symmetry. apply searchParams_update. }
  revert Hrun.
  apply (forEach_invariant (fun u => params u = URL.searchParams (record u))); auto.
  intros s [key [v | vs]] s' Hs; simpl.
  - destruct (toString v); try discriminate. cbn [cbind]. apply Hstep.
  - apply (forEach_invariant (fun u => params u = URL.searchParams (record u))); auto.
    intros s0 x s1 Hs0. destruct (toString x); try discriminate. cbn [cbind].
    apply Hstep.
Qed.

(** X17. The URL handed to the transport reads back as what [request]
    has built: it is the serialization of the URL record of lines 80-102,
    it parses to that very record, and the pairs decoded from the query of
    the record are the pairs [url.searchParams] holds after the loop. *)
Theorem sent_url_reads_back :
  forall (fetch : Transport) (args : Args) (w : World) (url : string)
         (init : FetchInit),
    calls (snd (request fetch args w)) = calls w ++ [(url, init)] ->
    exists u : URLObject,
      built_url args w = Normal u /\
      url = URL.href (record u) /\
      URL.parse url None = Normal (record u) /\
      URL.searchParams (record u) = params u.
Proof.
  intros fetch args w url init Hcalls.
  apply request_called_inv in Hcalls.
  destruct (outbound_built _ _ _ _ _ Hcalls) as (u & Hbuilt & Hurl & Hparse).
  exists u. split; [exact Hbuilt |]. split; [exact Hurl |].
  split; [exact Hparse |].
  unfold built_url in Hbuilt.
  destruct (new_URL _ _) as [u0 | |] eqn:Hnew; try discriminate.
  cbn [cbind] in Hbuilt. symmetry.
  apply (encode_query_params u0 u (query args)); [| exact Hbuilt].
  unfold new_URL in Hnew.
  destruct (URL.new _ _); try discriminate.
  cbn [cbind] in Hnew. apply Normal_inj in Hnew. now subst u0.
Qed.

End WhatIsSent.

Lemma sent_url_reads_back_witness :
  exists u : URLObject,
    built_url {| path := "/nh/bugs"; replacePath := None;
                 query := Some [("month", One (SString "jan"));
                                ("thumbsize", One (SNumber 20))];
                 fetchOptions := None |}
              (fresh "apiKey" None) = Normal u /\
    "https://api.nookipedia.com/nh/bugs?month=jan&thumbsize=20"
    = URL.href (record u) /\
    URL.parse "https://api.nookipedia.com/nh/bugs?month=jan&thumbsize=20" None
    = Normal (record u) /\
    URL.searchParams (record u) = params u.
Proof.
  apply (sent_url_reads_back (mockFetch okEmpty)
           {| path := "/nh/bugs"; replacePath := None;
              query := Some [("month", One (SString "jan"));
                             ("thumbsize", One (SNumber 20))];
              fetchOptions := None |}
           (fresh "apiKey" None)
           "https://api.nookipedia.com/nh/bugs?month=jan&thumbsize=20"
           {| headers := [("Accept-Version", "1.0.0"); ("X-API-KEY", "apiKey")];
              other := [] |}).
  reflexivity.
Defined.

(** ** What the wrappers keep of the caller's options *)

Section CallerOptions.

(** X18. The wrappers that add [month] or [excludedetails] keep every
    other scalar parameter of the caller's query: it is sent once, with
    the string of the caller's value. *)
Theorem wrappers_keep_caller_parameters :
  forall (path : string) (fetch : Transport) (month : string)
         (options : option Options) (w : World) (url : string) (init : FetchInit)
         (k : string) (v : Scalar) (s : string),
    distinct (map fst (spread (query_of options))) = true ->
    In (k, One v) (spread (query_of options)) ->
    toString v = Normal s ->
    String.eqb k "month" = false ->
    String.eqb k "excludedetails" = false ->
    (calls (snd (list_by_month path fetch month options w))
     = calls w ++ [(url, init)] -> sends_single url k s) /\
    (calls (snd (list_names path fetch options w))
     = calls w ++ [(url, init)] -> sends_single url k s) /\
    (calls (snd (list_names_by_month path fetch month options w))
     = calls w ++ [(url, init)] -> sends_single url k s).
Proof.
  intros path fetch month options w url init k v s Hd Hin Hs Hm He.
  repeat split; intro Hcalls; apply request_called_inv in Hcalls.
  - apply (fun H1 H2 H3 =>
             outbound_sends_single _ w url init
               (assign (spread (query_of options)) "month" (One (SString month)))
               k v s H1 H2 H3 Hs Hcalls);
      [reflexivity | |];
      auto using distinct_assign, in_assign_other.
  - apply (fun H1 H2 H3 =>
             outbound_sends_single _ w url init
               (assign (spread (query_of options)) "excludedetails"
                       (One (SString "true")))
               k v s H1 H2 H3 Hs Hcalls);
      [reflexivity | |];
      auto using distinct_assign, in_assign_other.
  - apply (fun H1 H2 H3 =>
             outbound_sends_single _ w url init
               (assign (assign (spread (query_of options)) "excludedetails"
                               (One (SString "true")))
                       "month" (One (SString month)))
               k v s H1 H2 H3 Hs Hcalls);
      [reflexivity | |];
      auto using distinct_assign, in_assign_other.
Qed.

Lemma wrappers_keep_caller_parameters_witness :
  sends_single
    "https://api.nookipedia.com/nh/fish?thumbsize=20&excludedetails=true&month=jan"
    "thumbsize" "20".
Proof.
  apply (proj2 (proj2 (wrappers_keep_caller_parameters "/nh/fish"
                  (mockFetch okEmpty) "jan"
                  (Some {| opt_query := Some [("thumbsize", One (SNumber 20))];
                           opt_fetchOptions := None |})
                  (fresh "apiKey" None)
                  "https://api.nookipedia.com/nh/fish?thumbsize=20&excludedetails=true&month=jan"
                  {| headers := [("Accept-Version", "1.0.0"); ("X-API-KEY", "apiKey")];
                     other := [] |}
                  "thumbsize" (SNumber 20) "20"
                  eq_refl (or_introl eq_refl) eq_refl eq_refl eq_refl))).
  reflexivity.
Defined.

(** X19. Whatever wrapper makes the call, the caller's fetch options
    other than [headers] reach the transport unchanged, and with no
    [fetchOptions] there are none. *)
Theorem other_fetch_options_pass_through :
  forall (fetch : Transport) (args : Args) (w : World) (url : string)
         (init : FetchInit),
    calls (snd (request fetch args w)) = calls w ++ [(url, init)] ->
    other init = match fetchOptions args with
                 | Some o => init_other o
                 | None => []
                 end.
Proof.
  intros fetch args w url init Hcalls.
  apply request_called_inv in Hcalls.
  destruct (outbound_inv _ args w url init Hcalls)
    as (u0 & u & H0 & _ & _ & _ & _ & _ & Hother).
  exact Hother.
Qed.

Lemma other_fetch_options_pass_through_witness :
  other {| headers := [("Accept-Version", "1.0.0"); ("X-API-KEY", "apiKey")];
           other := [("method", VString "POST")] |}
  = [("method", VString "POST")].
Proof.
  apply (other_fetch_options_pass_through (mockFetch okEmpty)
           {| path := "/nh/bugs"; replacePath := None; query := None;
              fetchOptions := Some {| init_headers := None;
                                      init_other := [("method", VString "POST")] |} |}
           (fresh "apiKey" None)
           "https://api.nookipedia.com/nh/bugs"
           {| headers := [("Accept-Version", "1.0.0"); ("X-API-KEY", "apiKey")];
              other := [("method", VString "POST")] |}).
  reflexivity.
Defined.

End CallerOptions.
